(** * 4d-intuition-lab: the Hopf fibration and stereographic projection tools

    A shallow embedding of the two single-page tools of the repository
    (the Hopf tool, [src/unnamed/part_000], and the stereographic tool,
    [src/stereographic/main.js]) and the properties of their geometry
    generators and of their mode / freeze / reset state machines.

    JavaScript numbers are kept abstract behind the interface [Number]:
    every function of the tools is written once, against that interface,
    and is then read at two instances,
      - [Float.number]: IEEE 754 binary64 with round-to-nearest, which is
        what a JavaScript engine computes; the library functions
        [Math.cos], [Math.sin], [Math.acos] and [Math.atan2], which
        ECMAScript leaves implementation-approximated, are a parameter
        ([Float.Libm]), of which a property takes at most that the
        functions stay within their ranges ([Binary64.Ranged]);
      - [Ideal.number]: exact real arithmetic, the mathematics the code
        approximates.
    The scene graph of three.js is reduced to what the tools store in it:
    a group is the list of its children, in insertion order. The page is
    taken to provide every element the scripts look up (the three
    checkboxes, the buttons, the warning). A click event is what the
    handler reads of it: whether its target is the canvas, and the
    intersections the ray caster returns. Labels, opacities, the capture
    button, the resize handler and the render loop hold no state that the
    handlers below read, and are left out. *)

From Stdlib Require Import List ZArith Bool Arith Lia.
From Stdlib Require Import Reals Lra.
From Stdlib Require Floats Uint63.
Import ListNotations.

Set Implicit Arguments.

(** ** JavaScript numbers *)

Declare Scope js_scope.
Delimit Scope js_scope with js.

Class Number (num : Type) : Type := {
  of_Z : Z -> num;                  (* an integer literal or loop counter *)
  dec : Z -> nat -> num;            (* the decimal literal m * 10^-k *)
  Math_PI : num;
  nadd : num -> num -> num;
  nsub : num -> num -> num;
  nmul : num -> num -> num;
  ndiv : num -> num -> num;
  nneg : num -> num;
  nltb : num -> num -> bool;        (* a < b *)
  nleb : num -> num -> bool;        (* a <= b *)
  truthy : num -> bool;             (* ToBoolean: false on 0 and NaN *)
  Math_sqrt : num -> num;
  Math_cos : num -> num;
  Math_sin : num -> num;
  Math_acos : num -> num;
  Math_atan2 : num -> num -> num;
  Math_max : num -> num -> num
}.

Notation "# z" := (of_Z z%Z) (at level 5, format "# z") : js_scope.
Infix "+" := nadd : js_scope.
Infix "-" := nsub : js_scope.
Infix "*" := nmul : js_scope.
Infix "/" := ndiv : js_scope.
Notation "- a" := (nneg a) : js_scope.
Infix "<?" := nltb : js_scope.
Infix "<=?" := nleb : js_scope.
Notation "a >? b" := (nltb b a) (at level 70, no associativity, only parsing) : js_scope.

(** ** The option monad of fuelled computations *)

Definition bind {A B : Type} (c : option A) (k : A -> option B) : option B :=
  match c with
  | Some a => k a
  | None => None
  end.

Notation "x <- c ;; k" := (bind c (fun x => k))
  (at level 61, c at next level, right associativity).

(** [for (let i = 0; i <= bound; i++) body], the body threading a value. *)
Fixpoint foldM {A B : Type} (body : B -> A -> option B) (l : list A) (b : B)
  : option B :=
  match l with
  | [] => Some b
  | a :: l' => b' <- body b a ;; foldM body l' b'
  end.

Definition for_i_le {B : Type} (bound : nat) (body : B -> nat -> option B)
  (b : B) : option B :=
  foldM body (seq 0 (S bound)) b.

(** ** THREE.Vector3 and the objects the tools put in the scene *)

Section Scene.
Context {num : Type} `{Number num}.
Local Open Scope js_scope.

Record Vector3 : Type := V3 { vx : num; vy : num; vz : num }.

(** three.js: [subVectors(a, b)], [length()], [distanceTo(v)],
    [multiplyScalar(s)], [divideScalar(s)], [normalize()]. *)
Definition subVectors (a b : Vector3) : Vector3 :=
  V3 (vx a - vx b) (vy a - vy b) (vz a - vz b).

Definition length3 (v : Vector3) : num :=
  Math_sqrt (vx v * vx v + vy v * vy v + vz v * vz v).

Definition distanceToSquared (a b : Vector3) : num :=
  let dx := vx a - vx b in
  let dy := vy a - vy b in
  let dz := vz a - vz b in
  dx * dx + dy * dy + dz * dz.

Definition distanceTo (a b : Vector3) : num :=
  Math_sqrt (distanceToSquared a b).

Definition multiplyScalar (v : Vector3) (s : num) : Vector3 :=
  V3 (vx v * s) (vy v * s) (vz v * s).

Definition divideScalar (v : Vector3) (s : num) : Vector3 :=
  multiplyScalar v (#1 / s).

Definition normalize (v : Vector3) : Vector3 :=
  let l := length3 v in
  divideScalar v (if truthy l then l else #1).

(** A [THREE.Line] keeps its points, the colour of its material and its
    uniform scale; a [THREE.Mesh] is always a small sphere here and keeps
    its radius, colour and position. *)
Inductive Object3D : Type :=
| Line (points : list Vector3) (color : Z) (scale : num)
| Mesh (radius : num) (color : Z) (position : Vector3).

End Scene.

Arguments Vector3 : clear implicits.
Arguments Object3D : clear implicits.

(** ** The Hopf tool ([src/unnamed/part_000]) *)

Module Hopf.
Section Model.
Context {num : Type} `{Number num}.
Local Open Scope js_scope.

(** The four groups of the scene, as [createHopfFiber] is handed one. *)
Inductive Group : Type := markersGroup | fibersGroup | torusGroup | sphereLinesGroup.

(** The module-level variables, the children of the four groups and the
    [checked] property of the three mode checkboxes. *)
Record State : Type := mkState {
  selectionMode : bool;
  longitudeMode : bool;
  latitudeMode : bool;
  holdScene : bool;
  fiberIndex : nat;
  markers : list (Object3D num);
  fibers : list (Object3D num);
  torus : list (Object3D num);
  sphereLines : list (Object3D num);
  pointToggle : bool;
  longitudeToggle : bool;
  latitudeToggle : bool
}.

Definition fiberColors : list Z :=
  [0xff0000; 0xff7f00; 0xffff00; 0x00ff00; 0x00ffff; 0x0000ff;
   0x7f00ff; 0xff00ff; 0xffcc00; 0x00ccff; 0xff5555; 0x55ff55]%Z.

Definition children (g : Group) (s : State) : list (Object3D num) :=
  match g with
  | markersGroup => markers s
  | fibersGroup => fibers s
  | torusGroup => torus s
  | sphereLinesGroup => sphereLines s
  end.

Definition setChildren (g : Group) (l : list (Object3D num)) (s : State) : State :=
  match g with
  | markersGroup =>
      mkState (selectionMode s) (longitudeMode s) (latitudeMode s) (holdScene s)
        (fiberIndex s) l (fibers s) (torus s) (sphereLines s)
        (pointToggle s) (longitudeToggle s) (latitudeToggle s)
  | fibersGroup =>
      mkState (selectionMode s) (longitudeMode s) (latitudeMode s) (holdScene s)
        (fiberIndex s) (markers s) l (torus s) (sphereLines s)
        (pointToggle s) (longitudeToggle s) (latitudeToggle s)
  | torusGroup =>
      mkState (selectionMode s) (longitudeMode s) (latitudeMode s) (holdScene s)
        (fiberIndex s) (markers s) (fibers s) l (sphereLines s)
        (pointToggle s) (longitudeToggle s) (latitudeToggle s)
  | sphereLinesGroup =>
      mkState (selectionMode s) (longitudeMode s) (latitudeMode s) (holdScene s)
        (fiberIndex s) (markers s) (fibers s) (torus s) l
        (pointToggle s) (longitudeToggle s) (latitudeToggle s)
  end.

(** [group.add(o)] and [group.clear()]. *)
Definition add (g : Group) (o : Object3D num) (s : State) : State :=
  setChildren g (children g s ++ [o]) s.

Definition clear (g : Group) (s : State) : State := setChildren g [] s.

Definition setFiberIndex (k : nat) (s : State) : State :=
  mkState (selectionMode s) (longitudeMode s) (latitudeMode s) (holdScene s)
    k (markers s) (fibers s) (torus s) (sphereLines s)
    (pointToggle s) (longitudeToggle s) (latitudeToggle s).

Definition setHoldScene (b : bool) (s : State) : State :=
  mkState (selectionMode s) (longitudeMode s) (latitudeMode s) b
    (fiberIndex s) (markers s) (fibers s) (torus s) (sphereLines s)
    (pointToggle s) (longitudeToggle s) (latitudeToggle s).

Definition setModes (sel lon lat : bool) (s : State) : State :=
  mkState sel lon lat (holdScene s)
    (fiberIndex s) (markers s) (fibers s) (torus s) (sphereLines s)
    (pointToggle s) (longitudeToggle s) (latitudeToggle s).

(** The three checkboxes of [toggleList]. *)
Inductive Toggle : Type := togglePoint | toggleLongitude | toggleLatitude.

Definition toggle_eqb (a b : Toggle) : bool :=
  match a, b with
  | togglePoint, togglePoint => true
  | toggleLongitude, toggleLongitude => true
  | toggleLatitude, toggleLatitude => true
  | _, _ => false
  end.

Definition checked (t : Toggle) (s : State) : bool :=
  match t with
  | togglePoint => pointToggle s
  | toggleLongitude => longitudeToggle s
  | toggleLatitude => latitudeToggle s
  end.

Definition setChecked (t : Toggle) (b : bool) (s : State) : State :=
  match t with
  | togglePoint =>
      mkState (selectionMode s) (longitudeMode s) (latitudeMode s) (holdScene s)
        (fiberIndex s) (markers s) (fibers s) (torus s) (sphereLines s)
        b (longitudeToggle s) (latitudeToggle s)
  | toggleLongitude =>
      mkState (selectionMode s) (longitudeMode s) (latitudeMode s) (holdScene s)
        (fiberIndex s) (markers s) (fibers s) (torus s) (sphereLines s)
        (pointToggle s) b (latitudeToggle s)
  | toggleLatitude =>
      mkState (selectionMode s) (longitudeMode s) (latitudeMode s) (holdScene s)
        (fiberIndex s) (markers s) (fibers s) (torus s) (sphereLines s)
        (pointToggle s) (longitudeToggle s) b
  end.

Definition toggleList : list Toggle := [togglePoint; toggleLongitude; toggleLatitude].

Definition clearPreviousSelections (s : State) : State :=
  clear sphereLinesGroup (clear torusGroup (clear fibersGroup (clear markersGroup s))).

(** The click handler of [resetBtn]. *)
Definition resetClick (s : State) : State :=
  let s := clearPreviousSelections s in
  let s := fold_left (fun s t => setChecked t false s) toggleList s in
  let s := setModes false false false s in
  let s := setFiberIndex 0 s in
  setHoldScene false s.

(** The click handler of [freezeBtn]. *)
Definition freezeClick (s : State) : State := setHoldScene (negb (holdScene s)) s.

(** The [change] handler of the checkbox [t]; the browser has already
    updated [t.checked] when it runs. *)
Definition onChange (t : Toggle) (s : State) : State :=
  let s :=
    if checked t s
    then fold_left
           (fun s other => if negb (toggle_eqb other t) then setChecked other false s else s)
           toggleList s
    else s in
  let s := clearPreviousSelections s in
  setModes (pointToggle s) (longitudeToggle s) (latitudeToggle s) s.

(** The user clicks the checkbox [t]: it flips, then [change] fires. *)
Definition userToggle (t : Toggle) (s : State) : State :=
  onChange t (setChecked t (negb (checked t s)) s).

(** *** Hopf fibers *)

(** One round of the body of the loop of [getHopfFiberPoints]. *)
Definition fiberPoint (theta phi t : num) : Vector3 num :=
  let x4 := Math_cos (theta / #2) * Math_cos t in
  let y4 := Math_cos (theta / #2) * Math_sin t in
  let z4 := Math_sin (theta / #2) * Math_cos (t + phi) in
  let w4 := Math_sin (theta / #2) * Math_sin (t + phi) in
  let d := Math_max (#1 - w4) (dec 1 4) in
  V3 (x4 / d) (y4 / d) (z4 / d).

(** [for (let t = 0; t <= Math.PI*2; t += (2*Math.PI)/segments)]: the
    loop is not bounded by its syntax, so it runs on fuel and [None] is
    fuel running out. *)
Fixpoint fiberLoop (fuel : nat) (theta phi segments t : num)
  (points : list (Vector3 num)) : option (list (Vector3 num)) :=
  match fuel with
  | O => None
  | S fuel' =>
      if t <=? Math_PI * #2
      then fiberLoop fuel' theta phi segments (t + (#2 * Math_PI) / segments)
             (points ++ [fiberPoint theta phi t])
      else Some points
  end.

Definition getHopfFiberPoints (fuel : nat) (n : Vector3 num) (segments : num)
  : option (list (Vector3 num)) :=
  let theta := Math_acos (vz n) in
  let phi := Math_atan2 (vy n) (vx n) in
  fiberLoop fuel theta phi segments #0 [].

(** The default value of the parameter [segments]. *)
Definition defaultSegments : num := #1000.

Definition createHopfFiber (fuel : nat) (n : Vector3 num) (color : Z) (g : Group)
  (s : State) : option State :=
  points <- getHopfFiberPoints fuel n defaultSegments ;;
  Some (add g (Line points color #1) s).

Definition createMarker (pos : Vector3 num) (s : State) : State :=
  add markersGroup (Mesh (dec 15 3) 0x000000 pos) s.

Definition drawSelectionCircle (points : list (Vector3 num)) (s : State) : State :=
  add sphereLinesGroup (Line points 0x000000 (dec 1005 3)) (clear sphereLinesGroup s).

Definition currentColor (s : State) : Z :=
  nth (fiberIndex s mod length fiberColors) fiberColors 0%Z.

(** *** The click handler of the window *)

(** What the handler reads from the event and from the ray caster:
    whether the target is the canvas, and the points of
    [raycaster.intersectObject(sphere)], nearest first. *)
Record ClickEvent : Type := mkClick {
  onCanvas : bool;
  intersects : list (Vector3 num)
}.

Definition longitudeSample (phi : num) (i : nat) : Vector3 num :=
  let theta := (#(Z.of_nat i) / #200) * Math_PI * #2 in
  V3 (Math_sin theta * Math_cos phi) (Math_sin theta * Math_sin phi) (Math_cos theta).

Definition longitudeBody (fuel : nat) (phi : num)
  (acc : list (Vector3 num) * State) (i : nat)
  : option (list (Vector3 num) * State) :=
  let '(pathPoints, s) := acc in
  let p := longitudeSample phi i in
  let pathPoints := pathPoints ++ [p] in
  if (i <=? 100)%nat
  then s <- createHopfFiber fuel p (currentColor s) torusGroup s ;;
       Some (pathPoints, setFiberIndex (S (fiberIndex s)) s)
  else Some (pathPoints, s).

Definition latitudeSample (r : num) (point : Vector3 num) (i : nat) : Vector3 num :=
  let t := (#(Z.of_nat i) / #200) * #2 * Math_PI in
  V3 (r * Math_cos t) (r * Math_sin t) (vz point).

Definition latitudeBody (fuel : nat) (r : num) (point : Vector3 num)
  (acc : list (Vector3 num) * State) (i : nat)
  : option (list (Vector3 num) * State) :=
  let '(pathPoints, s) := acc in
  let p := latitudeSample r point i in
  let pathPoints := pathPoints ++ [p] in
  s <- createHopfFiber fuel p (currentColor s) torusGroup s ;;
  Some (pathPoints, setFiberIndex (S (fiberIndex s)) s).

Definition selectionStep (fuel : nat) (point : Vector3 num) (s : State) : option State :=
  if selectionMode s
  then let color := currentColor s in
       let s := setFiberIndex (S (fiberIndex s)) s in
       let s := createMarker point s in
       createHopfFiber fuel point color fibersGroup s
  else Some s.

Definition longitudeStep (fuel : nat) (point : Vector3 num) (s : State) : option State :=
  if longitudeMode s
  then let s := clear torusGroup s in
       let phi := Math_atan2 (vy point) (vx point) in
       r <- for_i_le 200 (longitudeBody fuel phi) ([], s) ;;
       Some (drawSelectionCircle (fst r) (snd r))
  else Some s.

Definition latitudeStep (fuel : nat) (point : Vector3 num) (s : State) : option State :=
  if latitudeMode s
  then let s := clear torusGroup s in
       let r := Math_sqrt (#1 - vz point * vz point) in
       res <- for_i_le 200 (latitudeBody fuel r point) ([], s) ;;
       Some (drawSelectionCircle (fst res) (snd res))
  else Some s.

Definition onClick (fuel : nat) (ev : ClickEvent) (s : State) : option State :=
  if holdScene s then Some s
  else if negb (onCanvas ev) then Some s
  else match intersects ev with
       | [] => Some s
       | hit :: _ =>
           let point := normalize hit in
           s <- selectionStep fuel point s ;;
           s <- longitudeStep fuel point s ;;
           latitudeStep fuel point s
       end.

(** The state when the page has loaded: nothing drawn, nothing checked. *)
Definition initial : State :=
  mkState false false false false 0 [] [] [] [] false false false.

End Model.
End Hopf.

Arguments Hopf.State : clear implicits.
Arguments Hopf.ClickEvent : clear implicits.

(** ** The stereographic tool ([src/stereographic/main.js]) *)

Module Stereo.
Section Model.
Context {num : Type} `{Number num}.
Local Open Scope js_scope.

Definition radius : num := #1.
Definition spherePos : Vector3 num := V3 #0 radius #0.
Definition northPolePos : Vector3 num := V3 #0 (radius * #2) #0.

Definition SPHERE_COLOR : Z := 0xFF00FF.
Definition PLANE_COLOR : Z := 0x32CD32.

(** [isFrozen], the children of [projectGroup], whether the warning is
    displayed, and the [checked] property of the three checkboxes. *)
Record State : Type := mkState {
  isFrozen : bool;
  projectGroup : list (Object3D num);
  warning : bool;
  togglePoint : bool;
  toggleLongitude : bool;
  toggleLatitude : bool
}.

Definition setProjectGroup (l : list (Object3D num)) (s : State) : State :=
  mkState (isFrozen s) l (warning s) (togglePoint s) (toggleLongitude s) (toggleLatitude s).

Definition setWarning (b : bool) (s : State) : State :=
  mkState (isFrozen s) (projectGroup s) b (togglePoint s) (toggleLongitude s) (toggleLatitude s).

Definition setIsFrozen (b : bool) (s : State) : State :=
  mkState b (projectGroup s) (warning s) (togglePoint s) (toggleLongitude s) (toggleLatitude s).

Inductive Toggle : Type := point | longitude | latitude.

Definition toggle_eqb (a b : Toggle) : bool :=
  match a, b with
  | point, point => true
  | longitude, longitude => true
  | latitude, latitude => true
  | _, _ => false
  end.

Definition checked (t : Toggle) (s : State) : bool :=
  match t with
  | point => togglePoint s
  | longitude => toggleLongitude s
  | latitude => toggleLatitude s
  end.

Definition setChecked (t : Toggle) (b : bool) (s : State) : State :=
  match t with
  | point =>
      mkState (isFrozen s) (projectGroup s) (warning s) b (toggleLongitude s) (toggleLatitude s)
  | longitude =>
      mkState (isFrozen s) (projectGroup s) (warning s) (togglePoint s) b (toggleLatitude s)
  | latitude =>
      mkState (isFrozen s) (projectGroup s) (warning s) (togglePoint s) (toggleLongitude s) b
  end.

Definition toggles : list Toggle := [point; longitude; latitude].

(** [while (projectGroup.children.length > 0)]: each round disposes of
    [children[0]] and removes it, so the loop ends with the list. *)
Fixpoint removeAll (children : list (Object3D num)) : list (Object3D num) :=
  match children with
  | [] => []
  | _ :: rest => removeAll rest
  end.

Definition resetExhibition (s : State) : State :=
  let s := setProjectGroup (removeAll (projectGroup s)) s in
  let s := setWarning false s in
  let s := setChecked point false s in
  let s := setChecked longitude false s in
  setChecked latitude false s.

(** The click handler of [resetBtn]; the opacity feedback of the button
    is not part of the state. *)
Definition resetClick (s : State) : State := resetExhibition s.

(** The click handler of [freezeBtn]. *)
Definition freezeClick (s : State) : State := setIsFrozen (negb (isFrozen s)) s.

(** The [change] handler of the checkbox [t]. *)
Definition onChange (t : Toggle) (s : State) : State :=
  if checked t s
  then let s :=
         fold_left
           (fun s other => if negb (toggle_eqb other t) then setChecked other false s else s)
           toggles s in
       let s := setProjectGroup [] s in
       setWarning false s
  else s.

Definition userToggle (t : Toggle) (s : State) : State :=
  onChange t (setChecked t (negb (checked t s)) s).

(** *** Projection and drawing *)

Definition projectPoint (p : Vector3 num) : Vector3 num :=
  let direction := subVectors p northPolePos in
  let t := - vy northPolePos / vy direction in
  V3 (vx northPolePos + vx direction * t) #0 (vz northPolePos + vz direction * t).

Definition drawLine (points : list (Vector3 num)) (color : Z) (s : State) : State :=
  setProjectGroup (projectGroup s ++ [Line points color #1]) s.

Definition addMesh (m : Object3D num) (s : State) : State :=
  setProjectGroup (projectGroup s ++ [m]) s.

Record ClickEvent : Type := mkClick {
  onCanvas : bool;
  intersects : list (Vector3 num)
}.

(** The handler is written over the projection it calls, so that what a
    click makes of [projectPoint] can be told apart from the rest. *)
Section Handler.
Variable project : Vector3 num -> Vector3 num.

Definition pointStep (p : Vector3 num) (s : State) : State :=
  if togglePoint s
  then let proj := project p in
       let s := drawLine [northPolePos; proj] 0x444444 s in
       let s := addMesh (Mesh (dec 25 3) SPHERE_COLOR p) s in
       addMesh (Mesh (dec 25 3) PLANE_COLOR proj) s
  else s.

Definition latitudeSample (r : num) (p : Vector3 num) (i : nat) : Vector3 num :=
  let angle := (#(Z.of_nat i) / #128) * Math_PI * #2 in
  V3 (r * Math_cos angle) (vy p) (r * Math_sin angle).

Definition latitudeBody (r : num) (p : Vector3 num)
  (acc : list (Vector3 num) * list (Vector3 num)) (i : nat)
  : list (Vector3 num) * list (Vector3 num) :=
  let '(pointsSphere, pointsPlane) := acc in
  let sp := latitudeSample r p i in
  (pointsSphere ++ [sp], pointsPlane ++ [project sp]).

Definition latitudeStep (p : Vector3 num) (s : State) : State :=
  if toggleLatitude s
  then let localY := vy p - vy spherePos in
       let r := Math_sqrt (Math_max #0 (radius * radius - localY * localY)) in
       let '(pointsSphere, pointsPlane) :=
         fold_left (latitudeBody r p) (seq 0 129) ([], []) in
       let s := drawLine pointsSphere SPHERE_COLOR s in
       drawLine pointsPlane PLANE_COLOR s
  else s.

Definition longitudeSample (angle : num) (i : nat) : Vector3 num :=
  let phi := (#(Z.of_nat i) / #128) * Math_PI * #2 in
  V3 (radius * Math_cos phi * Math_cos angle)
     (radius * Math_sin phi + vy spherePos)
     (radius * Math_cos phi * Math_sin angle).

Definition longitudeBody (angle : num)
  (acc : list (Vector3 num) * list (Vector3 num)) (i : nat)
  : list (Vector3 num) * list (Vector3 num) :=
  let '(pointsSphere, pointsPlane) := acc in
  let sp := longitudeSample angle i in
  let pointsSphere := pointsSphere ++ [sp] in
  if distanceTo sp northPolePos >? dec 5 2
  then (pointsSphere, pointsPlane ++ [project sp])
  else (pointsSphere, pointsPlane).

Definition longitudeStep (p : Vector3 num) (s : State) : State :=
  if toggleLongitude s
  then let angle := Math_atan2 (vz p) (vx p) in
       let '(pointsSphere, pointsPlane) :=
         fold_left (longitudeBody angle) (seq 0 129) ([], []) in
       let s := drawLine pointsSphere SPHERE_COLOR s in
       if (1 <? length pointsPlane)%nat
       then drawLine pointsPlane PLANE_COLOR s
       else s
  else s.

Definition onClickWith (ev : ClickEvent) (s : State) : State :=
  if isFrozen s then s
  else if negb (onCanvas ev) then s
  else match intersects ev with
       | [] => s
       | p :: _ =>
           if distanceTo p northPolePos <? dec 8 2
           then setWarning true s
           else
             let s := setWarning false s in
             let s := setProjectGroup [] s in
             let s := pointStep p s in
             let s := latitudeStep p s in
             longitudeStep p s
       end.
End Handler.

(** The click handler of the window. *)
Definition onClick (ev : ClickEvent) (s : State) : State :=
  onClickWith projectPoint ev s.

Definition initial : State := mkState false [] false false false false.

End Model.
End Stereo.

Arguments Stereo.State : clear implicits.
Arguments Stereo.ClickEvent : clear implicits.

(** ** IEEE 754 binary64 numbers *)

Module Float.
Import Floats.PrimFloat.

(** The four functions of [Math] that ECMAScript does not pin down. *)
Class Libm : Type := mkLibm {
  cos : float -> float;
  sin : float -> float;
  acos : float -> float;
  atan2 : float -> float -> float
}.

(** Integers up to 2^53 are doubles; the literals and counters of the
    tools are far below. *)
Definition fromZ (z : Z) : float :=
  match z with
  | Z0 => zero
  | Zpos _ => of_uint63 (Uint63.of_Z z)
  | Zneg p => opp (of_uint63 (Uint63.of_Z (Zpos p)))
  end.

(** A decimal literal denotes the double nearest to it; for [m] and
    [10^k] below 2^53 that is the correctly rounded quotient. *)
Definition decimal (m : Z) (k : nat) : float := div (fromZ m) (fromZ (10 ^ Z.of_nat k)).

Definition PI : float := 0x1.921fb54442d18p+1%float.

(** [Math.max]: NaN if an argument is NaN, and +0 above -0. *)
Definition max (a b : float) : float :=
  if is_nan a || is_nan b then nan
  else if ltb a b then b
  else if ltb b a then a
  else if get_sign a then b else a.

Definition toBoolean (a : float) : bool := negb (is_nan a || is_zero a).

Definition number (m : Libm) : Number float :=
  {| of_Z := fromZ;
     dec := decimal;
     Math_PI := PI;
     nadd := add;
     nsub := sub;
     nmul := mul;
     ndiv := div;
     nneg := opp;
     nltb := ltb;
     nleb := leb;
     truthy := toBoolean;
     Math_sqrt := sqrt;
     Math_cos := @cos m;
     Math_sin := @sin m;
     Math_acos := @acos m;
     Math_atan2 := @atan2 m;
     Math_max := max |}.

(** A member of [Libm] to run the tools on closed inputs: short
    polynomial approximations. Every theorem below that speaks of
    doubles holds for all of [Libm]; none depends on this one. *)
Definition polyLibm : Libm :=
  {| cos := fun a => (1 - a * a / 2 + a * a * a * a / 24)%float;
     sin := fun a => (a - a * a * a / 6)%float;
     acos := fun a => (PI / 2 - a - a * a * a / 6)%float;
     atan2 := fun b a => (if ltb 0 a then b / a else if ltb a 0 then b / a + PI else PI / 2)%float |}.

(** The instance the closed examples run on. *)
Definition sample : Number float := number polyLibm.

End Float.

(** ** Exact real numbers *)

Module Ideal.
Local Open Scope R_scope.

Definition ltb (a b : R) : bool := if Rlt_dec a b then true else false.
Definition leb (a b : R) : bool := if Rle_dec a b then true else false.
Definition toBoolean (a : R) : bool := if Req_dec_T a 0 then false else true.

Definition decimal (m : Z) (k : nat) : R := IZR m / IZR (10 ^ Z.of_nat k).

Definition atan2 (b a : R) : R :=
  if Rlt_dec 0 a then atan (b / a)
  else if Rlt_dec a 0
       then if Rle_dec 0 b then atan (b / a) + PI else atan (b / a) - PI
       else if Rlt_dec 0 b then PI / 2
            else if Rlt_dec b 0 then - (PI / 2) else 0.

Definition number : Number R :=
  {| of_Z := IZR;
     dec := decimal;
     Math_PI := PI;
     nadd := Rplus;
     nsub := Rminus;
     nmul := Rmult;
     ndiv := Rdiv;
     nneg := Ropp;
     nltb := ltb;
     nleb := leb;
     truthy := toBoolean;
     Math_sqrt := sqrt;
     Math_cos := Rtrigo_def.cos;
     Math_sin := Rtrigo_def.sin;
     Math_acos := Ratan.acos;
     Math_atan2 := atan2;
     Math_max := Rmax |}.

End Ideal.


(** * Specification vocabulary *)

Section Vocabulary.
Context {num : Type} `{Number num}.
Local Open Scope js_scope.

(** The values [t] takes in the loop of [Hopf.getHopfFiberPoints]: they
    depend on [segments] alone, neither on [n] nor on [Math.cos] and the
    like. *)
Fixpoint fiberTimes (fuel : nat) (segments t : num) : option (list num) :=
  match fuel with
  | O => None
  | S fuel' =>
      if t <=? Math_PI * #2
      then option_map (cons t) (fiberTimes fuel' segments (t + (#2 * Math_PI) / segments))
      else Some []
  end.

(** The entry of the palette at position [k] of the colour cycle. *)
Definition colorAt (k : nat) : Z :=
  nth (k mod length Hopf.fiberColors) Hopf.fiberColors 0%Z.

(** The fibers over the points [l], sampled at [ts], coloured from
    position [k] of the cycle on. *)
Fixpoint fiberLines (ts : list num) (k : nat) (l : list (Vector3 num))
  : list (Object3D num) :=
  match l with
  | [] => []
  | p :: l' =>
      Line (map (Hopf.fiberPoint (Math_acos (vz p)) (Math_atan2 (vy p) (vx p))) ts)
        (colorAt k) #1
      :: fiberLines ts (S k) l'
  end.

(** The state after fibers over the points [l] went into the torus group. *)
Definition withFibers (ts : list num) (l : list (Vector3 num)) (s : Hopf.State num)
  : Hopf.State num :=
  Hopf.setFiberIndex (Hopf.fiberIndex s + length l)%nat
    (Hopf.setChildren Hopf.torusGroup
       (Hopf.torus s ++ fiberLines ts (Hopf.fiberIndex s) l) s).

(** How many of the three checkboxes are checked, and how many of the
    three mode flags of the Hopf tool are set. *)
Definition count3 (a b c : bool) : nat := (Nat.b2n a + Nat.b2n b + Nat.b2n c)%nat.

Definition hopfChecked (s : Hopf.State num) : nat :=
  count3 (Hopf.pointToggle s) (Hopf.longitudeToggle s) (Hopf.latitudeToggle s).

Definition hopfModes (s : Hopf.State num) : nat :=
  count3 (Hopf.selectionMode s) (Hopf.longitudeMode s) (Hopf.latitudeMode s).

Definition stereoChecked (s : Stereo.State num) : nat :=
  count3 (Stereo.togglePoint s) (Stereo.toggleLongitude s) (Stereo.toggleLatitude s).

(** What a click must leave alone: the flags and the checkboxes. *)
Definition hopfControls (s : Hopf.State num) : list bool :=
  [Hopf.selectionMode s; Hopf.longitudeMode s; Hopf.latitudeMode s; Hopf.holdScene s;
   Hopf.pointToggle s; Hopf.longitudeToggle s; Hopf.latitudeToggle s].

Definition stereoControls (s : Stereo.State num) : list bool :=
  [Stereo.isFrozen s; Stereo.togglePoint s; Stereo.toggleLongitude s; Stereo.toggleLatitude s].

(** Nothing is drawn. *)
Definition hopfEmpty (s : Hopf.State num) : Prop :=
  Hopf.markers s = [] /\ Hopf.fibers s = [] /\ Hopf.torus s = [] /\ Hopf.sphereLines s = [].

(** A polyline that ends on the point it starts from. *)
Definition closedPath (path : list (Vector3 num)) : Prop :=
  exists a mid, path = a :: mid ++ [a].

(** The guard of the projection in the longitude loop of the
    stereographic tool. *)
Definition farFromPole (sp : Vector3 num) : bool :=
  distanceTo sp Stereo.northPolePos >? dec 5 2.

(** The events of the two pages and the states they lead to from the
    initial one. *)
Inductive HopfEvent : Type :=
| HopfChange (t : Hopf.Toggle)
| HopfReset
| HopfFreeze
| HopfClick (ev : Hopf.ClickEvent num).

Definition hopfStep (fuel : nat) (e : HopfEvent) (s : Hopf.State num)
  : option (Hopf.State num) :=
  match e with
  | HopfChange t => Some (Hopf.userToggle t s)
  | HopfReset => Some (Hopf.resetClick s)
  | HopfFreeze => Some (Hopf.freezeClick s)
  | HopfClick ev => Hopf.onClick fuel ev s
  end.

Inductive hopfReachable (fuel : nat) : Hopf.State num -> Prop :=
| hopfReachable_initial : hopfReachable fuel Hopf.initial
| hopfReachable_step (e : HopfEvent) (s s' : Hopf.State num) :
    hopfReachable fuel s -> hopfStep fuel e s = Some s' -> hopfReachable fuel s'.

Inductive StereoEvent : Type :=
| StereoChange (t : Stereo.Toggle)
| StereoReset
| StereoFreeze
| StereoClick (ev : Stereo.ClickEvent num).

Definition stereoStep (e : StereoEvent) (s : Stereo.State num) : Stereo.State num :=
  match e with
  | StereoChange t => Stereo.userToggle t s
  | StereoReset => Stereo.resetClick s
  | StereoFreeze => Stereo.freezeClick s
  | StereoClick ev => Stereo.onClick ev s
  end.

Inductive stereoReachable : Stereo.State num -> Prop :=
| stereoReachable_initial : stereoReachable Stereo.initial
| stereoReachable_step (e : StereoEvent) (s : Stereo.State num) :
    stereoReachable s -> stereoReachable (stereoStep e s).

End Vocabulary.

Arguments HopfEvent : clear implicits.
Arguments StereoEvent : clear implicits.

(** * Vocabulary of the further properties *)

Section FurtherVocabulary.
Context {num : Type} `{Number num}.
Local Open Scope js_scope.

(** The four coordinates [x4], [y4], [z4], [w4] that a round of the loop
    of [Hopf.getHopfFiberPoints] computes before it divides. *)
Definition fiberPoint4 (theta phi t : num) : num * num * num * num :=
  let x4 := Math_cos (theta / #2) * Math_cos t in
  let y4 := Math_cos (theta / #2) * Math_sin t in
  let z4 := Math_sin (theta / #2) * Math_cos (t + phi) in
  let w4 := Math_sin (theta / #2) * Math_sin (t + phi) in
  (x4, y4, z4, w4).

(** A click of the Hopf tool that reaches the sphere. *)
Definition hopfAccepted (ev : Hopf.ClickEvent num) : Prop :=
  Hopf.onCanvas ev = true /\ Hopf.intersects ev <> [].

(** A run of clicks of the Hopf tool, one after the other. *)
Definition hopfClicks (fuel : nat) (evs : list (Hopf.ClickEvent num))
  (s : Hopf.State num) : option (Hopf.State num) :=
  foldM (fun s ev => Hopf.onClick fuel ev s) evs s.

(** The points the click handler of the Hopf tool works with along a run
    of clicks: the first intersection of each click, normalized. *)
Definition clickPoints (evs : list (Hopf.ClickEvent num)) : list (Vector3 num) :=
  flat_map
    (fun ev => match Hopf.intersects ev with
               | hit :: _ => [normalize hit]
               | [] => []
               end)
    evs.

(** The radius [r] that the latitude mode of the stereographic tool
    computes for the clicked point [p]. *)
Definition stereoLatitudeRadius (p : Vector3 num) : num :=
  let localY := vy p - vy Stereo.spherePos in
  Math_sqrt (Math_max #0 (Stereo.radius * Stereo.radius - localY * localY)).

(** The marker and the guide line of the point mode of the stereographic
    tool. *)
Definition stereoPointObjects (p : Vector3 num) : list (Object3D num) :=
  [Line [Stereo.northPolePos; Stereo.projectPoint p] 0x444444 #1;
   Mesh (dec 25 3) Stereo.SPHERE_COLOR p;
   Mesh (dec 25 3) Stereo.PLANE_COLOR (Stereo.projectPoint p)].

End FurtherVocabulary.

(** Geometry in exact arithmetic. *)
Module Geometry.
Local Open Scope R_scope.

(** A point of the unit sphere around the origin, where the Hopf tool
    draws. *)
Definition unit (v : Vector3 R) : Prop :=
  vx v * vx v + vy v * vy v + vz v * vz v = 1.

(** A point of the sphere of the stereographic tool: radius 1 around
    (0, 1, 0). *)
Definition onSphere (v : Vector3 R) : Prop :=
  vx v * vx v + (vy v - 1) * (vy v - 1) + vz v * vz v = 1.

(** The Hopf map of the unit 3-sphere onto the unit 2-sphere, on the
    pair of complex numbers [x4 + i y4] and [z4 + i w4]: twice the product
    of the conjugate of the first with the second, and the difference of
    their squared moduli. *)
Definition hopfMap (q : R * R * R * R) : Vector3 R :=
  let '(x4, y4, z4, w4) := q in
  V3 (2 * (x4 * z4 + y4 * w4))
     (2 * (x4 * w4 - y4 * z4))
     (x4 * x4 + y4 * y4 - z4 * z4 - w4 * w4).

End Geometry.

(** The loop of the fiber generator, round by round. *)
Section LoopVocabulary.
Context {num : Type} `{Number num}.
Local Open Scope js_scope.

(** The value of [t] in round [k] of the loop of
    [Hopf.getHopfFiberPoints]: the step added [k] times to 0, one
    addition after the other. *)
Definition fiberTime (segments : num) (k : nat) : num :=
  Nat.iter k (fun t => t + (#2 * Math_PI) / segments) #0.

End LoopVocabulary.

(** Doubles: sizes, ranges and what is taken of [Math]. *)
Module Binary64.
Import Floats.SpecFloat Floats.PrimFloat.

(** Zero, or a finite number of absolute value below [2^k]. *)
Definition below (k : Z) (x : spec_float) : Prop :=
  match x with
  | S754_zero _ => True
  | S754_finite _ m e => (Z.pos (digits2_pos m) + e <= k)%Z
  | _ => False
  end.

(** An infinity, or a finite number of absolute value at least
    [2^(k-1)]. *)
Definition above (k : Z) (x : spec_float) : Prop :=
  match x with
  | S754_infinity _ => True
  | S754_finite _ m e => (k <= Z.pos (digits2_pos m) + e)%Z
  | _ => False
  end.

(** Whether the bound of a range is zero or a finite number below
    [2^k] in absolute value. *)
Definition capped (k : Z) (bound : spec_float) : bool :=
  match bound with
  | S754_zero _ => true
  | S754_finite _ _ e => (53 + e <=? k)%Z
  | _ => false
  end.

(** Whether a lower bound is a positive normal number of at least
    [2^(k-1)]. *)
Definition floored (k : Z) (bound : spec_float) : bool :=
  match bound with
  | S754_finite false _ e => ((-1074 <? e) && (k <=? 53 + e))%Z
  | _ => false
  end.

(** [lo <= x && x <= hi] as JavaScript evaluates it: false when [x] is
    NaN. *)
Definition between (lo hi x : float) : bool := leb lo x && leb x hi.

(** What the finiteness of the fibers takes of [Math]: on a finite
    argument [Math.cos] and [Math.sin] return a number between -1 and 1,
    on an argument between -1 and 1 [Math.acos] returns a number between
    0 and [Math.PI], and on arguments other than NaN [Math.atan2] returns
    a number between [-Math.PI] and [Math.PI]. *)
Record Ranged (m : Float.Libm) : Prop := {
  cos_range : forall x, is_finite x = true ->
    between (Float.fromZ (-1)) (Float.fromZ 1) (@Float.cos m x) = true;
  sin_range : forall x, is_finite x = true ->
    between (Float.fromZ (-1)) (Float.fromZ 1) (@Float.sin m x) = true;
  acos_range : forall x, between (Float.fromZ (-1)) (Float.fromZ 1) x = true ->
    between (Float.fromZ 0) Float.PI (@Float.acos m x) = true;
  atan2_range : forall y x, is_nan y = false -> is_nan x = false ->
    between (opp Float.PI) Float.PI (@Float.atan2 m y x) = true
}.

(** [x] when it is between [lo] and [hi], and [other] when it is not. *)
Definition within (lo hi other x : float) : float :=
  if between lo hi x then x else other.

(** [Float.polyLibm] with its results kept within the ranges: a member
    of [Libm] that is [Ranged], to run the tools on. *)
Definition rangedLibm : Float.Libm :=
  {| Float.cos := fun a =>
       within (Float.fromZ (-1)) (Float.fromZ 1) (Float.fromZ 1) (@Float.cos Float.polyLibm a);
     Float.sin := fun a =>
       within (Float.fromZ (-1)) (Float.fromZ 1) (Float.fromZ 0) (@Float.sin Float.polyLibm a);
     Float.acos := fun a =>
       within (Float.fromZ 0) Float.PI (Float.fromZ 0) (@Float.acos Float.polyLibm a);
     Float.atan2 := fun b a =>
       within (opp Float.PI) Float.PI (Float.fromZ 0) (@Float.atan2 Float.polyLibm b a) |}.

(** A point of the sphere of the stereographic tool, in doubles, whose
    distance to the north pole is the double of 0.08. *)
Definition thresholdPoint : Vector3 float :=
  V3 0x1.476af1bbbdd38p-4%float 0x1.ff2e48e8a71dfp+0%float 0%float.

End Binary64.

(** * Properties *)

(** ** Loops *)

(** A loop whose body keeps a relation with its start keeps it. *)
Lemma foldM_preserves {A B : Type} (R : B -> B -> Prop) (body : B -> A -> option B) :
  (forall b, R b b) ->
  (forall b1 b2 b3, R b1 b2 -> R b2 b3 -> R b1 b3) ->
  (forall b a b', body b a = Some b' -> R b b') ->
  forall l b b', foldM body l b = Some b' -> R b b'.
Proof.
  intros Hrefl Htrans Hbody l. induction l as [|a l IH]; intros b b' Hrun; simpl in Hrun.
  - injection Hrun as <-. apply Hrefl.
  - destruct (body b a) as [b1|] eqn:E; simpl in Hrun; [|discriminate].
    apply Htrans with b1; [eapply Hbody; eassumption | apply IH; assumption].
Qed.

(** ** Reset, mode changes and freeze *)

Section StateMachines.
Context {num : Type} `{Number num}.
Local Open Scope js_scope.

Lemma hopf_reset_is_initial (s : Hopf.State num) : Hopf.resetClick s = Hopf.initial.
Proof. reflexivity. Qed.

Lemma stereo_removeAll (l : list (Object3D num)) : Stereo.removeAll l = [].
Proof. induction l as [|o l IH]; simpl; [reflexivity | exact IH]. Qed.

Lemma stereo_reset_state (s : Stereo.State num) :
  Stereo.resetClick s = Stereo.mkState (Stereo.isFrozen s) [] false false false false.
Proof.
  unfold Stereo.resetClick, Stereo.resetExhibition. simpl.
  rewrite stereo_removeAll. reflexivity.
Qed.

(** The reset of the stereographic tool does not touch [isFrozen]. *)
Lemma stereo_reset_keeps_isFrozen (s : Stereo.State num) :
  Stereo.isFrozen (Stereo.resetClick s) = Stereo.isFrozen s.
Proof. rewrite stereo_reset_state. reflexivity. Qed.

(** C1, as amended: in the Hopf tool, Reset empties the four groups, sets
    the three mode flags and the three checkboxes to false, sets
    [holdScene] to false and [fiberIndex] to 0, whatever the state; in the
    stereographic tool, which has no colour cycle, Reset empties
    [projectGroup] and unchecks the three checkboxes. *)
Theorem reset_clears_and_idles (sh : Hopf.State num) (ss : Stereo.State num) :
  Hopf.resetClick sh =
    Hopf.mkState false false false false 0 [] [] [] [] false false false /\
  (Stereo.projectGroup (Stereo.resetClick ss) = [] /\
   Stereo.togglePoint (Stereo.resetClick ss) = false /\
   Stereo.toggleLongitude (Stereo.resetClick ss) = false /\
   Stereo.toggleLatitude (Stereo.resetClick ss) = false).
Proof.
  split.
  - apply hopf_reset_is_initial.
  - rewrite stereo_reset_state. repeat split.
Qed.

(** *** Mode changes *)

Lemma hopf_userToggle_checked (t : Hopf.Toggle) (s : Hopf.State num) :
  (hopfChecked s <= 1)%nat ->
  (hopfChecked (Hopf.userToggle t s) <= 1)%nat.
Proof.
  destruct s as [sel lon lat hold idx mk fb tr sl pt lt tt].
  destruct t, pt, lt, tt; vm_compute; lia.
Qed.

(** After a change the mode flags of the Hopf tool are the checkboxes. *)
Lemma hopf_userToggle_modes (t : Hopf.Toggle) (s : Hopf.State num) :
  Hopf.selectionMode (Hopf.userToggle t s) = Hopf.pointToggle (Hopf.userToggle t s) /\
  Hopf.longitudeMode (Hopf.userToggle t s) = Hopf.longitudeToggle (Hopf.userToggle t s) /\
  Hopf.latitudeMode (Hopf.userToggle t s) = Hopf.latitudeToggle (Hopf.userToggle t s).
Proof.
  destruct s as [sel lon lat hold idx mk fb tr sl pt lt tt].
  destruct t, pt, lt, tt; vm_compute; repeat split.
Qed.

Lemma hopf_userToggle_modes_count (t : Hopf.Toggle) (s : Hopf.State num) :
  hopfModes (Hopf.userToggle t s) = hopfChecked (Hopf.userToggle t s).
Proof.
  destruct (hopf_userToggle_modes t s) as [E1 [E2 E3]].
  unfold hopfModes, hopfChecked. rewrite E1, E2, E3. reflexivity.
Qed.

Lemma hopf_userToggle_clears (t : Hopf.Toggle) (s : Hopf.State num) :
  hopfEmpty (Hopf.userToggle t s).
Proof.
  destruct s as [sel lon lat hold idx mk fb tr sl pt lt tt].
  destruct t, pt, lt, tt; vm_compute; repeat split.
Qed.

(** Checking a box of the Hopf tool leaves that mode, and only it, on. *)
Lemma hopf_userToggle_activates (t u : Hopf.Toggle) (s : Hopf.State num) :
  Hopf.checked t s = false ->
  Hopf.checked u (Hopf.userToggle t s) = Hopf.toggle_eqb u t.
Proof.
  destruct s as [sel lon lat hold idx mk fb tr sl pt lt tt].
  destruct t, u; simpl; intros ->; reflexivity.
Qed.

Lemma stereo_userToggle_checked (t : Stereo.Toggle) (s : Stereo.State num) :
  (stereoChecked s <= 1)%nat ->
  (stereoChecked (Stereo.userToggle t s) <= 1)%nat.
Proof.
  destruct s as [fr pg w pt lt tt].
  destruct t, pt, lt, tt; vm_compute; lia.
Qed.

Lemma stereo_userToggle_clears (t : Stereo.Toggle) (s : Stereo.State num) :
  Stereo.checked t (Stereo.userToggle t s) = true ->
  Stereo.projectGroup (Stereo.userToggle t s) = [].
Proof.
  destruct s as [fr pg w pt lt tt].
  destruct t, pt, lt, tt; simpl; intros E; try reflexivity; discriminate E.
Qed.

Lemma stereo_userToggle_activates (t u : Stereo.Toggle) (s : Stereo.State num) :
  Stereo.checked t s = false ->
  Stereo.checked u (Stereo.userToggle t s) = Stereo.toggle_eqb u t.
Proof.
  destruct s as [fr pg w pt lt tt].
  destruct t, u; simpl; intros ->; reflexivity.
Qed.

(** C4: in a state with at most one checkbox checked, a change of any
    checkbox leaves at most one checked (in the Hopf tool the mode flags
    follow the checkboxes); a change that checks a box clears every group
    of the tool. *)
Theorem mode_change_exclusive_and_clears
  (th : Hopf.Toggle) (sh : Hopf.State num) (ts : Stereo.Toggle) (ss : Stereo.State num) :
  (hopfChecked sh <= 1)%nat ->
  (stereoChecked ss <= 1)%nat ->
  ((hopfChecked (Hopf.userToggle th sh) <= 1)%nat /\
   (hopfModes (Hopf.userToggle th sh) <= 1)%nat /\
   (Hopf.checked th (Hopf.userToggle th sh) = true -> hopfEmpty (Hopf.userToggle th sh))) /\
  ((stereoChecked (Stereo.userToggle ts ss) <= 1)%nat /\
   (Stereo.checked ts (Stereo.userToggle ts ss) = true ->
    Stereo.projectGroup (Stereo.userToggle ts ss) = [])).
Proof.
  intros Hh Hs. split; [split; [|split] | split].
  - apply hopf_userToggle_checked. exact Hh.
  - rewrite hopf_userToggle_modes_count. apply hopf_userToggle_checked. exact Hh.
  - intros _. apply hopf_userToggle_clears.
  - apply stereo_userToggle_checked. exact Hs.
  - apply stereo_userToggle_clears.
Qed.

(** *** Freeze *)

Lemma hopf_frozen_click (fuel : nat) (ev : Hopf.ClickEvent num) (s : Hopf.State num) :
  Hopf.holdScene s = true -> Hopf.onClick fuel ev s = Some s.
Proof. intros E. unfold Hopf.onClick. rewrite E. reflexivity. Qed.

Lemma stereo_frozen_click (project : Vector3 num -> Vector3 num)
  (ev : Stereo.ClickEvent num) (s : Stereo.State num) :
  Stereo.isFrozen s = true -> Stereo.onClickWith project ev s = s.
Proof. intros E. unfold Stereo.onClickWith. rewrite E. reflexivity. Qed.

(** C5: while the frozen flag of a tool is set, a click returns the state
    it was given: no group, no flag and no counter changes, whatever the
    mode and wherever the click lands. *)
Theorem frozen_click_changes_nothing (fuel : nat)
  (evh : Hopf.ClickEvent num) (sh : Hopf.State num)
  (evs : Stereo.ClickEvent num) (ss : Stereo.State num) :
  Hopf.holdScene sh = true ->
  Stereo.isFrozen ss = true ->
  Hopf.onClick fuel evh sh = Some sh /\ Stereo.onClick evs ss = ss.
Proof.
  intros Hh Hs. split.
  - apply hopf_frozen_click. exact Hh.
  - apply stereo_frozen_click. exact Hs.
Qed.

End StateMachines.

(** ** The click handler of the stereographic tool *)

Section StereoClick.
Context {num : Type} `{Number num}.
Local Open Scope js_scope.
Import Stereo.

Variable project : Vector3 num -> Vector3 num.

Lemma latitude_loop (r : num) (p : Vector3 num) (l : list nat)
  (pointsSphere pointsPlane : list (Vector3 num)) :
  fold_left (latitudeBody project r p) l (pointsSphere, pointsPlane) =
  (pointsSphere ++ map (latitudeSample r p) l,
   pointsPlane ++ map project (map (latitudeSample r p) l)).
Proof.
  revert pointsSphere pointsPlane.
  induction l as [|i l IH]; intros ps pp; simpl.
  - rewrite !app_nil_r. reflexivity.
  - rewrite IH, <- !app_assoc. reflexivity.
Qed.

Lemma longitude_loop (angle : num) (l : list nat)
  (pointsSphere pointsPlane : list (Vector3 num)) :
  fold_left (longitudeBody project angle) l (pointsSphere, pointsPlane) =
  (pointsSphere ++ map (longitudeSample angle) l,
   pointsPlane ++ map project (filter farFromPole (map (longitudeSample angle) l))).
Proof.
  revert pointsSphere pointsPlane.
  induction l as [|i l IH]; intros ps pp; simpl.
  - rewrite !app_nil_r. reflexivity.
  - change (distanceTo (longitudeSample angle i) northPolePos >? dec 5 2)
      with (farFromPole (longitudeSample angle i)).
    destruct (farFromPole (longitudeSample angle i));
      rewrite IH; simpl; rewrite <- !app_assoc; reflexivity.
Qed.

Lemma latitudeStep_draws (p : Vector3 num) (s : State num) :
  toggleLatitude s = true ->
  let r := Math_sqrt (Math_max #0 (radius * radius - (vy p - vy spherePos) * (vy p - vy spherePos))) in
  let pointsSphere := map (latitudeSample r p) (seq 0 129) in
  latitudeStep project p s =
  setProjectGroup
    (projectGroup s ++
     [Line pointsSphere SPHERE_COLOR #1; Line (map project pointsSphere) PLANE_COLOR #1]) s.
Proof.
  intros E r pointsSphere. unfold latitudeStep. rewrite E.
  rewrite latitude_loop. unfold drawLine. fold r. fold pointsSphere.
  destruct s; simpl. rewrite <- app_assoc. reflexivity.
Qed.

Lemma longitudeStep_draws (p : Vector3 num) (s : State num) :
  toggleLongitude s = true ->
  let pointsSphere := map (longitudeSample (Math_atan2 (vz p) (vx p))) (seq 0 129) in
  let pointsPlane := map project (filter farFromPole pointsSphere) in
  longitudeStep project p s =
  setProjectGroup
    (projectGroup s ++
     Line pointsSphere SPHERE_COLOR #1
     :: (if (1 <? length pointsPlane)%nat then [Line pointsPlane PLANE_COLOR #1] else [])) s.
Proof.
  intros E pointsSphere pointsPlane. unfold longitudeStep. rewrite E.
  rewrite longitude_loop. fold pointsSphere. fold pointsPlane.
  change ([] ++ pointsSphere) with pointsSphere.
  change ([] ++ pointsPlane) with pointsPlane.
  destruct (1 <? length pointsPlane)%nat; unfold drawLine; destruct s; simpl;
    [rewrite <- app_assoc|]; reflexivity.
Qed.

Lemma pointStep_off (p : Vector3 num) (s : State num) :
  togglePoint s = false -> pointStep project p s = s.
Proof. intros E. unfold pointStep. rewrite E. reflexivity. Qed.

Lemma latitudeStep_off (p : Vector3 num) (s : State num) :
  toggleLatitude s = false -> latitudeStep project p s = s.
Proof. intros E. unfold latitudeStep. rewrite E. reflexivity. Qed.

Lemma longitudeStep_off (p : Vector3 num) (s : State num) :
  toggleLongitude s = false -> longitudeStep project p s = s.
Proof. intros E. unfold longitudeStep. rewrite E. reflexivity. Qed.

(** What a click that passed the guards does, whatever the mode. *)
Lemma accepted_click (ev : ClickEvent num) (s : State num) (p : Vector3 num)
  (rest : list (Vector3 num)) :
  isFrozen s = false -> onCanvas ev = true -> intersects ev = p :: rest ->
  (distanceTo p northPolePos <? dec 8 2) = false ->
  onClickWith project ev s =
  longitudeStep project p
    (latitudeStep project p
       (pointStep project p (setProjectGroup [] (setWarning false s)))).
Proof.
  intros Hf Hc Hi Hd. unfold onClickWith. rewrite Hf, Hc, Hi, Hd. reflexivity.
Qed.

Lemma near_pole_click (ev : ClickEvent num) (s : State num) (p : Vector3 num)
  (rest : list (Vector3 num)) :
  intersects ev = p :: rest ->
  (distanceTo p northPolePos <? dec 8 2) = true ->
  onClickWith project ev s =
  if isFrozen s then s else if onCanvas ev then setWarning true s else s.
Proof.
  intros Hi Hd. unfold onClickWith. rewrite Hi, Hd.
  destruct (isFrozen s), (onCanvas ev); reflexivity.
Qed.

End StereoClick.

Section StereoClaims.
Context {num : Type} `{Number num}.
Local Open Scope js_scope.
Import Stereo.

(** C6, for the strict test of the code: a click whose surface point is
    closer than 0.08 to [northPolePos] ([distanceTo < 0.08]) computes no
    projection: the handler does the same whatever function stands for
    [projectPoint]; [projectGroup], the freeze flag and the three
    checkboxes are left as they were; and when the click is handled (not
    frozen, on the canvas) the warning is displayed after it, whether it
    was displayed before or not. *)
Theorem near_pole_click_warns (ev : ClickEvent num) (s : State num)
  (p : Vector3 num) (rest : list (Vector3 num)) :
  intersects ev = p :: rest ->
  (distanceTo p northPolePos <? dec 8 2) = true ->
  (forall project, onClickWith project ev s = onClick ev s) /\
  projectGroup (onClick ev s) = projectGroup s /\
  stereoControls (onClick ev s) = stereoControls s /\
  (isFrozen s = false -> onCanvas ev = true -> warning (onClick ev s) = true).
Proof.
  intros Hi Hd. unfold onClick. split; [|split; [|split]].
  - intros project. rewrite !(near_pole_click _ ev s Hi Hd). reflexivity.
  - rewrite (near_pole_click _ ev s Hi Hd).
    destruct (isFrozen s), (onCanvas ev); reflexivity.
  - rewrite (near_pole_click _ ev s Hi Hd).
    destruct (isFrozen s) eqn:Hf, (onCanvas ev); unfold stereoControls; cbn; rewrite ?Hf;
      reflexivity.
  - intros Hf Hc. rewrite (near_pole_click _ ev s Hi Hd), Hf, Hc. reflexivity.
Qed.

(** C9: in longitude mode an accepted click draws the sphere-side curve
    through all 129 sampled points, and the plane-side polyline, when it is
    drawn, through the projections of exactly the sampled points farther
    than 0.05 from [northPolePos]: a sample at distance at most 0.05 is not
    projected. *)
Theorem longitude_projection_skips_pole (ev : ClickEvent num) (s : State num)
  (p : Vector3 num) (rest : list (Vector3 num)) :
  isFrozen s = false -> onCanvas ev = true -> intersects ev = p :: rest ->
  (distanceTo p northPolePos <? dec 8 2) = false ->
  togglePoint s = false -> toggleLatitude s = false -> toggleLongitude s = true ->
  let pointsSphere := map (longitudeSample (Math_atan2 (vz p) (vx p))) (seq 0 129) in
  let kept := filter (fun sp => distanceTo sp northPolePos >? dec 5 2) pointsSphere in
  let pointsPlane := map projectPoint kept in
  length pointsSphere = 129%nat /\
  (forall sp, In sp kept <->
     In sp pointsSphere /\ (distanceTo sp northPolePos >? dec 5 2) = true) /\
  projectGroup (onClick ev s) =
    Line pointsSphere SPHERE_COLOR #1
    :: (if (1 <? length pointsPlane)%nat then [Line pointsPlane PLANE_COLOR #1] else []).
Proof.
  intros Hf Hc Hi Hd Hp Hlat Hlon pointsSphere kept pointsPlane.
  split; [|split].
  - unfold pointsSphere. rewrite length_map, length_seq. reflexivity.
  - intros sp. unfold kept. apply filter_In.
  - unfold onClick. rewrite (accepted_click _ ev s Hf Hc Hi Hd).
    rewrite pointStep_off, latitudeStep_off by assumption.
    rewrite longitudeStep_draws by exact Hlon. reflexivity.
Qed.

(** C10: a click that passed the guards (not frozen, on the canvas, on the
    sphere, not closer than 0.08 to [northPolePos]) empties [projectGroup]
    before it looks at the mode: the three mode steps run on the emptied
    group, so what the click leaves drawn does not depend on what was
    drawn, and with no checkbox checked it leaves nothing drawn. *)
Theorem accepted_click_clears_first (ev : ClickEvent num) (s : State num)
  (p : Vector3 num) (rest : list (Vector3 num)) :
  isFrozen s = false -> onCanvas ev = true -> intersects ev = p :: rest ->
  (distanceTo p northPolePos <? dec 8 2) = false ->
  onClick ev s =
    longitudeStep projectPoint p
      (latitudeStep projectPoint p
         (pointStep projectPoint p (setProjectGroup [] (setWarning false s)))) /\
  (forall drawn, onClick ev (setProjectGroup drawn s) = onClick ev s) /\
  (togglePoint s = false -> toggleLongitude s = false -> toggleLatitude s = false ->
   onClick ev s = setProjectGroup [] (setWarning false s)).
Proof.
  intros Hf Hc Hi Hd. unfold onClick. split; [|split].
  - apply (accepted_click _ ev s Hf Hc Hi Hd).
  - intros drawn. rewrite !(accepted_click _ ev) with (p := p) (rest := rest);
      try assumption. reflexivity.
  - intros Hp Hlon Hlat. rewrite (accepted_click _ ev s Hf Hc Hi Hd).
    rewrite pointStep_off, latitudeStep_off, longitudeStep_off by assumption.
    reflexivity.
Qed.

End StereoClaims.

(** ** The Hopf fiber generator and the click handler of the Hopf tool *)

Section HopfClick.
Context {num : Type} `{Number num}.
Local Open Scope js_scope.
Import Hopf.

Lemma fiberLoop_times (fuel : nat) (theta phi segments t : num) (points : list (Vector3 num)) :
  fiberLoop fuel theta phi segments t points =
  option_map (fun ts => points ++ map (fiberPoint theta phi) ts) (fiberTimes fuel segments t).
Proof.
  revert t points. induction fuel as [|fuel IH]; intros t points; simpl; [reflexivity|].
  destruct (t <=? Math_PI * #2).
  - rewrite IH. destruct (fiberTimes fuel segments _) as [ts|]; simpl; [|reflexivity].
    rewrite <- app_assoc. reflexivity.
  - simpl. rewrite app_nil_r. reflexivity.
Qed.

Lemma getHopfFiberPoints_times (fuel : nat) (n : Vector3 num) (segments : num) :
  getHopfFiberPoints fuel n segments =
  option_map (map (fiberPoint (Math_acos (vz n)) (Math_atan2 (vy n) (vx n))))
    (fiberTimes fuel segments #0).
Proof.
  unfold getHopfFiberPoints. rewrite fiberLoop_times.
  destruct (fiberTimes fuel segments #0); reflexivity.
Qed.

(** Fuel is only a bound: more of it changes nothing once the loop ended. *)
Lemma fiberTimes_more_fuel (fuel extra : nat) (segments t : num) (ts : list num) :
  fiberTimes fuel segments t = Some ts ->
  fiberTimes (fuel + extra) segments t = Some ts.
Proof.
  revert t ts. induction fuel as [|fuel IH]; intros t ts; simpl; [discriminate|].
  destruct (t <=? Math_PI * #2); [|trivial].
  destruct (fiberTimes fuel segments _) as [ts'|] eqn:E; simpl; [|discriminate].
  intros [= <-]. rewrite (IH _ _ E). reflexivity.
Qed.

Lemma fiberTimes_fuel_le (fuel fuel' : nat) (segments t : num) (ts : list num) :
  fiberTimes fuel segments t = Some ts -> (fuel <= fuel')%nat ->
  fiberTimes fuel' segments t = Some ts.
Proof.
  intros Hrun Hle. replace fuel' with (fuel + (fuel' - fuel))%nat by lia.
  apply fiberTimes_more_fuel. assumption.
Qed.

(** Every returned point is the body of the loop at some [t]. *)
Lemma getHopfFiberPoints_formula (fuel : nat) (n : Vector3 num) (segments : num)
  (points : list (Vector3 num)) :
  getHopfFiberPoints fuel n segments = Some points ->
  Forall (fun p => exists t,
            p = fiberPoint (Math_acos (vz n)) (Math_atan2 (vy n) (vx n)) t) points.
Proof.
  rewrite getHopfFiberPoints_times.
  destruct (fiberTimes fuel segments #0) as [ts|]; simpl; [|discriminate].
  intros [= <-]. apply Forall_forall. intros p Hin.
  apply in_map_iff in Hin. destruct Hin as [t [<- _]]. exists t. reflexivity.
Qed.

Lemma fiberLines_length (ts : list num) (k : nat) (l : list (Vector3 num)) :
  length (fiberLines ts k l) = length l.
Proof. revert k. induction l as [|p l IH]; intros k; simpl; [|rewrite IH]; reflexivity. Qed.

Lemma fiberLines_nth (ts : list num) (k i : nat) (l : list (Vector3 num)) :
  nth_error (fiberLines ts k l) i =
  option_map
    (fun p => Line (map (fiberPoint (Math_acos (vz p)) (Math_atan2 (vy p) (vx p))) ts)
                (colorAt (k + i)) #1)
    (nth_error l i).
Proof.
  revert k i. induction l as [|p l IH]; intros k i; destruct i as [|i]; simpl; try reflexivity.
  - rewrite Nat.add_0_r. reflexivity.
  - rewrite IH. replace (S k + i)%nat with (k + S i)%nat by lia. reflexivity.
Qed.

Section Fuelled.
Variables (fuel : nat) (ts : list num).
Hypothesis Hts : fiberTimes fuel defaultSegments #0 = Some ts.

Lemma createHopfFiber_runs (n : Vector3 num) (color : Z) (g : Group) (s : State num) :
  createHopfFiber fuel n color g s =
  Some (add g (Line (map (fiberPoint (Math_acos (vz n)) (Math_atan2 (vy n) (vx n))) ts)
                 color #1) s).
Proof.
  unfold createHopfFiber. rewrite getHopfFiberPoints_times, Hts. reflexivity.
Qed.

Lemma withFibers_nil (s : State num) : withFibers ts [] s = s.
Proof.
  destruct s. unfold withFibers. simpl. rewrite Nat.add_0_r, app_nil_r. reflexivity.
Qed.

Lemma withFibers_cons (p : Vector3 num) (l : list (Vector3 num)) (s : State num) :
  withFibers ts (p :: l) s =
  withFibers ts l
    (setFiberIndex (S (fiberIndex s))
       (add torusGroup
          (Line (map (fiberPoint (Math_acos (vz p)) (Math_atan2 (vy p) (vx p))) ts)
             (currentColor s) #1) s)).
Proof.
  change (currentColor s) with (colorAt (fiberIndex s)).
  destruct s as [sel lon lat hold idx mk fb tr sl pt lt tt].
  unfold withFibers. cbn -[colorAt].
  rewrite <- app_assoc, Nat.add_succ_r. reflexivity.
Qed.

Lemma longitude_loop_hopf (phi : num) (l : list nat)
  (pathPoints : list (Vector3 num)) (s : State num) :
  foldM (longitudeBody fuel phi) l (pathPoints, s) =
  Some (pathPoints ++ map (longitudeSample phi) l,
        withFibers ts (map (longitudeSample phi) (filter (fun i => i <=? 100)%nat l)) s).
Proof.
  revert pathPoints s. induction l as [|i l IH]; intros pts s; simpl.
  - rewrite app_nil_r, withFibers_nil. reflexivity.
  - destruct (i <=? 100)%nat; simpl.
    + rewrite createHopfFiber_runs. simpl. rewrite IH, withFibers_cons, <- app_assoc.
      destruct s; reflexivity.
    + rewrite IH, <- app_assoc. reflexivity.
Qed.

Lemma latitude_loop_hopf (r : num) (point : Vector3 num) (l : list nat)
  (pathPoints : list (Vector3 num)) (s : State num) :
  foldM (latitudeBody fuel r point) l (pathPoints, s) =
  Some (pathPoints ++ map (latitudeSample r point) l,
        withFibers ts (map (latitudeSample r point) l) s).
Proof.
  revert pathPoints s. induction l as [|i l IH]; intros pts s; simpl.
  - rewrite app_nil_r, withFibers_nil. reflexivity.
  - rewrite createHopfFiber_runs. simpl. rewrite IH, withFibers_cons, <- app_assoc.
    destruct s; reflexivity.
Qed.

Lemma longitudeStep_runs (point : Vector3 num) (s : State num) :
  longitudeMode s = true ->
  let phi := Math_atan2 (vy point) (vx point) in
  longitudeStep fuel point s =
  Some (drawSelectionCircle (map (longitudeSample phi) (seq 0 201))
          (withFibers ts (map (longitudeSample phi) (seq 0 101)) (clear torusGroup s))).
Proof.
  intros E phi. unfold longitudeStep, for_i_le. rewrite E.
  fold phi. rewrite longitude_loop_hopf. reflexivity.
Qed.

Lemma latitudeStep_runs (point : Vector3 num) (s : State num) :
  latitudeMode s = true ->
  let r := Math_sqrt (#1 - vz point * vz point) in
  latitudeStep fuel point s =
  Some (drawSelectionCircle (map (latitudeSample r point) (seq 0 201))
          (withFibers ts (map (latitudeSample r point) (seq 0 201)) (clear torusGroup s))).
Proof.
  intros E r. unfold latitudeStep, for_i_le. rewrite E.
  fold r. rewrite latitude_loop_hopf. reflexivity.
Qed.

Lemma selectionStep_off (point : Vector3 num) (s : State num) :
  selectionMode s = false -> selectionStep fuel point s = Some s.
Proof. intros E. unfold selectionStep. rewrite E. reflexivity. Qed.

Lemma longitudeStep_off_hopf (point : Vector3 num) (s : State num) :
  longitudeMode s = false -> longitudeStep fuel point s = Some s.
Proof. intros E. unfold longitudeStep. rewrite E. reflexivity. Qed.

Lemma latitudeStep_off_hopf (point : Vector3 num) (s : State num) :
  latitudeMode s = false -> latitudeStep fuel point s = Some s.
Proof. intros E. unfold latitudeStep. rewrite E. reflexivity. Qed.

Lemma accepted_click_hopf (ev : ClickEvent num) (s : State num) (hit : Vector3 num)
  (rest : list (Vector3 num)) :
  holdScene s = false -> onCanvas ev = true -> intersects ev = hit :: rest ->
  onClick fuel ev s =
  (s1 <- selectionStep fuel (normalize hit) s ;;
   s2 <- longitudeStep fuel (normalize hit) s1 ;;
   latitudeStep fuel (normalize hit) s2).
Proof. intros Hh Hc Hi. unfold onClick. rewrite Hh, Hc, Hi. reflexivity. Qed.

(** A click in longitude mode alone. *)
Lemma longitude_click (ev : ClickEvent num) (s : State num) (hit : Vector3 num)
  (rest : list (Vector3 num)) :
  holdScene s = false -> onCanvas ev = true -> intersects ev = hit :: rest ->
  selectionMode s = false -> longitudeMode s = true -> latitudeMode s = false ->
  let phi := Math_atan2 (vy (normalize hit)) (vx (normalize hit)) in
  onClick fuel ev s =
  Some (drawSelectionCircle (map (longitudeSample phi) (seq 0 201))
          (withFibers ts (map (longitudeSample phi) (seq 0 101)) (clear torusGroup s))).
Proof.
  intros Hh Hc Hi Hsel Hlon Hlat phi.
  rewrite (accepted_click_hopf ev s Hh Hc Hi).
  rewrite selectionStep_off by exact Hsel. simpl.
  rewrite longitudeStep_runs by exact Hlon. simpl.
  rewrite latitudeStep_off_hopf; [reflexivity|].
  destruct s; exact Hlat.
Qed.

(** A click in latitude mode alone. *)
Lemma latitude_click (ev : ClickEvent num) (s : State num) (hit : Vector3 num)
  (rest : list (Vector3 num)) :
  holdScene s = false -> onCanvas ev = true -> intersects ev = hit :: rest ->
  selectionMode s = false -> longitudeMode s = false -> latitudeMode s = true ->
  let r := Math_sqrt (#1 - vz (normalize hit) * vz (normalize hit)) in
  onClick fuel ev s =
  Some (drawSelectionCircle (map (latitudeSample r (normalize hit)) (seq 0 201))
          (withFibers ts (map (latitudeSample r (normalize hit)) (seq 0 201))
             (clear torusGroup s))).
Proof.
  intros Hh Hc Hi Hsel Hlon Hlat r.
  rewrite (accepted_click_hopf ev s Hh Hc Hi).
  rewrite selectionStep_off by exact Hsel. simpl.
  rewrite longitudeStep_off_hopf by exact Hlon. simpl.
  rewrite latitudeStep_runs by exact Hlat. reflexivity.
Qed.

End Fuelled.
End HopfClick.

(** The fields of the state after a longitude or latitude click. *)
Section AfterFibers.
Context {num : Type} `{Number num}.
Local Open Scope js_scope.
Import Hopf.

Variables (ts : list num) (path l : list (Vector3 num)) (s : State num).

Lemma after_fibers_torus :
  torus (drawSelectionCircle path (withFibers ts l (clear torusGroup s))) =
  fiberLines ts (fiberIndex s) l.
Proof. destruct s; reflexivity. Qed.

Lemma after_fibers_fiberIndex :
  fiberIndex (drawSelectionCircle path (withFibers ts l (clear torusGroup s))) =
  (fiberIndex s + length l)%nat.
Proof. destruct s; reflexivity. Qed.

Lemma after_fibers_sphereLines :
  sphereLines (drawSelectionCircle path (withFibers ts l (clear torusGroup s))) =
  [Line path 0x000000 (dec 1005 3)].
Proof. destruct s; reflexivity. Qed.

Lemma after_fibers_fibers :
  fibers (drawSelectionCircle path (withFibers ts l (clear torusGroup s))) = fibers s.
Proof. destruct s; reflexivity. Qed.

Lemma after_fibers_markers :
  markers (drawSelectionCircle path (withFibers ts l (clear torusGroup s))) = markers s.
Proof. destruct s; reflexivity. Qed.

Lemma after_fibers_controls :
  hopfControls (drawSelectionCircle path (withFibers ts l (clear torusGroup s))) =
  hopfControls s.
Proof. destruct s; reflexivity. Qed.

End AfterFibers.

(** ** The Hopf tool on doubles *)

Section Doubles.
Context (m : Float.Libm).
#[local] Existing Instance Float.number.
Local Open Scope js_scope.
Import Hopf.

(** With the default 1000 segments the loop of [getHopfFiberPoints] makes
    1001 rounds on doubles: the sum of 1000 rounded steps stays below the
    double of 2 pi. *)
Lemma double_times_default :
  option_map (@length _) (fiberTimes 1002 defaultSegments #0) = Some 1001%nat.
Proof. vm_compute. reflexivity. Qed.

(** With 12 segments it makes 12 rounds: the twelfth sum is above. *)
Lemma double_times_twelve :
  option_map (@length _) (fiberTimes 13 #12 #0) = Some 12%nat.
Proof. vm_compute. reflexivity. Qed.

(** The number of rounds for some other numbers of segments: one short of
    [segments + 1] for 12, 16, 21, 25 and 500, exact for 4, 100, 128 and
    200. *)
Lemma double_times_table :
  map (fun segments => option_map (@length _)
         (fiberTimes (Z.to_nat segments + 2) #segments #0))
    [4; 12; 16; 21; 25; 100; 128; 200; 500]%Z
  = map Some [5; 12; 16; 21; 25; 101; 129; 201; 500]%nat.
Proof. vm_compute. reflexivity. Qed.

Lemma double_default_terminates (extra : nat) :
  exists ts, fiberTimes (1002 + extra) defaultSegments #0 = Some ts /\ length ts = 1001%nat.
Proof.
  pose proof double_times_default as E.
  destruct (fiberTimes 1002 defaultSegments #0) as [ts|] eqn:Hts; [|discriminate].
  exists ts. split; [apply fiberTimes_more_fuel; exact Hts | injection E as E; exact E].
Qed.

Lemma getHopfFiberPoints_default_double (extra : nat) (n : Vector3 PrimFloat.float) :
  exists points,
    getHopfFiberPoints (1002 + extra) n defaultSegments = Some points /\
    length points = 1001%nat.
Proof.
  destruct (double_default_terminates extra) as [ts [Hts Hlen]].
  rewrite getHopfFiberPoints_times, Hts. simpl. eexists. split; [reflexivity|].
  rewrite length_map. exact Hlen.
Qed.

(** At 12 segments on doubles, whatever the vector and the fuel above 13,
    [getHopfFiberPoints] returns 12 points, not 13; the point of t = 2 pi
    is missing. *)
Lemma getHopfFiberPoints_twelve_segments (extra : nat) (n : Vector3 PrimFloat.float) :
  exists points,
    getHopfFiberPoints (13 + extra) n #12 = Some points /\
    length points = 12%nat.
Proof.
  pose proof double_times_twelve as E.
  destruct (fiberTimes 13 #12 #0) as [ts|] eqn:Hts; [|discriminate].
  rewrite getHopfFiberPoints_times, (fiberTimes_more_fuel _ extra _ _ Hts).
  simpl. eexists. split; [reflexivity|].
  rewrite length_map. injection E as E. exact E.
Qed.

Lemma nth_error_map_seq {A : Type} (f : nat -> A) (len i : nat) :
  (i < len)%nat -> nth_error (map f (seq 0 len)) i = Some (f i).
Proof.
  intros Hi. rewrite nth_error_map, nth_error_seq.
  destruct (Nat.ltb_spec i len); [reflexivity | lia].
Qed.

(** With the default 1000 segments the loop visits the 1001 values that
    0 takes when the step is added to it 0, 1, ..., 1000 times. *)
Lemma double_default_times :
  fiberTimes 1002 defaultSegments #0 = Some (map (fiberTime defaultSegments) (seq 0 1001)).
Proof. vm_compute. reflexivity. Qed.

Lemma double_default_last :
  (fiberTime defaultSegments 1000 <=? Math_PI * #2) = true /\
  (fiberTime defaultSegments 1001 <=? Math_PI * #2) = false.
Proof. split; vm_compute; reflexivity. Qed.

(** C2, for the segment count the tool uses: on doubles, called as
    [createHopfFiber] calls it, with the default 1000 segments,
    [getHopfFiberPoints] returns, whatever the vector and [Math], exactly
    1001 points; the point number [k] is the body of the loop at the value
    of [t] after [k] additions of the step [2 pi / 1000] to 0, for [k]
    from 0 to 1000; the last of these values is within [2 pi] and the next
    one is beyond. *)
Theorem getHopfFiberPoints_default_count (extra : nat) (n : Vector3 PrimFloat.float) :
  exists points,
    getHopfFiberPoints (1002 + extra) n defaultSegments = Some points /\
    length points = 1001%nat /\
    (forall k, (k <= 1000)%nat ->
       nth_error points k =
       Some (fiberPoint (Math_acos (vz n)) (Math_atan2 (vy n) (vx n))
               (fiberTime defaultSegments k))) /\
    (fiberTime defaultSegments 1000 <=? Math_PI * #2) = true /\
    (fiberTime defaultSegments 1001 <=? Math_PI * #2) = false.
Proof.
  rewrite getHopfFiberPoints_times.
  rewrite (fiberTimes_more_fuel _ extra _ _ double_default_times).
  eexists. split; [reflexivity|].
  split; [rewrite !length_map, length_seq; reflexivity|].
  split; [|exact double_default_last].
  intros k Hk. rewrite map_map.
  apply (nth_error_map_seq
           (fun j => fiberPoint (Math_acos (vz n)) (Math_atan2 (vy n) (vx n))
                       (fiberTime defaultSegments j))).
  lia.
Qed.

(** C7: on doubles, with fuel for the 1001 rounds of a fiber, an accepted
    click in longitude mode puts 101 fibers in the torus group, the fiber
    number [i] over the sampled point [i], for [i] from 0 to 100, and no
    fiber for the points 101 to 200; in latitude mode it puts 201 fibers,
    one over each sampled point. Fiber number [i] takes the colour at
    position [fiberIndex + i] of the cycle and [fiberIndex] ends 101,
    respectively 201, higher. *)
Theorem hopf_click_emits_fibers (extra : nat)
  (ev : ClickEvent PrimFloat.float) (s : State PrimFloat.float)
  (hit : Vector3 PrimFloat.float) (rest : list (Vector3 PrimFloat.float)) :
  holdScene s = false -> onCanvas ev = true -> intersects ev = hit :: rest ->
  selectionMode s = false ->
  let fuel := (1002 + extra)%nat in
  let point := normalize hit in
  (longitudeMode s = true -> latitudeMode s = false ->
   exists s',
     onClick fuel ev s = Some s' /\
     length (torus s') = 101%nat /\
     fiberIndex s' = (fiberIndex s + 101)%nat /\
     fibers s' = fibers s /\
     forall i, (i < 101)%nat ->
       exists points,
         getHopfFiberPoints fuel
           (longitudeSample (Math_atan2 (vy point) (vx point)) i) defaultSegments
         = Some points /\
         nth_error (torus s') i = Some (Line points (colorAt (fiberIndex s + i)) #1)) /\
  (latitudeMode s = true -> longitudeMode s = false ->
   exists s',
     onClick fuel ev s = Some s' /\
     length (torus s') = 201%nat /\
     fiberIndex s' = (fiberIndex s + 201)%nat /\
     fibers s' = fibers s /\
     forall i, (i < 201)%nat ->
       exists points,
         getHopfFiberPoints fuel
           (latitudeSample (Math_sqrt (#1 - vz point * vz point)) point i) defaultSegments
         = Some points /\
         nth_error (torus s') i = Some (Line points (colorAt (fiberIndex s + i)) #1)).
Proof.
  intros Hh Hc Hi Hsel fuel point.
  destruct (double_default_terminates extra) as [ts [Hts _]]. fold fuel in Hts.
  split.
  - intros Hlon Hlat. eexists. split.
    { apply (longitude_click fuel Hts ev s Hh Hc Hi Hsel Hlon Hlat). }
    rewrite after_fibers_torus, after_fibers_fiberIndex, fiberLines_length.
    rewrite length_map, length_seq.
    split; [reflexivity|]. split; [reflexivity|].
    split; [apply after_fibers_fibers|].
    intros i Hlt. eexists. split.
    + rewrite getHopfFiberPoints_times, Hts. reflexivity.
    + rewrite fiberLines_nth, nth_error_map_seq by exact Hlt. reflexivity.
  - intros Hlat Hlon. eexists. split.
    { apply (latitude_click fuel Hts ev s Hh Hc Hi Hsel Hlon Hlat). }
    rewrite after_fibers_torus, after_fibers_fiberIndex, fiberLines_length.
    rewrite length_map, length_seq.
    split; [reflexivity|]. split; [reflexivity|].
    split; [apply after_fibers_fibers|].
    intros i Hlt. eexists. split.
    + rewrite getHopfFiberPoints_times, Hts. reflexivity.
    + rewrite fiberLines_nth, nth_error_map_seq by exact Hlt. reflexivity.
Qed.

End Doubles.

(** ** Reachable states *)

Section Reachable.
Context {num : Type} `{Number num}.
Local Open Scope js_scope.

Lemma createHopfFiber_controls (fuel : nat) (n : Vector3 num) (color : Z)
  (g : Hopf.Group) (s s' : Hopf.State num) :
  Hopf.createHopfFiber fuel n color g s = Some s' -> hopfControls s' = hopfControls s.
Proof.
  unfold Hopf.createHopfFiber.
  destruct (Hopf.getHopfFiberPoints fuel n Hopf.defaultSegments) as [points|]; simpl;
    [|discriminate].
  intros [= <-]. destruct g, s; reflexivity.
Qed.

Lemma hopf_longitudeBody_controls (fuel : nat) (phi : num)
  (acc : list (Vector3 num) * Hopf.State num) (i : nat)
  (acc' : list (Vector3 num) * Hopf.State num) :
  Hopf.longitudeBody fuel phi acc i = Some acc' ->
  hopfControls (snd acc') = hopfControls (snd acc).
Proof.
  destruct acc as [pts s]. unfold Hopf.longitudeBody.
  destruct (i <=? 100)%nat.
  - destruct (Hopf.createHopfFiber fuel _ _ _ s) as [s1|] eqn:E; simpl; [|discriminate].
    intros [= <-]. simpl. rewrite <- (createHopfFiber_controls _ _ _ _ _ E).
    destruct s1; reflexivity.
  - intros [= <-]. reflexivity.
Qed.

Lemma hopf_latitudeBody_controls (fuel : nat) (r : num) (point : Vector3 num)
  (acc : list (Vector3 num) * Hopf.State num) (i : nat)
  (acc' : list (Vector3 num) * Hopf.State num) :
  Hopf.latitudeBody fuel r point acc i = Some acc' ->
  hopfControls (snd acc') = hopfControls (snd acc).
Proof.
  destruct acc as [pts s]. unfold Hopf.latitudeBody.
  destruct (Hopf.createHopfFiber fuel _ _ _ s) as [s1|] eqn:E; simpl; [|discriminate].
  intros [= <-]. simpl. rewrite <- (createHopfFiber_controls _ _ _ _ _ E).
  destruct s1; reflexivity.
Qed.

Lemma hopf_loop_controls {A : Type}
  (body : list (Vector3 num) * Hopf.State num -> A -> option (list (Vector3 num) * Hopf.State num)) :
  (forall acc a acc', body acc a = Some acc' ->
     hopfControls (snd acc') = hopfControls (snd acc)) ->
  forall l acc acc', foldM body l acc = Some acc' ->
    hopfControls (snd acc') = hopfControls (snd acc).
Proof.
  intros Hbody.
  apply (foldM_preserves (fun acc acc' => hopfControls (snd acc') = hopfControls (snd acc))).
  - reflexivity.
  - intros b1 b2 b3 E12 E23. rewrite E23. exact E12.
  - exact Hbody.
Qed.

Lemma hopf_selectionStep_controls (fuel : nat) (point : Vector3 num) (s s' : Hopf.State num) :
  Hopf.selectionStep fuel point s = Some s' -> hopfControls s' = hopfControls s.
Proof.
  unfold Hopf.selectionStep. destruct (Hopf.selectionMode s) eqn:Hsel.
  - intros E. apply createHopfFiber_controls in E. rewrite E. destruct s; reflexivity.
  - intros [= <-]. reflexivity.
Qed.

Lemma hopf_longitudeStep_controls (fuel : nat) (point : Vector3 num) (s s' : Hopf.State num) :
  Hopf.longitudeStep fuel point s = Some s' -> hopfControls s' = hopfControls s.
Proof.
  unfold Hopf.longitudeStep, for_i_le. destruct (Hopf.longitudeMode s).
  - destruct (foldM _ _ _) as [[pts s1]|] eqn:E; simpl; [|discriminate].
    intros [= <-].
    apply (hopf_loop_controls _ (hopf_longitudeBody_controls fuel _)) in E.
    simpl in E. transitivity (hopfControls s1); [destruct s1; reflexivity|].
    rewrite E. destruct s; reflexivity.
  - intros [= <-]. reflexivity.
Qed.

Lemma hopf_latitudeStep_controls (fuel : nat) (point : Vector3 num) (s s' : Hopf.State num) :
  Hopf.latitudeStep fuel point s = Some s' -> hopfControls s' = hopfControls s.
Proof.
  unfold Hopf.latitudeStep, for_i_le. destruct (Hopf.latitudeMode s).
  - destruct (foldM _ _ _) as [[pts s1]|] eqn:E; simpl; [|discriminate].
    intros [= <-].
    apply (hopf_loop_controls _ (hopf_latitudeBody_controls fuel _ _)) in E.
    simpl in E. transitivity (hopfControls s1); [destruct s1; reflexivity|].
    rewrite E. destruct s; reflexivity.
  - intros [= <-]. reflexivity.
Qed.

(** A click of the Hopf tool changes no flag and no checkbox. *)
Lemma hopf_click_controls (fuel : nat) (ev : Hopf.ClickEvent num) (s s' : Hopf.State num) :
  Hopf.onClick fuel ev s = Some s' -> hopfControls s' = hopfControls s.
Proof.
  unfold Hopf.onClick.
  destruct (Hopf.holdScene s); [intros [= <-]; reflexivity|].
  destruct (Hopf.onCanvas ev); simpl; [|intros [= <-]; reflexivity].
  destruct (Hopf.intersects ev) as [|hit rest]; [intros [= <-]; reflexivity|].
  destruct (Hopf.selectionStep fuel _ s) as [s1|] eqn:E1; simpl; [|discriminate].
  destruct (Hopf.longitudeStep fuel _ s1) as [s2|] eqn:E2; simpl; [|discriminate].
  intros E3.
  apply hopf_selectionStep_controls in E1.
  apply hopf_longitudeStep_controls in E2.
  apply hopf_latitudeStep_controls in E3.
  congruence.
Qed.

(** In every state the Hopf tool reaches, at most one checkbox is checked
    and the mode flags are the checkboxes. *)
Lemma hopf_reachable_exclusive (fuel : nat) (s : Hopf.State num) :
  hopfReachable fuel s ->
  (hopfChecked s <= 1)%nat /\
  Hopf.selectionMode s = Hopf.pointToggle s /\
  Hopf.longitudeMode s = Hopf.longitudeToggle s /\
  Hopf.latitudeMode s = Hopf.latitudeToggle s.
Proof.
  induction 1 as [|e s s' _ [IH1 [IH2 [IH3 IH4]]] Hstep].
  - vm_compute. repeat split; lia.
  - destruct e as [t | | | ev]; simpl in Hstep.
    + injection Hstep as <-. split; [apply hopf_userToggle_checked; exact IH1|].
      apply hopf_userToggle_modes.
    + injection Hstep as <-. vm_compute. repeat split; lia.
    + injection Hstep as <-. destruct s; simpl in *. auto.
    + apply hopf_click_controls in Hstep.
      unfold hopfControls in Hstep. unfold hopfChecked.
      injection Hstep as -> -> -> _ -> -> ->. auto.
Qed.

Lemma stereo_setProjectGroup_controls (l : list (Object3D num)) (s : Stereo.State num) :
  stereoControls (Stereo.setProjectGroup l s) = stereoControls s.
Proof. reflexivity. Qed.

Lemma stereo_pointStep_controls (project : Vector3 num -> Vector3 num)
  (p : Vector3 num) (s : Stereo.State num) :
  stereoControls (Stereo.pointStep project p s) = stereoControls s.
Proof. unfold Stereo.pointStep. destruct (Stereo.togglePoint s); reflexivity. Qed.

Lemma stereo_latitudeStep_controls (project : Vector3 num -> Vector3 num)
  (p : Vector3 num) (s : Stereo.State num) :
  stereoControls (Stereo.latitudeStep project p s) = stereoControls s.
Proof.
  unfold Stereo.latitudeStep. destruct (Stereo.toggleLatitude s); [|reflexivity].
  destruct (fold_left _ _ _) as [pointsSphere pointsPlane]. reflexivity.
Qed.

Lemma stereo_longitudeStep_controls (project : Vector3 num -> Vector3 num)
  (p : Vector3 num) (s : Stereo.State num) :
  stereoControls (Stereo.longitudeStep project p s) = stereoControls s.
Proof.
  unfold Stereo.longitudeStep. destruct (Stereo.toggleLongitude s); [|reflexivity].
  destruct (fold_left _ _ _) as [pointsSphere pointsPlane].
  destruct (1 <? length pointsPlane)%nat; reflexivity.
Qed.

(** A click of the stereographic tool changes no flag and no checkbox. *)
Lemma stereo_click_controls (project : Vector3 num -> Vector3 num)
  (ev : Stereo.ClickEvent num) (s : Stereo.State num) :
  stereoControls (Stereo.onClickWith project ev s) = stereoControls s.
Proof.
  unfold Stereo.onClickWith.
  destruct (Stereo.isFrozen s) eqn:Hf; [reflexivity|].
  destruct (Stereo.onCanvas ev); cbn [negb]; [|reflexivity].
  destruct (Stereo.intersects ev) as [|p rest]; [reflexivity|].
  destruct (nltb _ _); [reflexivity|]. cbv zeta.
  rewrite stereo_longitudeStep_controls, stereo_latitudeStep_controls,
    stereo_pointStep_controls.
  reflexivity.
Qed.

(** In every state the stereographic tool reaches, at most one checkbox is
    checked. *)
Lemma stereo_reachable_exclusive (s : Stereo.State num) :
  stereoReachable s -> (stereoChecked s <= 1)%nat.
Proof.
  induction 1 as [|e s _ IH].
  - vm_compute. lia.
  - destruct e as [t | | | ev]; simpl.
    + apply stereo_userToggle_checked. exact IH.
    + rewrite stereo_reset_state. vm_compute. lia.
    + destruct s; exact IH.
    + pose proof (stereo_click_controls Stereo.projectPoint ev s) as E.
      unfold stereoControls in E. unfold stereoChecked, Stereo.onClick.
      injection E as _ -> -> ->. exact IH.
Qed.

End Reachable.

(** ** The tools in exact arithmetic *)

Section Reals.
#[local] Existing Instance Ideal.number.
Local Open Scope R_scope.

Lemma ideal_leb_true (a b : R) : a <= b -> Ideal.leb a b = true.
Proof. intros Hle. unfold Ideal.leb. destruct (Rle_dec a b); [reflexivity | contradiction]. Qed.

Lemma ideal_leb_false (a b : R) : b < a -> Ideal.leb a b = false.
Proof. intros Hlt. unfold Ideal.leb. destruct (Rle_dec a b); [lra | reflexivity]. Qed.

Lemma ideal_ltb_true (a b : R) : a < b -> Ideal.ltb a b = true.
Proof. intros Hlt. unfold Ideal.ltb. destruct (Rlt_dec a b); [reflexivity | contradiction]. Qed.

Lemma ideal_ltb_false (a b : R) : b <= a -> Ideal.ltb a b = false.
Proof. intros Hle. unfold Ideal.ltb. destruct (Rlt_dec a b); [lra | reflexivity]. Qed.

(** [k] steps of [2 pi / segs] stay within [2 pi] exactly when [k <= segs]. *)
Lemma steps_within (segs k : nat) :
  (0 < segs)%nat -> (k <= segs)%nat -> INR k * (2 * PI / INR segs) <= PI * 2.
Proof.
  intros Hpos Hle.
  assert (0 < INR segs) as Hx by (apply lt_0_INR; exact Hpos).
  assert (INR k <= INR segs) as Hk by (apply le_INR; exact Hle).
  assert (0 <= 2 * PI / INR segs) as Hstep.
  { apply Rlt_le, Rdiv_lt_0_compat; [pose proof PI_RGT_0; lra | exact Hx]. }
  replace (PI * 2) with (INR segs * (2 * PI / INR segs)) by (field; lra).
  apply Rmult_le_compat_r; assumption.
Qed.

Lemma steps_beyond (segs k : nat) :
  (0 < segs)%nat -> (segs < k)%nat -> PI * 2 < INR k * (2 * PI / INR segs).
Proof.
  intros Hpos Hlt.
  assert (0 < INR segs) as Hx by (apply lt_0_INR; exact Hpos).
  assert (INR segs < INR k) as Hk by (apply lt_INR; exact Hlt).
  assert (0 < 2 * PI / INR segs) as Hstep.
  { apply Rdiv_lt_0_compat; [pose proof PI_RGT_0; lra | exact Hx]. }
  replace (PI * 2) with (INR segs * (2 * PI / INR segs)) by (field; lra).
  apply Rmult_lt_compat_r; assumption.
Qed.

(** In exact arithmetic the loop of [getHopfFiberPoints] visits the
    multiples of [2 pi / segs] from 0 to [segs]. *)
Lemma ideal_times_from (segs extra n k : nat) (t : R) :
  (0 < segs)%nat -> (k + n = S segs)%nat -> t = INR k * (2 * PI / INR segs) ->
  fiberTimes (S n + extra) (INR segs) t =
  Some (map (fun j => INR j * (2 * PI / INR segs)) (seq k n)).
Proof.
  intros Hpos. revert k t. induction n as [|n IH]; intros k t Hk Ht.
  - simpl. rewrite ideal_leb_false; [reflexivity|].
    rewrite Ht. apply steps_beyond; [exact Hpos | lia].
  - change (fiberTimes (S (S n) + extra) (INR segs) t)
      with (if Ideal.leb t (PI * 2)
            then option_map (cons t)
                   (fiberTimes (S n + extra) (INR segs) (t + 2 * PI / INR segs))
            else Some []).
    rewrite ideal_leb_true by (rewrite Ht; apply steps_within; [exact Hpos | lia]).
    rewrite (IH (S k)); [| lia | rewrite Ht, S_INR; ring].
    simpl. rewrite Ht. reflexivity.
Qed.

Lemma ideal_times (segs extra : nat) :
  (0 < segs)%nat ->
  fiberTimes (segs + 2 + extra) (of_Z (Z.of_nat segs)) (of_Z 0) =
  Some (map (fun j => INR j * (2 * PI / INR segs)) (seq 0 (S segs))).
Proof.
  intros Hpos. replace (segs + 2 + extra)%nat with (S (S segs) + extra)%nat by lia.
  change (of_Z (Z.of_nat segs)) with (IZR (Z.of_nat segs)).
  rewrite <- INR_IZR_INZ.
  apply ideal_times_from; [exact Hpos | lia | simpl; ring].
Qed.

(** In exact arithmetic: [segs + 1] points, for every positive number of
    segments. *)
Lemma getHopfFiberPoints_ideal (segs extra : nat) (n : Vector3 R) :
  (0 < segs)%nat ->
  Hopf.getHopfFiberPoints (segs + 2 + extra) n (of_Z (Z.of_nat segs)) =
  Some (map (Hopf.fiberPoint (Math_acos (vz n)) (Math_atan2 (vy n) (vx n)))
          (map (fun j => INR j * (2 * PI / INR segs)) (seq 0 (S segs)))).
Proof.
  intros Hpos. rewrite getHopfFiberPoints_times, ideal_times by exact Hpos. reflexivity.
Qed.

Lemma ideal_default_times (extra : nat) :
  fiberTimes (1002 + extra) Hopf.defaultSegments (of_Z 0) =
  Some (map (fun j => INR j * (2 * PI / INR 1000)) (seq 0 1001)).
Proof. apply (@ideal_times 1000 extra). lia. Qed.

(** *** The points of a fiber *)

Lemma quotient_bounded (a d : R) :
  -1 <= a <= 1 -> 1 / 10000 <= d -> Rabs (a / d) <= 10000.
Proof.
  intros Ha Hd.
  assert (0 < d) as Hpos by lra.
  assert (0 < / d) as Hinv by (apply Rinv_0_lt_compat; exact Hpos).
  assert (/ d <= 10000) as Hle.
  { replace 10000 with (/ (1 / 10000)) by (field; lra).
    apply Rinv_le_contravar; lra. }
  unfold Rdiv. apply Rabs_le. split; nra.
Qed.

Lemma product_bounded (a b : R) : -1 <= a <= 1 -> -1 <= b <= 1 -> -1 <= a * b <= 1.
Proof. intros Ha Hb. split; nra. Qed.

(** The divisor of [fiberPoint] is at least 0.0001 and the coordinates are
    at most 10000 in absolute value. *)
Lemma fiberPoint_bounded (theta phi t : R) :
  let w4 := sin (theta / 2) * sin (t + phi) in
  let p := Hopf.fiberPoint theta phi t in
  1 / 10000 <= Rmax (1 - w4) (1 / 10000) /\
  Rabs (vx p) <= 10000 /\ Rabs (vy p) <= 10000 /\ Rabs (vz p) <= 10000.
Proof.
  intros w4 p.
  assert (1 / 10000 <= Rmax (1 - w4) (1 / 10000)) as Hd by apply Rmax_r.
  split; [exact Hd|].
  pose proof (COS_bound (theta / 2)). pose proof (SIN_bound (theta / 2)).
  pose proof (COS_bound t). pose proof (SIN_bound t). pose proof (COS_bound (t + phi)).
  repeat split; apply quotient_bounded; try exact Hd; apply product_bounded; assumption.
Qed.

(** In exact arithmetic, for a vector [n] with [n.z] between -1 and 1, as
    a unit vector has it, and every positive number of segments,
    [getHopfFiberPoints] returns, and each point it returns is
    [(x4/d, y4/d, z4/d)] for a [t] between 0 and 2 pi, with [x4], [y4],
    [z4], [w4] computed from [theta = acos(n.z)] and
    [phi = atan2(n.y, n.x)] and [d = max(1 - w4, 0.0001)]; the divisor is
    at least 0.0001 and no coordinate exceeds 10000 in absolute value. *)
Lemma hopf_fiber_points_ideal (n : Vector3 R) (segments extra : nat) :
  -1 <= vz n <= 1 ->
  (0 < segments)%nat ->
  let theta := Ratan.acos (vz n) in
  let phi := Ideal.atan2 (vy n) (vx n) in
  exists points,
    Hopf.getHopfFiberPoints (segments + 2 + extra) n (of_Z (Z.of_nat segments)) = Some points /\
    Forall
      (fun p => exists t,
         let x4 := cos (theta / 2) * cos t in
         let y4 := cos (theta / 2) * sin t in
         let z4 := sin (theta / 2) * cos (t + phi) in
         let w4 := sin (theta / 2) * sin (t + phi) in
         let d := Rmax (1 - w4) (1 / 10000) in
         0 <= t <= 2 * PI /\
         1 / 10000 <= d /\
         p = V3 (x4 / d) (y4 / d) (z4 / d) /\
         Rabs (vx p) <= 10000 /\ Rabs (vy p) <= 10000 /\ Rabs (vz p) <= 10000)
      points.
Proof.
  intros _ Hpos theta phi. eexists. split.
  { apply getHopfFiberPoints_ideal. exact Hpos. }
  apply Forall_forall. intros p Hin.
  apply in_map_iff in Hin. destruct Hin as [t [<- Hin]].
  apply in_map_iff in Hin. destruct Hin as [k [<- Hin]].
  apply in_seq in Hin.
  exists (INR k * (2 * PI / INR segments)).
  destruct (fiberPoint_bounded theta phi (INR k * (2 * PI / INR segments)))
    as [Hd [Hx [Hy Hz]]].
  split; [|split; [exact Hd | split; [reflexivity | auto]]].
  split.
  - apply Rmult_le_pos; [apply pos_INR|].
    apply Rlt_le, Rdiv_lt_0_compat; [pose proof PI_RGT_0; lra | apply lt_0_INR; exact Hpos].
  - pose proof (@steps_within segments k Hpos) as Hw. assert (k <= segments)%nat as Hk by lia. specialize (Hw Hk). lra.
Qed.

(** *** Longitude and latitude curves *)

Lemma closedPath_samples (f : nat -> Vector3 R) (last : nat) :
  f 0%nat = f (S last) -> closedPath (map f (seq 0 (S (S last)))).
Proof.
  intros E. exists (f 0%nat), (map f (seq 1 last)).
  rewrite (seq_S (S last) 0), <- cons_seq, map_app. simpl. rewrite <- E. reflexivity.
Qed.

Lemma hopf_longitude_closes (phi : R) :
  Hopf.longitudeSample phi 0 = Hopf.longitudeSample phi 200.
Proof.
  unfold Hopf.longitudeSample. simpl.
  replace (0 / 200 * PI * 2) with 0 by field.
  replace (200 / 200 * PI * 2) with (2 * PI) by field.
  rewrite sin_2PI, cos_2PI, sin_0, cos_0. reflexivity.
Qed.

Lemma hopf_latitude_closes (r : R) (point : Vector3 R) :
  Hopf.latitudeSample r point 0 = Hopf.latitudeSample r point 200.
Proof.
  unfold Hopf.latitudeSample. simpl.
  replace (0 / 200 * 2 * PI) with 0 by field.
  replace (200 / 200 * 2 * PI) with (2 * PI) by field.
  rewrite sin_2PI, cos_2PI, sin_0, cos_0. reflexivity.
Qed.

Lemma stereo_latitude_closes (r : R) (p : Vector3 R) :
  Stereo.latitudeSample r p 0 = Stereo.latitudeSample r p 128.
Proof.
  unfold Stereo.latitudeSample. simpl.
  replace (0 / 128 * PI * 2) with 0 by field.
  replace (128 / 128 * PI * 2) with (2 * PI) by field.
  rewrite sin_2PI, cos_2PI, sin_0, cos_0. reflexivity.
Qed.

Lemma stereo_longitude_closes (angle : R) :
  Stereo.longitudeSample angle 0 = Stereo.longitudeSample angle 128.
Proof.
  unfold Stereo.longitudeSample. simpl.
  replace (0 / 128 * PI * 2) with 0 by field.
  replace (128 / 128 * PI * 2) with (2 * PI) by field.
  rewrite sin_2PI, cos_2PI, sin_0, cos_0. reflexivity.
Qed.

(** C8: in exact arithmetic the sphere-side polyline that an accepted
    click draws in longitude or in latitude mode, in either tool, starts
    and ends on the same point: 201 points in the Hopf tool, 129 in the
    stereographic one, the first and the last sampled at the angles 0 and
    2 pi. (On doubles the last angle is the double of 2 pi, and the two
    points agree up to the rounding of [Math.sin] and [Math.cos] there.) *)
Theorem curves_are_closed (extra : nat)
  (evh : Hopf.ClickEvent R) (sh : Hopf.State R) (hith : Vector3 R) (resth : list (Vector3 R))
  (evs : Stereo.ClickEvent R) (ss : Stereo.State R) (hits : Vector3 R)
  (rests : list (Vector3 R)) :
  Hopf.holdScene sh = false -> Hopf.onCanvas evh = true ->
  Hopf.intersects evh = hith :: resth -> Hopf.selectionMode sh = false ->
  Stereo.isFrozen ss = false -> Stereo.onCanvas evs = true ->
  Stereo.intersects evs = hits :: rests ->
  nltb (distanceTo hits Stereo.northPolePos) (dec 8 2) = false ->
  Stereo.togglePoint ss = false ->
  (Hopf.longitudeMode sh = true -> Hopf.latitudeMode sh = false ->
   exists s' path,
     Hopf.onClick (1002 + extra) evh sh = Some s' /\
     Hopf.sphereLines s' = [Line path 0x000000 (dec 1005 3)] /\
     length path = 201%nat /\ closedPath path) /\
  (Hopf.latitudeMode sh = true -> Hopf.longitudeMode sh = false ->
   exists s' path,
     Hopf.onClick (1002 + extra) evh sh = Some s' /\
     Hopf.sphereLines s' = [Line path 0x000000 (dec 1005 3)] /\
     length path = 201%nat /\ closedPath path) /\
  (Stereo.toggleLatitude ss = true -> Stereo.toggleLongitude ss = false ->
   exists path plane,
     Stereo.projectGroup (Stereo.onClick evs ss) =
       [Line path Stereo.SPHERE_COLOR (of_Z 1); Line plane Stereo.PLANE_COLOR (of_Z 1)] /\
     length path = 129%nat /\ closedPath path) /\
  (Stereo.toggleLongitude ss = true -> Stereo.toggleLatitude ss = false ->
   exists path others,
     Stereo.projectGroup (Stereo.onClick evs ss) =
       Line path Stereo.SPHERE_COLOR (of_Z 1) :: others /\
     length path = 129%nat /\ closedPath path).
Proof.
  intros Hh Hch Hih Hsel Hf Hcs His Hd Hp.
  pose proof (ideal_default_times extra) as Hts.
  split; [|split; [|split]].
  - intros Hlon Hlat. eexists. eexists. split.
    { apply (longitude_click _ Hts evh sh Hh Hch Hih Hsel Hlon Hlat). }
    rewrite after_fibers_sphereLines. split; [reflexivity|].
    split; [rewrite length_map, length_seq; reflexivity|].
    apply closedPath_samples, hopf_longitude_closes.
  - intros Hlat Hlon. eexists. eexists. split.
    { apply (latitude_click _ Hts evh sh Hh Hch Hih Hsel Hlon Hlat). }
    rewrite after_fibers_sphereLines. split; [reflexivity|].
    split; [rewrite length_map, length_seq; reflexivity|].
    apply closedPath_samples, hopf_latitude_closes.
  - intros Hlat Hlon. eexists. eexists. split.
    { unfold Stereo.onClick. rewrite (accepted_click _ evs ss Hf Hcs His Hd).
      rewrite pointStep_off by exact Hp.
      rewrite latitudeStep_draws by exact Hlat.
      rewrite longitudeStep_off by exact Hlon. reflexivity. }
    split; [rewrite length_map, length_seq; reflexivity|].
    apply closedPath_samples, stereo_latitude_closes.
  - intros Hlon Hlat. eexists. eexists. split.
    { unfold Stereo.onClick. rewrite (accepted_click _ evs ss Hf Hcs His Hd).
      rewrite pointStep_off by exact Hp.
      rewrite latitudeStep_off by exact Hlat.
      rewrite longitudeStep_draws by exact Hlon. reflexivity. }
    split; [rewrite length_map, length_seq; reflexivity|].
    apply closedPath_samples, stereo_longitude_closes.
Qed.

End Reals.

(** ** The size of doubles

    A finite double is [m * 2^e] for a mantissa [m] of at most 53 binary
    digits; the number of digits of [m] plus [e] bounds its absolute
    value by a power of two. The lemmas below follow that sum through
    rounding and through the four operations, on the specification of
    binary64 arithmetic that the primitive operations satisfy. *)

Section Magnitude.
Import Floats.SpecFloat Binary64.
Local Open Scope Z_scope.

(** *** Binary digits *)

Lemma digits2_pos_size (p : positive) : digits2_pos p = Pos.size p.
Proof. induction p as [p IH|p IH|]; simpl; [rewrite IH | rewrite IH |]; reflexivity. Qed.

Lemma Zdigits2_log2 (m : Z) : 0 < m -> Zdigits2 m = Z.log2 m + 1.
Proof.
  destruct m as [|p|p]; try lia. intros _.
  destruct p as [q|q|]; simpl; rewrite ?digits2_pos_size; lia.
Qed.

Lemma Zdigits2_nonneg (m : Z) : 0 <= Zdigits2 m.
Proof. destruct m; simpl; lia. Qed.

Lemma Zdigits2_pos (p : positive) : 1 <= Z.pos (digits2_pos p).
Proof. lia. Qed.

Lemma Zdigits2_le_mono (a b : Z) : 0 <= a <= b -> Zdigits2 a <= Zdigits2 b.
Proof.
  intros [Ha Hab]. destruct (Z.eq_dec a 0) as [->|Hne]; [apply Zdigits2_nonneg|].
  rewrite !Zdigits2_log2 by lia. pose proof (Z.log2_le_mono a b Hab). lia.
Qed.

Lemma Zdigits2_succ (m : Z) : 0 <= m -> Zdigits2 (m + 1) <= Zdigits2 m + 1.
Proof.
  intros Hm. destruct (Z.eq_dec m 0) as [->|Hne]; [simpl; lia|].
  rewrite !Zdigits2_log2 by lia. pose proof (Z.log2_succ_le m). unfold Z.succ in *. lia.
Qed.

Lemma Zdigits2_mul (a b : Z) : 0 < a -> 0 < b -> Zdigits2 (a * b) <= Zdigits2 a + Zdigits2 b.
Proof.
  intros Ha Hb. rewrite !Zdigits2_log2 by nia.
  pose proof (Z.log2_mul_above a b). lia.
Qed.

Lemma Zdigits2_div2 (m : Z) : 0 <= m -> Zdigits2 (Z.div2 m) <= Z.max (Zdigits2 m - 1) 0.
Proof.
  intros Hm. destruct m as [|[p|p|]|p]; cbv [Z.div2 Pos.div2 Zdigits2]; cbn [digits2_pos]; lia.
Qed.

Lemma Zdigits2_abs (m : Z) : Zdigits2 m = Zdigits2 (Z.abs m).
Proof. destruct m; reflexivity. Qed.

Lemma Zdigits2_sum (m a b : Z) :
  0 < a -> 0 < b -> Z.abs m <= a + b -> Zdigits2 m <= Z.max (Zdigits2 a) (Zdigits2 b) + 1.
Proof.
  intros Ha Hb Hm. rewrite Zdigits2_abs.
  assert (Z.abs m <= 2 * Z.max a b) as Hle by lia.
  assert (0 <= Z.abs m) as H0 by lia.
  pose proof (Zdigits2_le_mono (conj H0 Hle)) as Hd.
  rewrite (Zdigits2_log2 (m := 2 * Z.max a b)) in Hd by lia.
  rewrite Z.log2_double in Hd by lia.
  destruct (Z.max_spec a b) as [[_ E]|[_ E]]; rewrite E in Hd;
    rewrite (Zdigits2_log2 Ha), (Zdigits2_log2 Hb);
    [pose proof (Z.log2_nonneg a) | pose proof (Z.log2_nonneg b)]; unfold Z.succ in *; lia.
Qed.

Lemma Zdigits2_shiftl (m s : Z) : 0 < m -> 0 <= s -> Zdigits2 (Z.shiftl m s) = Zdigits2 m + s.
Proof.
  intros Hm Hs.
  assert (0 < Z.shiftl m s) as Hpos.
  { rewrite Z.shiftl_mul_pow2 by exact Hs. pose proof (Z.pow_pos_nonneg 2 s). nia. }
  rewrite !Zdigits2_log2 by assumption. rewrite Z.log2_shiftl by assumption. lia.
Qed.

Lemma Zdigits2_quotient (a b q : Z) :
  0 < b -> 0 <= q -> q * b <= a -> Zdigits2 q <= Z.max (Zdigits2 a - Zdigits2 b + 1) 0.
Proof.
  intros Hb Hq Hle. destruct (Z.eq_dec q 0) as [->|Hne]; [simpl; lia|].
  assert (0 < a) as Ha by nia.
  rewrite !Zdigits2_log2 by lia.
  pose proof (Z.log2_mul_below q b). pose proof (Z.log2_le_mono (q * b) a Hle). lia.
Qed.

Lemma digits2_pos_iter (m d : positive) :
  Z.pos (digits2_pos (Pos.iter xO m d)) = Z.pos (digits2_pos m) + Z.pos d.
Proof.
  induction d as [|d IH] using Pos.peano_ind.
  - simpl. lia.
  - rewrite Pos.iter_succ. simpl. lia.
Qed.


(** *** Rounding *)

Lemma shr_record_of_loc_m (m : Z) (l : location) : shr_m (shr_record_of_loc m l) = m.
Proof. destruct l as [|[]]; reflexivity. Qed.

Lemma shr_1_m (r : shr_record) : 0 <= shr_m r -> shr_m (shr_1 r) = Z.div2 (shr_m r).
Proof.
  destruct r as [m r s]. cbn [shr_m]. intros Hm.
  destruct m as [|[p|p|]|p]; try reflexivity; lia.
Qed.

Lemma iter_shr_1 (p : positive) :
  forall (d : Z) (r : shr_record),
    0 <= shr_m r -> Zdigits2 (shr_m r) <= d ->
    0 <= shr_m (iter_pos shr_1 p r) /\
    Zdigits2 (shr_m (iter_pos shr_1 p r)) <= Z.max (d - Z.pos p) 0.
Proof.
  assert (forall d r, 0 <= shr_m r -> Zdigits2 (shr_m r) <= d ->
            0 <= shr_m (shr_1 r) /\ Zdigits2 (shr_m (shr_1 r)) <= Z.max (d - 1) 0) as Hone.
  { intros d r Hm Hd. rewrite shr_1_m by exact Hm.
    pose proof (Zdigits2_div2 Hm) as Hdiv. split; [|lia].
    destruct (shr_m r) as [|[q|q|]|q]; cbv [Z.div2 Pos.div2]; lia. }
  induction p as [p IH|p IH|]; intros d r Hm Hd; cbn [iter_pos].
  - destruct (Hone d r Hm Hd) as [H1 H2].
    destruct (IH _ _ H1 H2) as [H3 H4].
    destruct (IH _ _ H3 H4) as [H5 H6]. split; [exact H5 | lia].
  - destruct (IH _ _ Hm Hd) as [H3 H4].
    destruct (IH _ _ H3 H4) as [H5 H6]. split; [exact H5 | lia].
  - apply Hone; assumption.
Qed.

Lemma fexp_value (x : Z) : fexp FloatOps.prec FloatOps.emax x = Z.max (x - 53) (-1074).
Proof. reflexivity. Qed.

Lemma shr_fexp_bound (m e : Z) (l : location) :
  0 <= m ->
  0 <= shr_m (fst (shr_fexp FloatOps.prec FloatOps.emax m e l)) /\
  Zdigits2 (shr_m (fst (shr_fexp FloatOps.prec FloatOps.emax m e l)))
    + snd (shr_fexp FloatOps.prec FloatOps.emax m e l)
    <= Z.max (Zdigits2 m + e) (-1074) /\
  snd (shr_fexp FloatOps.prec FloatOps.emax m e l) <= Z.max e (Z.max (Zdigits2 m + e - 53) (-1074)).
Proof.
  intros Hm. unfold shr_fexp, shr. rewrite fexp_value.
  destruct (Z.max (Zdigits2 m + e - 53) (-1074) - e) as [|p|p] eqn:E; cbn [fst snd];
    rewrite ?shr_record_of_loc_m; try (repeat split; lia).
  assert (0 <= shr_m (shr_record_of_loc m l)) as H0 by (rewrite shr_record_of_loc_m; exact Hm).
  destruct (@iter_shr_1 p (Zdigits2 m) (shr_record_of_loc m l) H0) as [H1 H2].
  { rewrite shr_record_of_loc_m. lia. }
  repeat split; lia.
Qed.

Lemma round_nearest_even_bounds (m : Z) (l : location) :
  m <= round_nearest_even m l <= m + 1.
Proof. destruct l as [|[]]; cbn [round_nearest_even]; try lia. destruct (Z.even m); lia. Qed.

(** The result of rounding is zero, or finite and below [2^k], when the
    number rounded is below [2^(k-1)]. *)
Lemma round_below (s : bool) (m e : Z) (l : location) (k : Z) :
  0 <= m -> Zdigits2 m + e + 1 <= k -> e <= 971 -> -1073 <= k <= 1024 ->
  below k (binary_round_aux FloatOps.prec FloatOps.emax s m e l).
Proof.
  intros Hm Hk He Hr. unfold binary_round_aux.
  pose proof (shr_fexp_bound e l Hm) as [H1 [H2 H3]].
  destruct (shr_fexp FloatOps.prec FloatOps.emax m e l) as [r1 e1]. cbn [fst snd] in *.
  pose proof (round_nearest_even_bounds (shr_m r1) (loc_of_shr_record r1)) as Hrne.
  set (m2 := round_nearest_even (shr_m r1) (loc_of_shr_record r1)) in *.
  assert (0 <= m2) as Hm2 by lia.
  assert (Zdigits2 m2 <= Zdigits2 (shr_m r1) + 1) as Hd2.
  { transitivity (Zdigits2 (shr_m r1 + 1));
      [apply Zdigits2_le_mono; lia | apply Zdigits2_succ; exact H1]. }
  pose proof (shr_fexp_bound e1 loc_Exact Hm2) as [H4 [H5 H6]].
  destruct (shr_fexp FloatOps.prec FloatOps.emax m2 e1 loc_Exact) as [r3 e3]. cbn [fst snd] in *.
  destruct (shr_m r3) as [|p|p] eqn:E3; cbn [below]; [exact I | | lia].
  change (Zdigits2 (Z.pos p)) with (Z.pos (digits2_pos p)) in H5.
  destruct (Z.leb_spec e3 (FloatOps.emax - FloatOps.prec)) as [Hle|Hgt]; cbn [below].
  - lia.
  - change (FloatOps.emax - FloatOps.prec) with 971 in Hgt. lia.
Qed.


(** *** The operations *)

(** A product of numbers below [2^a] and [2^b] is below [2^(a+b+1)]. *)
Lemma mul_below (a b k : Z) (x y : spec_float) :
  below a x -> below b y -> a + b + 1 <= k -> -1073 <= k <= 973 ->
  below k (SFmul FloatOps.prec FloatOps.emax x y).
Proof.
  intros Hx Hy Hk Hr.
  destruct x as [sx|sx| |sx mx ex], y as [sy|sy| |sy my ey]; cbn [below] in *;
    try contradiction; cbn [SFmul below]; try exact I.
  apply round_below; try lia.
  pose proof (@Zdigits2_mul (Z.pos mx) (Z.pos my) eq_refl eq_refl) as Hd.
  change (Z.pos mx * Z.pos my) with (Z.pos (mx * my)) in Hd.
  change (Zdigits2 (Z.pos mx)) with (Z.pos (digits2_pos mx)) in Hd.
  change (Zdigits2 (Z.pos my)) with (Z.pos (digits2_pos my)) in Hd.
  lia.
Qed.

(** A quotient of a number below [2^a] by one of at least [2^(b-1)], or
    by an infinity, is below [2^(a-b+2)]. *)
Lemma div_below (a b k : Z) (x y : spec_float) :
  below a x -> above b y -> a - b + 2 <= k -> -1073 <= k <= 973 ->
  below k (SFdiv FloatOps.prec FloatOps.emax x y).
Proof.
  intros Hx Hy Hk Hr.
  destruct x as [sx|sx| |sx mx ex], y as [sy|sy| |sy my ey]; cbn [below above] in *;
    try contradiction; cbn [SFdiv below]; try exact I.
  unfold SFdiv_core_binary. rewrite fexp_value.
  change (Zdigits2 (Z.pos mx)) with (Z.pos (digits2_pos mx)).
  change (Zdigits2 (Z.pos my)) with (Z.pos (digits2_pos my)).
  set (dx := Z.pos (digits2_pos mx)) in *. set (dy := Z.pos (digits2_pos my)) in *.
  set (e' := Z.min (Z.max (dx + ex - (dy + ey) - 53) (-1074)) (ex - ey)).
  set (m' := match ex - ey - e' with
             | 0 => Z.pos mx
             | Z.pos _ => Z.shiftl (Z.pos mx) (ex - ey - e')
             | Z.neg _ => 0
             end).
  assert (0 <= ex - ey - e') as Hs by (unfold e'; lia).
  assert (0 < m' /\ Zdigits2 m' = dx + (ex - ey - e')) as [Hm' Hdm'].
  { unfold m'. destruct (ex - ey - e') as [|p|p] eqn:E; [split; [lia|] | | lia].
    - change (Zdigits2 (Z.pos mx)) with dx. lia.
    - split; [|apply (@Zdigits2_shiftl (Z.pos mx)); lia].
      rewrite Z.shiftl_mul_pow2 by lia. pose proof (Z.pow_pos_nonneg 2 (Z.pos p)). nia. }
  clearbody m'.
  pose proof (Z_div_mod m' (Z.pos my) eq_refl) as Hdiv.
  destruct (Z.div_eucl m' (Z.pos my)) as [q r]. destruct Hdiv as [Heq Hrem].
  assert (0 <= q) as Hq by nia.
  assert (q * Z.pos my <= m') as Hle by nia.
  pose proof (@Zdigits2_quotient m' (Z.pos my) q eq_refl Hq Hle) as Hdq.
  change (Zdigits2 (Z.pos my)) with dy in Hdq.
  apply round_below; lia.
Qed.

(** Aligning a mantissa to a lower exponent keeps the size. *)
Lemma shl_align_bound (m : positive) (e e' : Z) :
  Z.pos (digits2_pos (fst (shl_align m e e'))) + snd (shl_align m e e')
    = Z.pos (digits2_pos m) + e /\
  snd (shl_align m e e') <= e /\
  (e' <= e -> snd (shl_align m e e') = e').
Proof.
  unfold shl_align. destruct (e' - e) as [|d|d] eqn:E; cbn [fst snd];
    rewrite ?digits2_pos_iter; lia.
Qed.

Lemma normalize_below (m e k : Z) :
  Zdigits2 m + e + 1 <= k -> e <= 971 -> -1073 <= k <= 1024 ->
  below k (binary_normalize FloatOps.prec FloatOps.emax m e false).
Proof.
  intros Hk He Hr.
  destruct m as [|p|p]; cbn [binary_normalize below]; [exact I | |];
    unfold binary_round;
    pose proof (shl_align_bound p e
                  (fexp FloatOps.prec FloatOps.emax (Z.pos (digits2_pos p) + e)))
      as [H1 [H2 _]];
    destruct (shl_align p e _) as [mz ez]; cbn [fst snd] in *;
    cbn [Zdigits2] in Hk;
    apply round_below; cbn [Zdigits2]; lia.
Qed.

Lemma sum_below (a k : Z) (mx my : positive) (ex ey m : Z) :
  Z.pos (digits2_pos mx) + ex <= a -> Z.pos (digits2_pos my) + ey <= a ->
  Z.abs m <= Z.pos (fst (shl_align mx ex (Z.min ex ey)))
             + Z.pos (fst (shl_align my ey (Z.min ex ey))) ->
  a + 2 <= k -> -1073 <= k <= 973 ->
  below k (binary_normalize FloatOps.prec FloatOps.emax m (Z.min ex ey) false).
Proof.
  intros Hx Hy Hm Hk Hr.
  pose proof (shl_align_bound mx ex (Z.min ex ey)) as [X1 [_ X3]].
  pose proof (shl_align_bound my ey (Z.min ex ey)) as [Y1 [_ Y3]].
  rewrite X3 in X1 by lia. rewrite Y3 in Y1 by lia.
  pose proof (@Zdigits2_sum m _ _ (Pos2Z.is_pos _) (Pos2Z.is_pos _) Hm) as Hd.
  cbn [Zdigits2] in Hd.
  assert (Z.min ex ey <= ex - 0) as He by lia.
  apply normalize_below; lia.
Qed.

(** A sum or a difference of numbers below [2^a] is below [2^(a+2)]. *)
Lemma add_below (a k : Z) (x y : spec_float) :
  below a x -> below a y -> a + 2 <= k -> -1073 <= k <= 973 ->
  below k (SFadd FloatOps.prec FloatOps.emax x y).
Proof.
  intros Hx Hy Hk Hr.
  destruct x as [sx|sx| |sx mx ex], y as [sy|sy| |sy my ey]; cbn [below] in *;
    try contradiction; cbn [SFadd].
  - destruct sx, sy; exact I.
  - cbn [below]. lia.
  - cbn [below]. lia.
  - apply (@sum_below a k mx my ex ey); try assumption.
    change (IntDef.Z.min ex ey) with (Z.min ex ey).
    destruct sx, sy; cbn [cond_Zopp]; lia.
Qed.

Lemma sub_below (a k : Z) (x y : spec_float) :
  below a x -> below a y -> a + 2 <= k -> -1073 <= k <= 973 ->
  below k (SFsub FloatOps.prec FloatOps.emax x y).
Proof.
  intros Hx Hy Hk Hr.
  destruct x as [sx|sx| |sx mx ex], y as [sy|sy| |sy my ey]; cbn [below] in *;
    try contradiction; cbn [SFsub].
  - destruct sx, sy; exact I.
  - cbn [below]. lia.
  - cbn [below]. lia.
  - apply (@sum_below a k mx my ex ey); try assumption.
    change (IntDef.Z.min ex ey) with (Z.min ex ey).
    destruct sx, sy; cbn [cond_Zopp]; lia.
Qed.


(** *** Comparisons *)

(** The mantissa of a double has at most 53 digits, and exactly 53 above
    the least exponent. *)
Lemma valid_finite (s : bool) (m : positive) (e : Z) :
  valid_binary FloatOps.prec FloatOps.emax (S754_finite s m e) = true ->
  Z.pos (digits2_pos m) <= 53 /\ (e = -1074 \/ Z.pos (digits2_pos m) = 53) /\ e <= 971.
Proof.
  cbn [valid_binary]. unfold bounded, canonical_mantissa. rewrite fexp_value.
  intros H. apply andb_prop in H as [H1 H2]. apply Z.eqb_eq in H1. apply Z.leb_le in H2.
  change (FloatOps.emax - FloatOps.prec) with 971 in H2. lia.
Qed.

(** A double between two bounds below [2^k] is below [2^k]. *)
Lemma between_below (k : Z) (lo hi x : spec_float) :
  capped k lo = true -> capped k hi = true ->
  SFleb lo x = true -> SFleb x hi = true ->
  valid_binary FloatOps.prec FloatOps.emax x = true ->
  below k x.
Proof.
  intros Clo Chi Hlo Hhi Hv.
  destruct x as [s|s| |s m e].
  - exact I.
  - destruct s.
    + destruct lo as [sl|sl| |sl ml el]; try discriminate; destruct sl; discriminate.
    + destruct hi as [sh|sh| |sh mh eh]; try discriminate; destruct sh; discriminate.
  - destruct lo; discriminate.
  - apply valid_finite in Hv as [Hd _]. cbn [below]. destruct s.
    + destruct lo as [sl|sl| |sl ml el]; try discriminate. destruct sl; [|discriminate].
      cbn [capped] in Clo. apply Z.leb_le in Clo.
      unfold SFleb, SFcompare in Hlo. destruct (Z.compare_spec el e); try discriminate; lia.
    + destruct hi as [sh|sh| |sh mh eh]; try discriminate. destruct sh; [discriminate|].
      cbn [capped] in Chi. apply Z.leb_le in Chi.
      unfold SFleb, SFcompare in Hhi. destruct (Z.compare_spec e eh); try discriminate; lia.
Qed.

(** A double above a positive normal number is at least as large. *)
Lemma leb_above (k : Z) (lo x : spec_float) :
  floored k lo = true -> SFleb lo x = true ->
  valid_binary FloatOps.prec FloatOps.emax x = true ->
  above k x.
Proof.
  intros Hf Hle Hv.
  destruct lo as [sl|sl| |sl ml el]; try discriminate. destruct sl; [discriminate|].
  cbn [floored] in Hf. apply andb_prop in Hf as [H1 H2].
  apply Z.ltb_lt in H1. apply Z.leb_le in H2.
  destruct x as [s|s| |s m e]; try discriminate.
  - destruct s; [discriminate | exact I].
  - destruct s; [discriminate|].
    apply valid_finite in Hv as [_ [Hd _]]. cbn [above].
    unfold SFleb, SFcompare in Hle. destruct (Z.compare_spec el e); try discriminate; lia.
Qed.

Lemma SFcompare_antisym (x y : spec_float) :
  SFcompare y x = option_map CompOpp (SFcompare x y).
Proof.
  destruct x as [[]|[]| |[] mx ex], y as [[]|[]| |[] my ey]; try reflexivity;
    assert (Pos.compare_cont Eq my mx = CompOpp (Pos.compare_cont Eq mx my)) as Hp
      by (rewrite Pos.compare_cont_antisym; reflexivity);
    cbn [SFcompare option_map]; rewrite (Z.compare_antisym ex ey), Hp;
    destruct (ex ?= ey); cbn [CompOpp]; try reflexivity;
    destruct (Pos.compare_cont Eq mx my); reflexivity.
Qed.

Lemma SFcompare_refl (x : spec_float) : x <> S754_nan -> SFcompare x x = Some Eq.
Proof.
  intros Hx. destruct x as [[]|[]| |[] m e]; try reflexivity; try contradiction;
    cbn [SFcompare]; rewrite Z.compare_refl, Pos.compare_cont_refl; reflexivity.
Qed.

End Magnitude.

(** *** Signs *)

Section Signs.
Import Floats.SpecFloat Binary64.
Local Open Scope Z_scope.

(** Rounding keeps the sign, and gives no NaN. *)
Lemma round_sign (s : bool) (m e : Z) (l : location) :
  0 <= m ->
  match binary_round_aux FloatOps.prec FloatOps.emax s m e l with
  | S754_zero s' | S754_infinity s' | S754_finite s' _ _ => s' = s
  | S754_nan => False
  end.
Proof.
  intros Hm. unfold binary_round_aux.
  pose proof (shr_fexp_bound e l Hm) as [H1 _].
  destruct (shr_fexp FloatOps.prec FloatOps.emax m e l) as [r1 e1]. cbn [fst snd] in *.
  pose proof (round_nearest_even_bounds (shr_m r1) (loc_of_shr_record r1)) as Hrne.
  set (m2 := round_nearest_even (shr_m r1) (loc_of_shr_record r1)) in *.
  assert (0 <= m2) as Hm2 by lia.
  pose proof (shr_fexp_bound e1 loc_Exact Hm2) as [H4 _].
  destruct (shr_fexp FloatOps.prec FloatOps.emax m2 e1 loc_Exact) as [r3 e3].
  cbn [fst snd] in *.
  destruct (shr_m r3) as [|p|p]; [reflexivity | | lia].
  destruct (Z.leb e3 (FloatOps.emax - FloatOps.prec)); reflexivity.
Qed.

Lemma normalize_sign (m e : Z) :
  match binary_normalize FloatOps.prec FloatOps.emax m e false with
  | S754_zero s' => m = 0 \/ s' = (m <? 0)
  | S754_infinity s' | S754_finite s' _ _ => s' = (m <? 0)
  | S754_nan => False
  end.
Proof.
  destruct m as [|p|p]; cbn [binary_normalize]; [left; reflexivity | |];
    unfold binary_round;
    destruct (shl_align p e _) as [mz ez];
    match goal with |- context [binary_round_aux _ _ ?s ?m ?e ?l] =>
      pose proof (@round_sign s m e l (Pos2Z.is_nonneg _)) as Hs;
      destruct (binary_round_aux FloatOps.prec FloatOps.emax s m e l)
    end; try contradiction; try (right; exact Hs); exact Hs.
Qed.


(** Zero or above: a zero, a positive finite number or plus infinity. *)
Lemma nonneg_cases (x : spec_float) :
  SFleb (S754_zero false) x = true <->
  match x with
  | S754_zero _ => True
  | S754_infinity s | S754_finite s _ _ => s = false
  | S754_nan => False
  end.
Proof. destruct x as [[]|[]| |[] m e]; cbn; intuition congruence. Qed.

Lemma nonpos_cases (x : spec_float) :
  SFleb x (S754_zero false) = true <->
  match x with
  | S754_zero _ => True
  | S754_infinity s | S754_finite s _ _ => s = true
  | S754_nan => False
  end.
Proof. destruct x as [[]|[]| |[] m e]; cbn; intuition congruence. Qed.

Lemma negative_cases (x : spec_float) :
  SFltb x (S754_zero false) = true <->
  match x with
  | S754_infinity s | S754_finite s _ _ => s = true
  | _ => False
  end.
Proof. destruct x as [[]|[]| |[] m e]; cbn; intuition congruence. Qed.

Lemma add_nonneg (x y : spec_float) :
  SFleb (S754_zero false) x = true -> SFleb (S754_zero false) y = true ->
  SFleb (S754_zero false) (SFadd FloatOps.prec FloatOps.emax x y) = true.
Proof.
  rewrite !nonneg_cases. intros Hx Hy.
  destruct x as [sx|sx| |sx mx ex], y as [sy|sy| |sy my ey]; try contradiction;
    subst; cbn [SFadd]; try exact I; try reflexivity.
  - destruct sx, sy; exact I.
  - cbn [cond_Zopp].
    match goal with |- context [binary_normalize _ _ ?m ?e false] =>
      pose proof (normalize_sign m e) as Hs;
      destruct (binary_normalize FloatOps.prec FloatOps.emax m e false)
    end; try exact I; try contradiction; rewrite Hs; cbn; lia.
Qed.


Lemma add_nonpos (x y : spec_float) :
  SFleb x (S754_zero false) = true -> SFltb y (S754_zero false) = true ->
  SFleb (SFadd FloatOps.prec FloatOps.emax x y) (S754_zero false) = true.
Proof.
  rewrite !nonpos_cases, negative_cases. intros Hx Hy.
  destruct x as [sx|sx| |sx mx ex], y as [sy|sy| |sy my ey]; try contradiction;
    subst; cbn [SFadd]; try exact I; try reflexivity.
  cbn [cond_Zopp].
  match goal with |- context [binary_normalize _ _ ?m ?e false] =>
    pose proof (normalize_sign m e) as Hs;
    destruct (binary_normalize FloatOps.prec FloatOps.emax m e false)
  end; try exact I; try contradiction; rewrite Hs; cbn; reflexivity.
Qed.

Lemma nonpos_leb_positive (x : spec_float) (m : positive) (e : Z) :
  SFleb x (S754_zero false) = true -> SFleb x (S754_finite false m e) = true.
Proof.
  rewrite nonpos_cases. destruct x as [[]|[]| |[] mx ex]; intros H; try reflexivity;
    try contradiction; discriminate.
Qed.

Lemma sign_cases (x : spec_float) :
  x = S754_nan \/ SFleb (S754_zero false) x = true \/ SFltb x (S754_zero false) = true.
Proof. destruct x as [[]|[]| |[] m e]; cbn; auto. Qed.

End Signs.

(** *** Doubles *)

Section DoubleSizes.
Import Floats.SpecFloat Floats.PrimFloat Floats.FloatOps Floats.FloatAxioms Binary64.

Lemma is_nan_false (x : float) : is_nan x = false <-> Prim2SF x <> S754_nan.
Proof.
  unfold is_nan. rewrite eqb_spec. unfold SFeqb. split.
  - intros H E. rewrite E in H. discriminate H.
  - intros H. rewrite (SFcompare_refl H). reflexivity.
Qed.

Lemma below_finite (k : Z) (x : float) : below k (Prim2SF x) -> is_finite x = true.
Proof.
  intros Hb. unfold is_finite.
  assert (Prim2SF x <> S754_nan) as Hn by (intros E; rewrite E in Hb; exact Hb).
  apply is_nan_false in Hn. rewrite Hn. cbn [orb].
  unfold is_infinity. rewrite eqb_spec, abs_spec.
  destruct (Prim2SF x) as [s|s| |s m e]; try contradiction; reflexivity.
Qed.

Lemma between_below_float (k : Z) (lo hi x : float) :
  capped k (Prim2SF lo) = true -> capped k (Prim2SF hi) = true ->
  between lo hi x = true -> below k (Prim2SF x).
Proof.
  intros Clo Chi Hb. apply andb_prop in Hb as [H1 H2]. rewrite leb_spec in H1, H2.
  apply (@between_below k (Prim2SF lo) (Prim2SF hi) (Prim2SF x) Clo Chi H1 H2
           (Prim2SF_valid x)).
Qed.

Lemma leb_above_float (k : Z) (lo x : float) :
  floored k (Prim2SF lo) = true -> leb lo x = true -> above k (Prim2SF x).
Proof.
  intros Hf Hle. rewrite leb_spec in Hle.
  apply (@leb_above k (Prim2SF lo) (Prim2SF x) Hf Hle (Prim2SF_valid x)).
Qed.

Lemma mul_below_float (a b k : Z) (x y : float) :
  below a (Prim2SF x) -> below b (Prim2SF y) -> (a + b + 1 <= k)%Z -> (-1073 <= k <= 973)%Z ->
  below k (Prim2SF (x * y)).
Proof. intros. rewrite mul_spec. apply (@mul_below a b); assumption. Qed.

Lemma div_below_float (a b k : Z) (x y : float) :
  below a (Prim2SF x) -> above b (Prim2SF y) -> (a - b + 2 <= k)%Z -> (-1073 <= k <= 973)%Z ->
  below k (Prim2SF (x / y)).
Proof. intros. rewrite div_spec. apply (@div_below a b); assumption. Qed.

Lemma add_below_float (a k : Z) (x y : float) :
  below a (Prim2SF x) -> below a (Prim2SF y) -> (a + 2 <= k)%Z -> (-1073 <= k <= 973)%Z ->
  below k (Prim2SF (x + y)).
Proof. intros. rewrite add_spec. apply (@add_below a); assumption. Qed.

Lemma sub_below_float (a k : Z) (x y : float) :
  below a (Prim2SF x) -> below a (Prim2SF y) -> (a + 2 <= k)%Z -> (-1073 <= k <= 973)%Z ->
  below k (Prim2SF (x - y)).
Proof. intros. rewrite sub_spec. apply (@sub_below a); assumption. Qed.

Lemma below_weaken (a k : Z) (x : spec_float) : below a x -> (a <= k)%Z -> below k x.
Proof. destruct x; cbn [below]; intros; try assumption; lia. Qed.

End DoubleSizes.

(** *** Ranges *)

Section DoubleRanges.
Import Floats.SpecFloat Floats.PrimFloat Floats.FloatOps Floats.FloatAxioms Binary64.

Lemma SFcompare_some (x y : spec_float) :
  x <> S754_nan -> y <> S754_nan -> SFcompare x y <> None.
Proof.
  intros Hx Hy. destruct x as [[]|[]| |[] mx ex], y as [[]|[]| |[] my ey];
    try contradiction; discriminate.
Qed.

(** [Math.max(a, c)] is at least [c] when neither is NaN. *)
Lemma max_floor (a c : float) :
  is_nan a = false -> is_nan c = false -> leb c (Float.max a c) = true.
Proof.
  intros Ha Hc. unfold Float.max. rewrite Ha, Hc. cbn [orb].
  pose proof (proj1 (is_nan_false a) Ha) as Na. pose proof (proj1 (is_nan_false c) Hc) as Nc.
  assert (leb c c = true) as Hcc.
  { rewrite leb_spec. unfold SFleb. rewrite (SFcompare_refl Nc). reflexivity. }
  destruct (ltb a c) eqn:E1; [exact Hcc|].
  destruct (ltb c a) eqn:E2.
  - rewrite ltb_spec in E2. rewrite leb_spec. unfold SFltb, SFleb in *.
    destruct (SFcompare (Prim2SF c) (Prim2SF a)) as [[]|]; try discriminate; reflexivity.
  - destruct (get_sign a); [exact Hcc|].
    rewrite ltb_spec in E1, E2. rewrite leb_spec. unfold SFltb, SFleb in *.
    rewrite (SFcompare_antisym (Prim2SF a) (Prim2SF c)) in E2 |- *.
    pose proof (SFcompare_some Na Nc) as Hs.
    destruct (SFcompare (Prim2SF a) (Prim2SF c)) as [[]|]; cbn in *;
      try discriminate; try reflexivity. contradiction.
Qed.

Lemma below_not_nan (k : Z) (x : float) : below k (Prim2SF x) -> is_nan x = false.
Proof. intros Hb. apply is_nan_false. intros E. rewrite E in Hb. exact Hb. Qed.

Lemma rangedLibm_ranged : Ranged rangedLibm.
Proof.
  split; intros; cbn [Float.cos Float.sin Float.acos Float.atan2 rangedLibm]; unfold within;
    match goal with |- between ?lo ?hi (if ?c then _ else _) = true => destruct c eqn:E end;
    try exact E; vm_compute; reflexivity.
Qed.

End DoubleRanges.

(** ** The fibers are finite on doubles *)

Section FiniteFibers.
Import Floats.SpecFloat Floats.PrimFloat Floats.FloatOps Floats.FloatAxioms Binary64.
Context (m : Float.Libm).
#[local] Existing Instance Float.number.
Local Open Scope js_scope.
Import Hopf.

Lemma zero_spec : Prim2SF #0 = S754_zero false.
Proof. reflexivity. Qed.

Lemma two_pi_spec :
  Prim2SF (Math_PI * #2) = S754_finite false 7074237752028440 (-50).
Proof. vm_compute. reflexivity. Qed.

Lemma forward_step (t step : float) :
  (#0 <=? step) = true -> (#0 <=? t) = true -> (#0 <=? t + step) = true.
Proof.
  intros Hs Ht. change (PrimFloat.leb #0 (PrimFloat.add t step) = true).
  change (PrimFloat.leb #0 step = true) in Hs. change (PrimFloat.leb #0 t = true) in Ht.
  rewrite leb_spec in *. rewrite add_spec. rewrite zero_spec in *.
  apply add_nonneg; assumption.
Qed.

(** A step that is zero or above keeps [t] zero or above. *)
Lemma times_forward (segments : float) :
  (#0 <=? (#2 * Math_PI) / segments) = true ->
  forall fuel t ts, (#0 <=? t) = true -> fiberTimes fuel segments t = Some ts ->
    Forall (fun t => between #0 (Math_PI * #2) t = true) ts.
Proof.
  intros Hs. induction fuel as [|fuel IH]; intros t ts Ht; cbn [fiberTimes]; [discriminate|].
  destruct (t <=? Math_PI * #2) eqn:E.
  - destruct (fiberTimes fuel segments (t + (#2 * Math_PI) / segments)) as [ts'|] eqn:Hrec;
      cbn [option_map]; [|discriminate].
    intros [= <-]. constructor.
    + change (PrimFloat.leb #0 t && PrimFloat.leb t (Math_PI * #2) = true).
      change (PrimFloat.leb #0 t = true) in Ht.
      change (PrimFloat.leb t (Math_PI * #2) = true) in E.
      rewrite Ht, E. reflexivity.
    + apply (IH _ _ (@forward_step t _ Hs Ht) Hrec).
  - intros [= <-]. constructor.
Qed.

(** A negative step keeps [t] at zero or below, where the test of the
    loop holds: the loop has no last round. *)
Lemma times_backward (segments : float) :
  ((#2 * Math_PI) / segments <? #0) = true ->
  forall fuel t, (t <=? #0) = true -> fiberTimes fuel segments t = None.
Proof.
  intros Hs. induction fuel as [|fuel IH]; intros t Ht; cbn [fiberTimes]; [reflexivity|].
  assert ((t <=? Math_PI * #2) = true) as E.
  { change (PrimFloat.leb t (Math_PI * #2) = true). change (PrimFloat.leb t #0 = true) in Ht.
    rewrite leb_spec in *. rewrite two_pi_spec. rewrite zero_spec in Ht.
    apply nonpos_leb_positive. exact Ht. }
  rewrite E. rewrite IH; [reflexivity|].
  change (PrimFloat.leb (PrimFloat.add t ((#2 * Math_PI) / segments)) #0 = true).
  change (PrimFloat.ltb ((#2 * Math_PI) / segments) #0 = true) in Hs.
  change (PrimFloat.leb t #0 = true) in Ht.
  rewrite leb_spec in *. rewrite ltb_spec in Hs. rewrite add_spec. rewrite zero_spec in *.
  apply add_nonpos; assumption.
Qed.

(** A step that is NaN ends the loop after its first round. *)
Lemma times_nan (segments : float) :
  is_nan ((#2 * Math_PI) / segments) = true ->
  forall fuel ts, fiberTimes fuel segments #0 = Some ts -> ts = [#0].
Proof.
  intros Hs fuel ts.
  assert ((#0 + (#2 * Math_PI) / segments <=? Math_PI * #2) = false) as E.
  { change (PrimFloat.leb (PrimFloat.add #0 ((#2 * Math_PI) / segments)) (Math_PI * #2)
            = false).
    rewrite leb_spec, add_spec.
    assert (Prim2SF ((#2 * Math_PI) / segments) = S754_nan) as En.
    { destruct (Prim2SF ((#2 * Math_PI) / segments)) eqn:Esf; try reflexivity;
        exfalso; assert (is_nan ((#2 * Math_PI) / segments) = false) as Hn
          by (apply is_nan_false; rewrite Esf; discriminate);
        rewrite Hn in Hs; discriminate Hs. }
    rewrite En, zero_spec. reflexivity. }
  destruct fuel as [|[|fuel]]; cbn [fiberTimes]; try discriminate.
  rewrite E. cbn [option_map]. intros [= <-]. reflexivity.
Qed.

(** Whatever the number of segments, every value of [t] in a run of the
    loop that ends is between 0 and the double of 2 pi. *)
Lemma times_between (segments : float) (fuel : nat) (ts : list float) :
  fiberTimes fuel segments #0 = Some ts ->
  Forall (fun t => between #0 (Math_PI * #2) t = true) ts.
Proof.
  intros Hts.
  destruct (sign_cases (Prim2SF ((#2 * Math_PI) / segments))) as [Hn | [Hp | Hm]].
  - assert (is_nan ((#2 * Math_PI) / segments) = true) as Hnan.
    { destruct (is_nan ((#2 * Math_PI) / segments)) eqn:E; [reflexivity|].
      apply is_nan_false in E. contradiction. }
    rewrite (@times_nan segments Hnan fuel ts Hts).
    constructor; [vm_compute; reflexivity | constructor].
  - apply (@times_forward segments) with (fuel := fuel) (t := #0); [| reflexivity | exact Hts].
    change (PrimFloat.leb #0 ((#2 * Math_PI) / segments) = true).
    rewrite leb_spec, zero_spec. exact Hp.
  - rewrite times_backward in Hts; [discriminate | | reflexivity].
    change (PrimFloat.ltb ((#2 * Math_PI) / segments) #0 = true).
    rewrite ltb_spec, zero_spec. exact Hm.
Qed.

Lemma unit_range_below (x : float) : between (-#1) #1 x = true -> below 1 (Prim2SF x).
Proof. apply between_below_float; vm_compute; reflexivity. Qed.

(** One round of the loop: with [theta], [phi] and [t] in their ranges
    the divisor is at least 0.0001 and the point is finite. The sizes:
    [theta] below 4, [theta / 2] below 4, [phi] and [t] below 8, [t + phi]
    below 32, the sines and cosines below 2, their products below 8,
    [1 - w4] below 32, [d] at least [2^-14], the quotients below [2^18]. *)
Lemma fiberPoint_finite (theta phi t : float) :
  Ranged m ->
  between #0 Math_PI theta = true ->
  between (- Math_PI) Math_PI phi = true ->
  between #0 (Math_PI * #2) t = true ->
  let w4 := Math_sin (theta / #2) * Math_sin (t + phi) in
  let d := Math_max (#1 - w4) (dec 1 4) in
  let p := fiberPoint theta phi t in
  (dec 1 4 <=? d) = true /\
  is_finite (vx p) = true /\ is_finite (vy p) = true /\ is_finite (vz p) = true.
Proof.
  intros HR Htheta Hphi Ht w4 d p.
  assert (below 2 (Prim2SF theta)) as Btheta.
  { revert Htheta. apply between_below_float; vm_compute; reflexivity. }
  assert (below 3 (Prim2SF phi)) as Bphi.
  { revert Hphi. apply between_below_float; vm_compute; reflexivity. }
  assert (below 3 (Prim2SF t)) as Bt.
  { revert Ht. apply between_below_float; vm_compute; reflexivity. }
  assert (above 2 (Prim2SF #2)) as A2.
  { apply (@leb_above_float 2 #2); vm_compute; reflexivity. }
  assert (below 2 (Prim2SF (theta / #2))) as Bhalf.
  { apply (@div_below_float 2 2 2 theta #2 Btheta A2); lia. }
  assert (below 5 (Prim2SF (t + phi))) as Bsum.
  { apply (@add_below_float 3 5 t phi Bt Bphi); lia. }
  pose proof (@cos_range m HR _ (@below_finite 2 _ Bhalf)) as Hc2.
  pose proof (@sin_range m HR _ (@below_finite 2 _ Bhalf)) as Hs2.
  pose proof (@cos_range m HR _ (@below_finite 3 _ Bt)) as Hct.
  pose proof (@sin_range m HR _ (@below_finite 3 _ Bt)) as Hst.
  pose proof (@cos_range m HR _ (@below_finite 5 _ Bsum)) as Hcs.
  pose proof (@sin_range m HR _ (@below_finite 5 _ Bsum)) as Hss.
  apply unit_range_below in Hc2, Hs2, Hct, Hst, Hcs, Hss.
  assert (below 3 (Prim2SF w4)) as Bw4.
  { apply (@mul_below_float 1 1 3 _ _ Hs2 Hss); lia. }
  assert (below 3 (Prim2SF #1)) as B1.
  { apply (@below_weaken 1); [apply unit_range_below; vm_compute; reflexivity | lia]. }
  assert (below 5 (Prim2SF (#1 - w4))) as Bsub.
  { apply (@sub_below_float 3 5 #1 w4 B1 Bw4); lia. }
  assert ((dec 1 4 <=? d) = true) as Hd.
  { apply max_floor; [exact (@below_not_nan 5 _ Bsub) | vm_compute; reflexivity]. }
  assert (above (-13) (Prim2SF d)) as Ad.
  { apply (@leb_above_float (-13) (dec 1 4) d); [vm_compute; reflexivity | exact Hd]. }
  split; [exact Hd|].
  assert (forall a b, below 1 (Prim2SF a) -> below 1 (Prim2SF b) ->
            is_finite (a * b / d) = true) as Hq.
  { intros a b Ha Hb. apply (@below_finite 18).
    apply (@div_below_float 3 (-13) 18 _ d); [|exact Ad | lia | lia].
    apply (@mul_below_float 1 1 3 _ _ Ha Hb); lia. }
  split; [|split]; apply Hq; assumption.
Qed.

(** C3, on doubles, where a coordinate can be infinite or NaN: for a
    vector [n] with [n.z] between -1 and 1 and [n.x], [n.y] other than
    NaN, as a unit vector has them, and for every [Math] whose functions
    stay within their ranges, [getHopfFiberPoints] returns when it is
    called with the default 1000 segments, as the tool calls it; and
    whatever the number of segments, each point it returns is
    [(x4/d, y4/d, z4/d)] for a [t] between 0 and 2 pi, with [x4], [y4],
    [z4], [w4] computed from [theta = acos(n.z)] and
    [phi = atan2(n.y, n.x)] and [d = max(1 - w4, 0.0001)], in the
    arithmetic of doubles; the divisor [d] is at least 0.0001, so neither
    zero nor NaN, and the three coordinates of the point are finite. *)
Theorem hopf_fiber_points_formula (n : Vector3 float) :
  Ranged m ->
  is_nan (vx n) = false -> is_nan (vy n) = false ->
  between (- #1) #1 (vz n) = true ->
  let theta := Math_acos (vz n) in
  let phi := Math_atan2 (vy n) (vx n) in
  (forall extra, exists points,
     getHopfFiberPoints (1002 + extra) n defaultSegments = Some points) /\
  (forall fuel segments points,
     getHopfFiberPoints fuel n segments = Some points ->
     Forall
       (fun p => exists t,
          let x4 := Math_cos (theta / #2) * Math_cos t in
          let y4 := Math_cos (theta / #2) * Math_sin t in
          let z4 := Math_sin (theta / #2) * Math_cos (t + phi) in
          let w4 := Math_sin (theta / #2) * Math_sin (t + phi) in
          let d := Math_max (#1 - w4) (dec 1 4) in
          between #0 (Math_PI * #2) t = true /\
          p = V3 (x4 / d) (y4 / d) (z4 / d) /\
          (dec 1 4 <=? d) = true /\
          is_finite (vx p) = true /\ is_finite (vy p) = true /\ is_finite (vz p) = true)
       points).
Proof.
  intros HR Hx Hy Hz theta phi. split.
  - intros extra. destruct (getHopfFiberPoints_default_double m extra n) as [points [E _]].
    exists points. exact E.
  - intros fuel segments points. rewrite getHopfFiberPoints_times.
    destruct (fiberTimes fuel segments #0) as [ts|] eqn:Hts; cbn [option_map]; [|discriminate].
    intros [= <-].
    pose proof (@times_between segments fuel ts Hts) as Hrange.
    rewrite Forall_forall in Hrange.
    apply Forall_forall. intros p Hin. apply in_map_iff in Hin. destruct Hin as [t [<- Hin]].
    specialize (Hrange t Hin). exists t.
    pose proof (@acos_range m HR (vz n) Hz) as Htheta.
    pose proof (@atan2_range m HR (vy n) (vx n) Hy Hx) as Hphi.
    destruct (@fiberPoint_finite theta phi t HR Htheta Hphi Hrange) as [Hd Hfin].
    split; [exact Hrange|]. split; [reflexivity|]. split; [exact Hd | exact Hfin].
Qed.

End FiniteFibers.

(** ** Closed instances *)

Section Instances.
#[local] Existing Instance Float.sample.
#[local] Existing Instance Ideal.number.
Local Open Scope js_scope.

(** A run on doubles: longitude mode, a click on the point (1, 0, 0). *)
Example hopf_longitude_run :
  option_map
    (fun s' => (length (Hopf.torus s'), Hopf.fiberIndex s', length (Hopf.sphereLines s')))
    (Hopf.onClick 1002 (Hopf.mkClick true [V3 #1 #0 #0])
       (Hopf.userToggle Hopf.toggleLongitude (Hopf.initial : Hopf.State PrimFloat.float)))
  = Some (101%nat, 101%nat, 1%nat).
Proof. vm_compute. reflexivity. Qed.

(** A run on doubles: latitude mode, the same click. *)
Example hopf_latitude_run :
  option_map
    (fun s' => (length (Hopf.torus s'), Hopf.fiberIndex s', length (Hopf.sphereLines s')))
    (Hopf.onClick 1002 (Hopf.mkClick true [V3 #1 #0 #0])
       (Hopf.userToggle Hopf.toggleLatitude (Hopf.initial : Hopf.State PrimFloat.float)))
  = Some (201%nat, 201%nat, 1%nat).
Proof. vm_compute. reflexivity. Qed.

(** The reset scenario on doubles: longitude mode, a click, then Reset. *)
Example hopf_reset_run :
  option_map Hopf.resetClick
    (Hopf.onClick 1002 (Hopf.mkClick true [V3 #1 #0 #0])
       (Hopf.userToggle Hopf.toggleLongitude (Hopf.initial : Hopf.State PrimFloat.float)))
  = Some Hopf.initial.
Proof. vm_compute. reflexivity. Qed.

(** Projections on doubles: the point (1, 1, 0) of the sphere goes to
    (2, 0, 0), and the contact point of the sphere with the plane to
    itself. *)
Example projectPoint_run :
  Stereo.projectPoint (V3 #1 #1 #0 : Vector3 PrimFloat.float) = V3 #2 #0 #0 /\
  Stereo.projectPoint (V3 #0 #0 #0 : Vector3 PrimFloat.float) = V3 #0 #0 #0.
Proof. split; vm_compute; reflexivity. Qed.

(** A click in point mode on doubles draws the guide line and two markers. *)
Example stereo_point_run :
  Stereo.projectGroup
    (Stereo.onClick (Stereo.mkClick true [V3 #1 #1 #0])
       (Stereo.userToggle Stereo.point (Stereo.initial : Stereo.State PrimFloat.float)))
  = [Line [V3 #0 #2 #0; V3 #2 #0 #0] 0x444444 #1;
     Mesh (dec 25 3) Stereo.SPHERE_COLOR (V3 #1 #1 #0);
     Mesh (dec 25 3) Stereo.PLANE_COLOR (V3 #2 #0 #0)].
Proof. vm_compute. reflexivity. Qed.

(** C1, as stated, fails in the stereographic tool: a frozen state stays
    frozen through Reset. *)
Lemma stereo_reset_leaves_frozen :
  let s : Stereo.State PrimFloat.float :=
    Stereo.mkState true [Mesh (dec 25 3) Stereo.SPHERE_COLOR (V3 #1 #1 #0)]
      false true false false in
  ~ (Stereo.projectGroup (Stereo.resetClick s) = [] /\
     Stereo.togglePoint (Stereo.resetClick s) = false /\
     Stereo.toggleLongitude (Stereo.resetClick s) = false /\
     Stereo.toggleLatitude (Stereo.resetClick s) = false /\
     Stereo.isFrozen (Stereo.resetClick s) = false).
Proof. intros s [_ [_ [_ [_ E]]]]. discriminate E. Qed.

(** C2, as stated, fails at 12 segments on doubles: the call returns 12
    points, and with no amount of fuel 13. *)
Lemma twelve_segments_give_twelve_points :
  option_map (@length _)
    (Hopf.getHopfFiberPoints 13 (V3 #0 #0 #1 : Vector3 PrimFloat.float) #12) = Some 12%nat /\
  ~ (exists fuel points,
       Hopf.getHopfFiberPoints fuel (V3 #0 #0 #1 : Vector3 PrimFloat.float) #12 = Some points /\
       length points = 13%nat).
Proof.
  split; [vm_compute; reflexivity|].
  intros [fuel [points [E Hlen]]]. unfold Float.sample in E.
  destruct (@getHopfFiberPoints_twelve_segments Float.polyLibm fuel (V3 #0 #0 #1))
    as [points' [E' Hlen']].
  rewrite getHopfFiberPoints_times in E, E'.
  destruct (fiberTimes fuel #12 #0) as [ts|] eqn:Hts; [|discriminate].
  apply (fiberTimes_more_fuel _ 13) in Hts. rewrite Nat.add_comm in Hts.
  rewrite Hts in E'.
  simpl in E, E'. injection E as <-. injection E' as <-.
  rewrite length_map in Hlen, Hlen'. lia.
Qed.

Lemma hopf_fiber_points_formula_witness :
  let n : Vector3 PrimFloat.float := V3 #0 #0 #1 in
  Binary64.Ranged Binary64.rangedLibm /\
  Binary64.between (- #1) #1 (vz n) = true /\
  exists points,
    @Hopf.getHopfFiberPoints _ (Float.number Binary64.rangedLibm) 1002 n #1000 = Some points /\
    Forall (fun p => PrimFloat.is_finite (vx p) = true /\ PrimFloat.is_finite (vy p) = true /\
                     PrimFloat.is_finite (vz p) = true) points.
Proof.
  intros n. split; [exact rangedLibm_ranged|]. split; [reflexivity|].
  destruct (@hopf_fiber_points_formula Binary64.rangedLibm n rangedLibm_ranged
              eq_refl eq_refl eq_refl) as [Hruns Hpoints].
  destruct (Hruns 0%nat) as [points E].
  exists points. split; [exact E|].
  eapply Forall_impl; [|exact (Hpoints _ _ _ E)].
  intros p [t [_ [_ [_ Hfin]]]]. exact Hfin.
Defined.

Lemma mode_change_exclusive_and_clears_witness :
  let sh : Hopf.State PrimFloat.float :=
    Hopf.mkState false true false false 101 [] [] [Line [] 0xff0000 #1] [] false true false in
  let ss : Stereo.State PrimFloat.float :=
    Stereo.mkState false [Line [] Stereo.SPHERE_COLOR #1] false false true false in
  (hopfChecked sh <= 1)%nat /\ (stereoChecked ss <= 1)%nat /\
  (hopfChecked (Hopf.userToggle Hopf.toggleLatitude sh) <= 1)%nat /\
  hopfEmpty (Hopf.userToggle Hopf.toggleLatitude sh) /\
  (stereoChecked (Stereo.userToggle Stereo.latitude ss) <= 1)%nat /\
  Stereo.projectGroup (Stereo.userToggle Stereo.latitude ss) = [].
Proof.
  intros sh ss.
  assert (hopfChecked sh <= 1)%nat as Hh by (vm_compute; lia).
  assert (stereoChecked ss <= 1)%nat as Hs by (vm_compute; lia).
  destruct (mode_change_exclusive_and_clears Hopf.toggleLatitude sh Stereo.latitude ss Hh Hs)
    as [[H1 [_ H2]] [H3 H4]].
  split; [exact Hh|]. split; [exact Hs|]. split; [exact H1|].
  split; [apply H2; reflexivity|]. split; [exact H3|].
  apply H4. reflexivity.
Defined.

Lemma frozen_click_changes_nothing_witness :
  let sh : Hopf.State PrimFloat.float :=
    Hopf.mkState false true false true 0 [] [] [] [] false true false in
  let ss : Stereo.State PrimFloat.float := Stereo.mkState true [] false true false false in
  Hopf.holdScene sh = true /\ Stereo.isFrozen ss = true /\
  Hopf.onClick 1002 (Hopf.mkClick true [V3 #1 #0 #0]) sh = Some sh /\
  Stereo.onClick (Stereo.mkClick true [V3 #1 #1 #0]) ss = ss.
Proof.
  intros sh ss. split; [reflexivity|]. split; [reflexivity|].
  apply (frozen_click_changes_nothing 1002 (Hopf.mkClick true [V3 #1 #0 #0]) sh
           (Stereo.mkClick true [V3 #1 #1 #0]) ss); reflexivity.
Defined.

(** C6, as stated, fails at the distance 0.08 itself: on doubles the
    point [Binary64.thresholdPoint] is on the sphere, its distance to
    [northPolePos] is the double of 0.08, so within 0.08, and a click on it
    in point mode shows no warning and draws the projection. *)
Lemma click_at_threshold_is_projected :
  let p := Binary64.thresholdPoint in
  let s : Stereo.State PrimFloat.float := Stereo.mkState false [] false true false false in
  let ev := Stereo.mkClick true [p] in
  distanceTo p Stereo.northPolePos = dec 8 2 /\
  distanceTo p Stereo.spherePos = Stereo.radius /\
  (distanceTo p Stereo.northPolePos <=? dec 8 2) = true /\
  Stereo.warning (Stereo.onClick ev s) = false /\
  Stereo.projectGroup (Stereo.onClick ev s) = stereoPointObjects p.
Proof. repeat split; vm_compute; reflexivity. Qed.

Lemma near_pole_click_warns_witness :
  let drawn : list (Object3D PrimFloat.float) := [Line [] Stereo.SPHERE_COLOR #1] in
  let s : Stereo.State PrimFloat.float := Stereo.mkState false drawn false true false false in
  let p : Vector3 PrimFloat.float := V3 #0 #2 #0 in
  let ev := Stereo.mkClick true [p] in
  (distanceTo p Stereo.northPolePos <? dec 8 2) = true /\
  Stereo.warning (Stereo.onClick ev s) = true /\
  Stereo.projectGroup (Stereo.onClick ev s) = drawn.
Proof.
  intros drawn s p ev.
  assert ((distanceTo p Stereo.northPolePos <? dec 8 2) = true) as Hd
    by (vm_compute; reflexivity).
  split; [exact Hd|].
  destruct (@near_pole_click_warns _ _ ev s p [] eq_refl Hd) as [_ [Hg [_ Hw]]].
  split; [apply Hw; reflexivity | exact Hg].
Defined.

Lemma hopf_click_emits_fibers_witness :
  let s : Hopf.State PrimFloat.float :=
    Hopf.mkState false true false false 0 [] [] [] [] false true false in
  let ev := Hopf.mkClick true [V3 #1 #0 #0] in
  Hopf.holdScene s = false /\ Hopf.longitudeMode s = true /\
  exists s',
    Hopf.onClick 1002 ev s = Some s' /\
    length (Hopf.torus s') = 101%nat /\ Hopf.fiberIndex s' = 101%nat.
Proof.
  intros s ev. split; [reflexivity|]. split; [reflexivity|].
  destruct (@hopf_click_emits_fibers Float.polyLibm 0 ev s (V3 #1 #0 #0) []
              eq_refl eq_refl eq_refl eq_refl) as [Hlon _].
  destruct (Hlon eq_refl eq_refl) as [s' [E [Hlen [Hidx _]]]].
  exists s'. split; [exact E|]. split; [exact Hlen | exact Hidx].
Defined.

Lemma south_pole_is_far :
  @nltb R _ (distanceTo (V3 0 0 0)%R Stereo.northPolePos) (dec 8 2) = false.
Proof.
  apply ideal_ltb_false. unfold distanceTo, distanceToSquared. simpl.
  change (Ideal.decimal 8 2) with (8 / 100)%R.
  replace (8 / 100)%R with (sqrt (8 / 100 * (8 / 100)))%R by (apply sqrt_square; lra).
  apply sqrt_le_1_alt. lra.
Qed.

Lemma curves_are_closed_witness :
  let sh : Hopf.State R :=
    Hopf.mkState false true false false 0 [] [] [] [] false true false in
  let evh := Hopf.mkClick true [V3 1 0 0]%R in
  let ss : Stereo.State R := Stereo.mkState false [] false false true false in
  let evs := Stereo.mkClick true [V3 0 0 0]%R in
  Hopf.holdScene sh = false /\ Stereo.isFrozen ss = false /\
  (exists s' path,
     Hopf.onClick 1002 evh sh = Some s' /\
     Hopf.sphereLines s' = [Line path 0x000000 (dec 1005 3)] /\ closedPath path) /\
  (exists path others,
     Stereo.projectGroup (Stereo.onClick evs ss) = Line path Stereo.SPHERE_COLOR #1 :: others /\
     closedPath path).
Proof.
  intros sh evh ss evs. split; [reflexivity|]. split; [reflexivity|].
  destruct (@curves_are_closed 0 evh sh (V3 1 0 0)%R [] evs ss (V3 0 0 0)%R []
              eq_refl eq_refl eq_refl eq_refl eq_refl eq_refl eq_refl
              south_pole_is_far eq_refl) as [Hlon [_ [_ Hslon]]].
  split.
  - destruct (Hlon eq_refl eq_refl) as [s' [path [E [Hl [_ Hc]]]]].
    exists s', path. split; [exact E|]. split; [exact Hl | exact Hc].
  - destruct (Hslon eq_refl eq_refl) as [path [others [E [_ Hc]]]].
    exists path, others. split; [exact E | exact Hc].
Defined.

Lemma longitude_projection_skips_pole_witness :
  let s : Stereo.State PrimFloat.float := Stereo.mkState false [] false false true false in
  let p : Vector3 PrimFloat.float := V3 #1 #1 #0 in
  let ev := Stereo.mkClick true [p] in
  (distanceTo p Stereo.northPolePos <? dec 8 2) = false /\
  Stereo.toggleLongitude s = true /\
  exists pointsSphere others,
    Stereo.projectGroup (Stereo.onClick ev s) =
      Line pointsSphere Stereo.SPHERE_COLOR #1 :: others /\
    length pointsSphere = 129%nat.
Proof.
  intros s p ev.
  assert ((distanceTo p Stereo.northPolePos <? dec 8 2) = false) as Hd
    by (vm_compute; reflexivity).
  split; [exact Hd|]. split; [reflexivity|].
  destruct (@longitude_projection_skips_pole _ _ ev s p []
              eq_refl eq_refl eq_refl Hd eq_refl eq_refl eq_refl) as [Hlen [_ E]].
  eexists. eexists. split; [exact E | exact Hlen].
Defined.

Lemma accepted_click_clears_first_witness :
  let s : Stereo.State PrimFloat.float :=
    Stereo.mkState false [Line [] Stereo.SPHERE_COLOR #1] true false false false in
  let p : Vector3 PrimFloat.float := V3 #0 #0 #0 in
  let ev := Stereo.mkClick true [p] in
  (distanceTo p Stereo.northPolePos <? dec 8 2) = false /\
  Stereo.onClick ev s = Stereo.mkState false [] false false false false.
Proof.
  intros s p ev.
  assert ((distanceTo p Stereo.northPolePos <? dec 8 2) = false) as Hd
    by (vm_compute; reflexivity).
  split; [exact Hd|].
  destruct (@accepted_click_clears_first _ _ ev s p [] eq_refl eq_refl eq_refl Hd)
    as [_ [_ Hidle]].
  apply Hidle; reflexivity.
Defined.

End Instances.

(** * Further properties *)

(** ** Clicks, mode changes and freeze, for every number system *)

Section FurtherStateMachines.
Context {num : Type} `{Number num}.
Local Open Scope js_scope.

(** X1: a click that is not on the canvas, or whose ray misses the sphere,
    leaves the state of either tool as it was. *)
Theorem missed_click_is_ignored (fuel : nat)
  (evh : Hopf.ClickEvent num) (sh : Hopf.State num)
  (evs : Stereo.ClickEvent num) (ss : Stereo.State num) :
  (Hopf.onCanvas evh = false \/ Hopf.intersects evh = []) ->
  (Stereo.onCanvas evs = false \/ Stereo.intersects evs = []) ->
  Hopf.onClick fuel evh sh = Some sh /\ Stereo.onClick evs ss = ss.
Proof.
  intros Hh Hs. split.
  - unfold Hopf.onClick. destruct (Hopf.holdScene sh); [reflexivity|].
    destruct Hh as [-> | ->]; [reflexivity|].
    destruct (Hopf.onCanvas evh); reflexivity.
  - unfold Stereo.onClick, Stereo.onClickWith. destruct (Stereo.isFrozen ss); [reflexivity|].
    destruct Hs as [-> | ->]; [reflexivity|].
    destruct (Stereo.onCanvas evs); reflexivity.
Qed.

(** X2: a click changes no mode flag, no checkbox and no freeze flag, in
    either tool, whatever it draws. *)
Theorem click_keeps_controls (fuel : nat)
  (evh : Hopf.ClickEvent num) (sh sh' : Hopf.State num)
  (evs : Stereo.ClickEvent num) (ss : Stereo.State num) :
  Hopf.onClick fuel evh sh = Some sh' ->
  hopfControls sh' = hopfControls sh /\
  stereoControls (Stereo.onClick evs ss) = stereoControls ss.
Proof.
  intros E. split.
  - apply (hopf_click_controls _ _ _ E).
  - apply stereo_click_controls.
Qed.

(** X3: in every state either tool reaches from page load, at most one of
    the three checkboxes is checked; in the Hopf tool the three mode flags
    are then equal to the three checkboxes. *)
Theorem reachable_modes_exclusive (fuel : nat) (sh : Hopf.State num) (ss : Stereo.State num) :
  hopfReachable fuel sh -> stereoReachable ss ->
  (hopfChecked sh <= 1)%nat /\
  Hopf.selectionMode sh = Hopf.pointToggle sh /\
  Hopf.longitudeMode sh = Hopf.longitudeToggle sh /\
  Hopf.latitudeMode sh = Hopf.latitudeToggle sh /\
  (stereoChecked ss <= 1)%nat.
Proof.
  intros Hh Hs.
  destruct (hopf_reachable_exclusive Hh) as [H1 [H2 [H3 H4]]].
  pose proof (stereo_reachable_exclusive Hs) as H5.
  repeat split; assumption.
Qed.

(** X4: the two tools differ on unchecking. In the Hopf tool every change
    of a checkbox, checking or unchecking, empties the four groups; in the
    stereographic tool unchecking a box changes that box and nothing else:
    the drawing and the warning stay. *)
Theorem uncheck_clears_only_in_hopf
  (th : Hopf.Toggle) (sh : Hopf.State num) (ts : Stereo.Toggle) (ss : Stereo.State num) :
  Stereo.checked ts ss = true ->
  hopfEmpty (Hopf.userToggle th sh) /\
  Stereo.userToggle ts ss = Stereo.setChecked ts false ss /\
  Stereo.projectGroup (Stereo.userToggle ts ss) = Stereo.projectGroup ss /\
  Stereo.warning (Stereo.userToggle ts ss) = Stereo.warning ss.
Proof.
  intros E. split; [apply hopf_userToggle_clears|].
  assert (Stereo.userToggle ts ss = Stereo.setChecked ts false ss) as Eu.
  { unfold Stereo.userToggle, Stereo.onChange. rewrite E.
    destruct ts, ss; reflexivity. }
  rewrite Eu. destruct ts, ss; repeat split.
Qed.

(** X5: freeze is orthogonal to the mode. Two clicks on the freeze button
    give the state back, and a change of a checkbox followed by a click on
    the freeze button is the same as the two in the other order, in either
    tool. *)
Theorem freeze_commutes_with_mode_change
  (th : Hopf.Toggle) (sh : Hopf.State num) (ts : Stereo.Toggle) (ss : Stereo.State num) :
  (Hopf.freezeClick (Hopf.freezeClick sh) = sh /\
   Hopf.freezeClick (Hopf.userToggle th sh) = Hopf.userToggle th (Hopf.freezeClick sh)) /\
  (Stereo.freezeClick (Stereo.freezeClick ss) = ss /\
   Stereo.freezeClick (Stereo.userToggle ts ss) = Stereo.userToggle ts (Stereo.freezeClick ss)).
Proof.
  destruct sh as [sel lon lat hold idx mk fb tr sl pt lt tt].
  destruct ss as [fr pg w spt slt stt].
  split; split.
  - unfold Hopf.freezeClick. simpl. rewrite negb_involutive. reflexivity.
  - destruct th, pt, lt, tt; reflexivity.
  - unfold Stereo.freezeClick. simpl. rewrite negb_involutive. reflexivity.
  - destruct ts, spt, slt, stt; reflexivity.
Qed.

End FurtherStateMachines.

(** ** What the reachable states hold *)

Section ReachableShape.
Context {num : Type} `{Number num}.
Local Open Scope js_scope.

Lemma createHopfFiber_torus_frame (fuel : nat) (n : Vector3 num) (color : Z)
  (s s' : Hopf.State num) :
  Hopf.createHopfFiber fuel n color Hopf.torusGroup s = Some s' ->
  Hopf.markers s' = Hopf.markers s /\ Hopf.fibers s' = Hopf.fibers s /\
  Hopf.sphereLines s' = Hopf.sphereLines s.
Proof.
  unfold Hopf.createHopfFiber.
  destruct (Hopf.getHopfFiberPoints fuel n Hopf.defaultSegments) as [points|]; simpl;
    [|discriminate].
  intros [= <-]. destruct s; repeat split.
Qed.

Lemma hopf_loop_torus_frame {A : Type}
  (body : list (Vector3 num) * Hopf.State num -> A -> option (list (Vector3 num) * Hopf.State num)) :
  (forall acc a acc', body acc a = Some acc' ->
     Hopf.markers (snd acc') = Hopf.markers (snd acc) /\
     Hopf.fibers (snd acc') = Hopf.fibers (snd acc)) ->
  forall l acc acc', foldM body l acc = Some acc' ->
    Hopf.markers (snd acc') = Hopf.markers (snd acc) /\
    Hopf.fibers (snd acc') = Hopf.fibers (snd acc).
Proof.
  intros Hbody.
  apply (foldM_preserves
           (fun acc acc' =>
              Hopf.markers (snd acc') = Hopf.markers (snd acc) /\
              Hopf.fibers (snd acc') = Hopf.fibers (snd acc))).
  - split; reflexivity.
  - intros b1 b2 b3 [E1 E2] [E3 E4]. rewrite E3, E4. split; assumption.
  - exact Hbody.
Qed.

Lemma hopf_longitudeBody_frame (fuel : nat) (phi : num)
  (acc : list (Vector3 num) * Hopf.State num) (i : nat)
  (acc' : list (Vector3 num) * Hopf.State num) :
  Hopf.longitudeBody fuel phi acc i = Some acc' ->
  Hopf.markers (snd acc') = Hopf.markers (snd acc) /\
  Hopf.fibers (snd acc') = Hopf.fibers (snd acc).
Proof.
  destruct acc as [pts s]. unfold Hopf.longitudeBody.
  destruct (i <=? 100)%nat.
  - destruct (Hopf.createHopfFiber fuel _ _ _ s) as [s1|] eqn:E; simpl; [|discriminate].
    intros [= <-]. simpl.
    destruct (createHopfFiber_torus_frame _ _ _ _ E) as [E1 [E2 _]].
    rewrite <- E1, <- E2. destruct s1; split; reflexivity.
  - intros [= <-]. split; reflexivity.
Qed.

Lemma hopf_latitudeBody_frame (fuel : nat) (r : num) (point : Vector3 num)
  (acc : list (Vector3 num) * Hopf.State num) (i : nat)
  (acc' : list (Vector3 num) * Hopf.State num) :
  Hopf.latitudeBody fuel r point acc i = Some acc' ->
  Hopf.markers (snd acc') = Hopf.markers (snd acc) /\
  Hopf.fibers (snd acc') = Hopf.fibers (snd acc).
Proof.
  destruct acc as [pts s]. unfold Hopf.latitudeBody.
  destruct (Hopf.createHopfFiber fuel _ _ _ s) as [s1|] eqn:E; simpl; [|discriminate].
  intros [= <-]. simpl.
  destruct (createHopfFiber_torus_frame _ _ _ _ E) as [E1 [E2 _]].
  rewrite <- E1, <- E2. destruct s1; split; reflexivity.
Qed.

(** The longitude and the latitude step either do nothing or leave one
    guide circle, and never touch the markers and the fibers of the point
    mode. *)
Lemma hopf_longitudeStep_shape (fuel : nat) (point : Vector3 num) (s s' : Hopf.State num) :
  Hopf.longitudeStep fuel point s = Some s' ->
  Hopf.markers s' = Hopf.markers s /\ Hopf.fibers s' = Hopf.fibers s /\
  (Hopf.sphereLines s' = Hopf.sphereLines s \/ length (Hopf.sphereLines s') = 1%nat).
Proof.
  unfold Hopf.longitudeStep, for_i_le. destruct (Hopf.longitudeMode s).
  - destruct (foldM _ _ _) as [[pts s1]|] eqn:E; simpl; [|discriminate].
    intros [= <-].
    destruct (hopf_loop_torus_frame _ (hopf_longitudeBody_frame fuel _) _ _ E) as [E1 E2].
    simpl in E1, E2. split; [|split].
    + transitivity (Hopf.markers s1); [destruct s1; reflexivity|].
      rewrite E1. destruct s; reflexivity.
    + transitivity (Hopf.fibers s1); [destruct s1; reflexivity|].
      rewrite E2. destruct s; reflexivity.
    + right. destruct s1; reflexivity.
  - intros [= <-]. repeat split. left. reflexivity.
Qed.

Lemma hopf_latitudeStep_shape (fuel : nat) (point : Vector3 num) (s s' : Hopf.State num) :
  Hopf.latitudeStep fuel point s = Some s' ->
  Hopf.markers s' = Hopf.markers s /\ Hopf.fibers s' = Hopf.fibers s /\
  (Hopf.sphereLines s' = Hopf.sphereLines s \/ length (Hopf.sphereLines s') = 1%nat).
Proof.
  unfold Hopf.latitudeStep, for_i_le. destruct (Hopf.latitudeMode s).
  - destruct (foldM _ _ _) as [[pts s1]|] eqn:E; simpl; [|discriminate].
    intros [= <-].
    destruct (hopf_loop_torus_frame _ (hopf_latitudeBody_frame fuel _ _) _ _ E) as [E1 E2].
    simpl in E1, E2. split; [|split].
    + transitivity (Hopf.markers s1); [destruct s1; reflexivity|].
      rewrite E1. destruct s; reflexivity.
    + transitivity (Hopf.fibers s1); [destruct s1; reflexivity|].
      rewrite E2. destruct s; reflexivity.
    + right. destruct s1; reflexivity.
  - intros [= <-]. repeat split. left. reflexivity.
Qed.

(** The point step adds one marker and one fiber, or nothing. *)
Lemma hopf_selectionStep_shape (fuel : nat) (point : Vector3 num) (s s' : Hopf.State num) :
  Hopf.selectionStep fuel point s = Some s' ->
  Hopf.sphereLines s' = Hopf.sphereLines s /\
  (length (Hopf.markers s') + length (Hopf.fibers s) =
   length (Hopf.markers s) + length (Hopf.fibers s'))%nat.
Proof.
  unfold Hopf.selectionStep. destruct (Hopf.selectionMode s).
  - unfold Hopf.createHopfFiber.
    destruct (Hopf.getHopfFiberPoints fuel point Hopf.defaultSegments) as [points|]; simpl;
      [|discriminate].
    intros [= <-]. destruct s; simpl. rewrite !length_app. simpl. split; [reflexivity | lia].
  - intros [= <-]. split; reflexivity.
Qed.

Lemma hopf_click_shape (fuel : nat) (ev : Hopf.ClickEvent num) (s s' : Hopf.State num) :
  Hopf.onClick fuel ev s = Some s' ->
  (length (Hopf.sphereLines s) <= 1)%nat ->
  length (Hopf.markers s) = length (Hopf.fibers s) ->
  (length (Hopf.sphereLines s') <= 1)%nat /\
  length (Hopf.markers s') = length (Hopf.fibers s').
Proof.
  unfold Hopf.onClick.
  destruct (Hopf.holdScene s); [intros [= <-]; auto|].
  destruct (Hopf.onCanvas ev); cbn [negb]; [|intros [= <-]; auto].
  destruct (Hopf.intersects ev) as [|hit rest]; [intros [= <-]; auto|].
  destruct (Hopf.selectionStep fuel _ s) as [s1|] eqn:E1; simpl; [|discriminate].
  destruct (Hopf.longitudeStep fuel _ s1) as [s2|] eqn:E2; simpl; [|discriminate].
  intros E3 Hl Hm.
  destruct (hopf_selectionStep_shape _ _ _ E1) as [A1 A2].
  destruct (hopf_longitudeStep_shape _ _ _ E2) as [B1 [B2 B3]].
  destruct (hopf_latitudeStep_shape _ _ _ E3) as [C1 [C2 C3]].
  split.
  - destruct C3 as [C3 | C3]; [rewrite C3 | lia].
    destruct B3 as [B3 | B3]; [rewrite B3, A1; exact Hl | lia].
  - rewrite C1, C2, B1, B2. lia.
Qed.

(** X6: in every state the Hopf tool reaches, the group of the guide
    circle holds at most one line, and there are as many markers as fibers
    of the point mode. *)
Theorem hopf_reachable_shape (fuel : nat) (s : Hopf.State num) :
  hopfReachable fuel s ->
  (length (Hopf.sphereLines s) <= 1)%nat /\
  length (Hopf.markers s) = length (Hopf.fibers s).
Proof.
  induction 1 as [|e s s' _ [IH1 IH2] Hstep].
  - split; [apply Nat.le_0_l | reflexivity].
  - destruct e as [t | | | ev]; simpl in Hstep.
    + injection Hstep as <-.
      destruct (hopf_userToggle_clears t s) as [E1 [E2 [_ E4]]].
      rewrite E1, E2, E4. split; [apply Nat.le_0_l | reflexivity].
    + injection Hstep as <-. split; [apply Nat.le_0_l | reflexivity].
    + injection Hstep as <-. destruct s; split; assumption.
    + apply (hopf_click_shape _ _ _ Hstep IH1 IH2).
Qed.

Lemma stereo_pointStep_length (project : Vector3 num -> Vector3 num)
  (p : Vector3 num) (s : Stereo.State num) :
  length (Stereo.projectGroup (Stereo.pointStep project p s)) =
  (length (Stereo.projectGroup s) + (if Stereo.togglePoint s then 3 else 0))%nat.
Proof.
  unfold Stereo.pointStep. destruct (Stereo.togglePoint s).
  - destruct s; simpl. rewrite !length_app. simpl. lia.
  - lia.
Qed.

Lemma stereo_latitudeStep_length (project : Vector3 num -> Vector3 num)
  (p : Vector3 num) (s : Stereo.State num) :
  length (Stereo.projectGroup (Stereo.latitudeStep project p s)) =
  (length (Stereo.projectGroup s) + (if Stereo.toggleLatitude s then 2 else 0))%nat.
Proof.
  unfold Stereo.latitudeStep. destruct (Stereo.toggleLatitude s); [|lia].
  destruct (fold_left _ _ _) as [pointsSphere pointsPlane].
  destruct s; simpl. rewrite !length_app. simpl. lia.
Qed.

Lemma stereo_longitudeStep_length (project : Vector3 num -> Vector3 num)
  (p : Vector3 num) (s : Stereo.State num) :
  (length (Stereo.projectGroup (Stereo.longitudeStep project p s)) <=
   length (Stereo.projectGroup s) + (if Stereo.toggleLongitude s then 2 else 0))%nat.
Proof.
  unfold Stereo.longitudeStep. destruct (Stereo.toggleLongitude s); [|lia].
  destruct (fold_left _ _ _) as [pointsSphere pointsPlane].
  destruct (1 <? length pointsPlane)%nat; destruct s; simpl; rewrite !length_app; simpl; lia.
Qed.

(** X7: the stereographic tool never accumulates: in every state it
    reaches, [projectGroup] holds at most three objects. *)
Theorem stereo_reachable_bounded (s : Stereo.State num) :
  stereoReachable s -> (length (Stereo.projectGroup s) <= 3)%nat.
Proof.
  intros Hr. assert (stereoChecked s <= 1 /\ length (Stereo.projectGroup s) <= 3)%nat
    as [_ Hlen]; [|exact Hlen].
  induction Hr as [|e s Hr [IHc IHl]].
  - split; vm_compute; lia.
  - split; [apply (stereo_reachable_exclusive (stereoReachable_step e Hr))|].
    destruct e as [t | | | ev]; cbn [stereoStep].
    + unfold Stereo.userToggle, Stereo.onChange.
      destruct (Stereo.checked t (Stereo.setChecked t (negb (Stereo.checked t s)) s)).
      * simpl. lia.
      * destruct t, s; exact IHl.
    + rewrite stereo_reset_state. simpl. lia.
    + destruct s; exact IHl.
    + unfold Stereo.onClick, Stereo.onClickWith.
      destruct (Stereo.isFrozen s); [exact IHl|].
      destruct (Stereo.onCanvas ev); cbn [negb]; [|exact IHl].
      destruct (Stereo.intersects ev) as [|p rest]; [exact IHl|].
      destruct (nltb _ _); [destruct s; exact IHl|]. cbv zeta.
      pose proof (stereo_longitudeStep_length Stereo.projectPoint p
        (Stereo.latitudeStep Stereo.projectPoint p
           (Stereo.pointStep Stereo.projectPoint p
              (Stereo.setProjectGroup [] (Stereo.setWarning false s))))) as H3.
      pose proof (stereo_latitudeStep_length Stereo.projectPoint p
        (Stereo.pointStep Stereo.projectPoint p
           (Stereo.setProjectGroup [] (Stereo.setWarning false s)))) as H2.
      pose proof (stereo_pointStep_length Stereo.projectPoint p
        (Stereo.setProjectGroup [] (Stereo.setWarning false s))) as H1.
      pose proof (stereo_latitudeStep_controls Stereo.projectPoint p
        (Stereo.pointStep Stereo.projectPoint p
           (Stereo.setProjectGroup [] (Stereo.setWarning false s)))) as C2.
      pose proof (stereo_pointStep_controls Stereo.projectPoint p
        (Stereo.setProjectGroup [] (Stereo.setWarning false s))) as C1.
      unfold stereoControls in C1, C2. simpl in C1.
      injection C1 as _ P1 P2 P3. injection C2 as _ Q1 Q2 Q3.
      rewrite Q2, P2 in H3. rewrite P3 in H2. simpl in H1.
      unfold stereoChecked, count3 in IHc.
      destruct (Stereo.togglePoint s), (Stereo.toggleLongitude s), (Stereo.toggleLatitude s);
        simpl in *; lia.
Qed.

End ReachableShape.

(** ** The point mode of the Hopf tool and its colour cycle *)

Section PointMode.
Context {num : Type} `{Number num}.
Local Open Scope js_scope.
Import Hopf.

(** X8: the colour of the next fiber is always an entry of the palette,
    and the cycle wraps: an index 12 higher gives the same colour. *)
Theorem colour_cycle_wraps (s : State num) (k : nat) :
  In (currentColor s) fiberColors /\
  currentColor (setFiberIndex (fiberIndex s + 12 * k) s) = currentColor s.
Proof.
  split.
  - unfold currentColor. apply nth_In. apply Nat.mod_upper_bound. discriminate.
  - unfold currentColor. destruct s as [sel lon lat hold idx mk fb tr sl pt lt tt].
    cbn [fiberIndex setFiberIndex].
    change (length fiberColors) with 12%nat.
    rewrite (Nat.mul_comm 12 k), Nat.Div0.mod_add. reflexivity.
Qed.

Variables (fuel : nat) (ts : list num).
Hypothesis Hts : fiberTimes fuel defaultSegments #0 = Some ts.

(** A click in point mode alone. *)
Lemma point_click (ev : ClickEvent num) (s : State num) (hit : Vector3 num)
  (rest : list (Vector3 num)) :
  holdScene s = false -> onCanvas ev = true -> intersects ev = hit :: rest ->
  selectionMode s = true -> longitudeMode s = false -> latitudeMode s = false ->
  onClick fuel ev s =
  Some (add fibersGroup
          (Line (map (fiberPoint (Math_acos (vz (normalize hit)))
                        (Math_atan2 (vy (normalize hit)) (vx (normalize hit)))) ts)
             (colorAt (fiberIndex s)) #1)
          (createMarker (normalize hit) (setFiberIndex (S (fiberIndex s)) s))).
Proof.
  intros Hh Hc Hi Hsel Hlon Hlat.
  rewrite (accepted_click_hopf fuel ev s Hh Hc Hi).
  unfold selectionStep. rewrite Hsel.
  rewrite (createHopfFiber_runs _ Hts). cbn [bind].
  rewrite longitudeStep_off_hopf by (destruct s; exact Hlon). cbn [bind].
  rewrite latitudeStep_off_hopf by (destruct s; exact Hlat).
  reflexivity.
Qed.

Lemma point_clicks (evs : list (ClickEvent num)) (s : State num) :
  Forall hopfAccepted evs ->
  holdScene s = false ->
  selectionMode s = true -> longitudeMode s = false -> latitudeMode s = false ->
  hopfClicks fuel evs s =
  Some (mkState true false false false (fiberIndex s + length evs)
          (markers s ++ map (Mesh (dec 15 3) 0x000000) (clickPoints evs))
          (fibers s ++ fiberLines ts (fiberIndex s) (clickPoints evs))
          (torus s) (sphereLines s)
          (pointToggle s) (longitudeToggle s) (latitudeToggle s)) /\
  length (clickPoints evs) = length evs.
Proof.
  intros Hacc. revert s. induction Hacc as [|ev evs [Hc Hi] _ IH]; intros s Hh Hsel Hlon Hlat.
  - unfold hopfClicks. simpl. rewrite Nat.add_0_r, !app_nil_r.
    destruct s; simpl in *; subst. split; reflexivity.
  - destruct (intersects ev) as [|hit rest] eqn:Ei; [contradiction Hi; reflexivity|].
    unfold hopfClicks in *. cbn [foldM].
    rewrite (point_click ev s Hh Hc Ei Hsel Hlon Hlat). cbn [bind].
    match goal with |- context [foldM _ evs ?s1] =>
      destruct (IH s1) as [E Hlen];
        [destruct s; assumption .. |]
    end.
    rewrite E. cbn [clickPoints flat_map]. rewrite Ei.
    fold (clickPoints evs). cbn [app length map fiberLines]. rewrite Hlen.
    split; [|reflexivity].
    destruct s as [sel lon lat hold idx mk fb tr sl pt lt tt].
    cbn -[colorAt fiberLines clickPoints]. rewrite <- !app_assoc. cbn [app].
    rewrite Nat.add_succ_r. reflexivity.
Qed.

End PointMode.

(** ** More of the Hopf tool on doubles *)

Section FurtherDoubles.
Context (m : Float.Libm).
#[local] Existing Instance Float.number.
Local Open Scope js_scope.
Import Hopf.

(** X9: on doubles, whatever the library functions, [createHopfFiber]
    returns for every vector, colour, group and state once it has fuel for
    the 1001 rounds: it appends to the group it is given one line of the
    1001 points of [getHopfFiberPoints] in that colour, and leaves the
    other groups and the rest of the state alone. *)
Theorem createHopfFiber_adds_one_line (extra : nat) (n : Vector3 PrimFloat.float)
  (color : Z) (g : Group) (s : State PrimFloat.float) :
  exists points s',
    getHopfFiberPoints (1002 + extra) n defaultSegments = Some points /\
    length points = 1001%nat /\
    createHopfFiber (1002 + extra) n color g s = Some s' /\
    children g s' = children g s ++ [Line points color #1] /\
    (forall g', g' <> g -> children g' s' = children g' s) /\
    fiberIndex s' = fiberIndex s /\
    hopfControls s' = hopfControls s.
Proof.
  destruct (getHopfFiberPoints_default_double m extra n) as [points [E Hlen]].
  exists points, (add g (Line points color #1) s).
  split; [exact E|]. split; [exact Hlen|].
  split; [unfold createHopfFiber; rewrite E; reflexivity|].
  split; [destruct g, s; reflexivity|].
  split; [|split; destruct g, s; reflexivity].
  intros g' Hne. destruct g, g', s; try reflexivity; contradiction Hne; reflexivity.
Qed.

(** X10: on doubles, a run of clicks in point mode accumulates: each
    click that reaches the sphere appends one marker at the normalized
    point and one fiber over it, coloured at the next position of the
    cycle; nothing drawn before is removed, and the torus group and the
    guide circle are not touched. *)
Theorem point_clicks_accumulate (extra : nat)
  (evs : list (ClickEvent PrimFloat.float)) (s : State PrimFloat.float) :
  Forall hopfAccepted evs ->
  holdScene s = false ->
  selectionMode s = true -> longitudeMode s = false -> latitudeMode s = false ->
  exists s',
    hopfClicks (1002 + extra) evs s = Some s' /\
    fiberIndex s' = (fiberIndex s + length evs)%nat /\
    markers s' = markers s ++ map (Mesh (dec 15 3) 0x000000) (clickPoints evs) /\
    length (clickPoints evs) = length evs /\
    (exists added, fibers s' = fibers s ++ added /\ length added = length evs) /\
    (forall j p, nth_error (clickPoints evs) j = Some p ->
       exists points,
         getHopfFiberPoints (1002 + extra) p defaultSegments = Some points /\
         nth_error (fibers s') (length (fibers s) + j) =
           Some (Line points (colorAt (fiberIndex s + j)) #1)) /\
    torus s' = torus s /\ sphereLines s' = sphereLines s /\
    hopfControls s' = hopfControls s.
Proof.
  intros Hacc Hh Hsel Hlon Hlat.
  destruct (double_default_terminates m extra) as [ts [Hts _]].
  destruct (@point_clicks _ _ _ _ Hts evs s Hacc Hh Hsel Hlon Hlat) as [E Hlen].
  eexists. split; [exact E|]. cbn [fiberIndex markers fibers torus sphereLines].
  split; [reflexivity|]. split; [reflexivity|]. split; [exact Hlen|].
  split; [|split; [|split; [reflexivity|split; [reflexivity|]]]].
  - eexists. split; [reflexivity|]. rewrite fiberLines_length. exact Hlen.
  - intros j p Hj. eexists. split.
    + rewrite getHopfFiberPoints_times, Hts. reflexivity.
    + rewrite nth_error_app2 by lia.
      replace (length (fibers s) + j - length (fibers s))%nat with j by lia.
      rewrite fiberLines_nth, Hj. reflexivity.
  - unfold hopfControls. cbn. rewrite Hh, Hsel, Hlon, Hlat. reflexivity.
Qed.

(** X11: on doubles, a click in longitude or in latitude mode replaces:
    the state it leaves does not depend on what the torus group and the
    group of the guide circle held before, and the markers and fibers of
    the point mode are kept. *)
Theorem mode_click_replaces (extra : nat)
  (ev : ClickEvent PrimFloat.float) (s : State PrimFloat.float)
  (hit : Vector3 PrimFloat.float) (rest : list (Vector3 PrimFloat.float))
  (oldTorus oldLines : list (Object3D PrimFloat.float)) :
  holdScene s = false -> onCanvas ev = true -> intersects ev = hit :: rest ->
  selectionMode s = false ->
  xorb (longitudeMode s) (latitudeMode s) = true ->
  exists s',
    onClick (1002 + extra) ev s = Some s' /\
    onClick (1002 + extra) ev
      (setChildren torusGroup oldTorus (setChildren sphereLinesGroup oldLines s)) = Some s' /\
    fibers s' = fibers s /\ markers s' = markers s.
Proof.
  intros Hh Hc Hi Hsel Hx.
  destruct (double_default_terminates m extra) as [ts [Hts _]].
  destruct (longitudeMode s) eqn:Hlon, (latitudeMode s) eqn:Hlat; try discriminate Hx.
  - eexists. split; [apply (longitude_click _ Hts ev s Hh Hc Hi Hsel Hlon Hlat)|].
    split.
    + rewrite (longitude_click _ Hts ev _ (hit := hit) (rest := rest));
        try (destruct s; assumption).
      destruct s; reflexivity.
    + split; destruct s; reflexivity.
  - eexists. split; [apply (latitude_click _ Hts ev s Hh Hc Hi Hsel Hlon Hlat)|].
    split.
    + rewrite (latitude_click _ Hts ev _ (hit := hit) (rest := rest));
        try (destruct s; assumption).
      destruct s; reflexivity.
    + split; destruct s; reflexivity.
Qed.

End FurtherDoubles.

(** ** The point and latitude modes of the stereographic tool *)

Section StereoModes.
Context {num : Type} `{Number num}.
Local Open Scope js_scope.
Import Stereo.

Lemma pointStep_draws (project : Vector3 num -> Vector3 num)
  (p : Vector3 num) (s : State num) :
  togglePoint s = true ->
  pointStep project p s =
  setProjectGroup
    (projectGroup s ++
     [Line [northPolePos; project p] 0x444444 #1;
      Mesh (dec 25 3) SPHERE_COLOR p;
      Mesh (dec 25 3) PLANE_COLOR (project p)]) s.
Proof.
  intros E. unfold pointStep. rewrite E. unfold drawLine, addMesh.
  destruct s; simpl. rewrite <- !app_assoc. reflexivity.
Qed.

(** X12: an accepted click of the stereographic tool in point mode leaves
    exactly the guide line from [northPolePos] to the projection of the
    clicked point, a marker on the clicked point and a marker on its
    projection; in latitude mode it leaves exactly two lines of 129 points,
    the circle at the height of the clicked point and, point for point and
    with none skipped, its projection. *)
Theorem point_and_latitude_clicks_draw (ev : ClickEvent num) (s : State num)
  (p : Vector3 num) (rest : list (Vector3 num)) :
  isFrozen s = false -> onCanvas ev = true -> intersects ev = p :: rest ->
  (distanceTo p northPolePos <? dec 8 2) = false ->
  (togglePoint s = true -> toggleLatitude s = false -> toggleLongitude s = false ->
   projectGroup (onClick ev s) = stereoPointObjects p) /\
  (toggleLatitude s = true -> togglePoint s = false -> toggleLongitude s = false ->
   let pointsSphere := map (latitudeSample (stereoLatitudeRadius p) p) (seq 0 129) in
   projectGroup (onClick ev s) =
     [Line pointsSphere SPHERE_COLOR #1;
      Line (map projectPoint pointsSphere) PLANE_COLOR #1] /\
   length pointsSphere = 129%nat /\
   Forall (fun sp => vy sp = vy p) pointsSphere).
Proof.
  intros Hf Hc Hi Hd. unfold onClick. rewrite (accepted_click _ ev s Hf Hc Hi Hd). split.
  - intros Hp Hlat Hlon.
    rewrite pointStep_draws by exact Hp.
    rewrite latitudeStep_off, longitudeStep_off by exact Hlat || exact Hlon.
    reflexivity.
  - intros Hlat Hp Hlon. cbv zeta.
    rewrite pointStep_off by exact Hp.
    rewrite latitudeStep_draws by exact Hlat.
    rewrite longitudeStep_off by exact Hlon.
    split; [reflexivity|]. split.
    + rewrite length_map, length_seq. reflexivity.
    + apply Forall_forall. intros sp Hin. apply in_map_iff in Hin.
      destruct Hin as [i [<- _]]. reflexivity.
Qed.

End StereoModes.

(** ** The Hopf fibers in exact arithmetic *)

Section HopfGeometry.
#[local] Existing Instance Ideal.number.
Local Open Scope R_scope.
Import Geometry.

Lemma inverse_root (a b : R) :
  a <> 0 -> 1 / sqrt (1 + (b / a)²) = Rabs a / sqrt (a * a + b * b).
Proof.
  intros Ha.
  assert (0 < a * a) as Haa by nra.
  assert (0 <= b * b) as Hbb by nra.
  replace (1 + (b / a)²) with ((a * a + b * b) / (a * a)) by (unfold Rsqr; field; exact Ha).
  rewrite sqrt_div by lra.
  change (a * a) with (Rsqr a) at 2. rewrite sqrt_Rsqr_abs.
  assert (0 < sqrt (a * a + b * b)) as Hrho by (apply sqrt_lt_R0; lra).
  assert (Rabs a <> 0) as Habs by (apply Rabs_no_R0; exact Ha).
  field. split; [lra | exact Habs].
Qed.

Lemma cos_atan_ratio (a b : R) :
  a <> 0 -> cos (atan (b / a)) = Rabs a / sqrt (a * a + b * b).
Proof. intros Ha. rewrite cos_atan. apply inverse_root. exact Ha. Qed.

Lemma sin_atan_ratio (a b : R) :
  a <> 0 -> sin (atan (b / a)) = b / a * (Rabs a / sqrt (a * a + b * b)).
Proof.
  intros Ha. rewrite sin_atan, <- (inverse_root b Ha).
  assert (0 < sqrt (1 + (b / a)²)) as Hpos.
  { apply sqrt_lt_R0. pose proof (Rle_0_sqr (b / a)). lra. }
  field. split; lra.
Qed.

(** [Ideal.atan2 b a] is the angle of the direction (a, b). *)
Lemma atan2_direction (b a : R) :
  a <> 0 \/ b <> 0 ->
  cos (Ideal.atan2 b a) = a / sqrt (a * a + b * b) /\
  sin (Ideal.atan2 b a) = b / sqrt (a * a + b * b).
Proof.
  intros Hne. unfold Ideal.atan2.
  assert (0 <= a * a) as Haa by nra. assert (0 <= b * b) as Hbb by nra.
  destruct (Rlt_dec 0 a) as [Hpos | Hnpos].
  - assert (a <> 0) as Ha by lra.
    assert (0 < sqrt (a * a + b * b)) as Hrho by (apply sqrt_lt_R0; nra).
    rewrite (cos_atan_ratio b Ha), (sin_atan_ratio b Ha), (Rabs_right a) by lra.
    split; field; lra.
  - destruct (Rlt_dec a 0) as [Hneg | Hnneg].
    + assert (a <> 0) as Ha by lra.
      assert (0 < sqrt (a * a + b * b)) as Hrho by (apply sqrt_lt_R0; nra).
      destruct (Rle_dec 0 b).
      * rewrite neg_cos, neg_sin, (cos_atan_ratio b Ha), (sin_atan_ratio b Ha),
          (Rabs_left a) by lra.
        split; field; lra.
      * rewrite cos_minus, sin_minus, cos_PI, sin_PI, (cos_atan_ratio b Ha),
          (sin_atan_ratio b Ha), (Rabs_left a) by lra.
        split; field; lra.
    + assert (a = 0) as Ha by lra. subst a.
      assert (b <> 0) as Hb by (destruct Hne; [lra | assumption]).
      replace (0 * 0 + b * b) with (Rsqr b) by (unfold Rsqr; ring).
      rewrite sqrt_Rsqr_abs.
      destruct (Rlt_dec 0 b) as [Hbpos | Hbnpos].
      * rewrite cos_PI2, sin_PI2, (Rabs_right b) by lra. split; field; lra.
      * destruct (Rlt_dec b 0) as [Hbneg | Hbnneg]; [|lra].
        rewrite cos_neg, sin_neg, cos_PI2, sin_PI2, (Rabs_left b) by lra.
        split; field; lra.
Qed.

(** The direction (a, b) is in the plane of its angle. *)
Lemma atan2_in_plane (b a : R) :
  a * sin (Ideal.atan2 b a) = b * cos (Ideal.atan2 b a).
Proof.
  destruct (Req_dec_T a 0) as [Ha | Ha]; [destruct (Req_dec_T b 0) as [Hb | Hb]|].
  - subst a b. ring.
  - destruct (@atan2_direction b a (or_intror Hb)) as [Hc Hs]. rewrite Hc, Hs.
    assert (0 < sqrt (a * a + b * b)) as Hrho by (apply sqrt_lt_R0; nra).
    field. lra.
  - destruct (@atan2_direction b a (or_introl Ha)) as [Hc Hs]. rewrite Hc, Hs.
    assert (0 < sqrt (a * a + b * b)) as Hrho by (apply sqrt_lt_R0; nra).
    field. lra.
Qed.

Lemma fiberPoint4_coordinates (theta phi t : R) :
  fiberPoint4 theta phi t =
  (cos (theta / 2) * cos t, cos (theta / 2) * sin t,
   sin (theta / 2) * cos (t + phi), sin (theta / 2) * sin (t + phi)).
Proof. reflexivity. Qed.

(** Along the curve the Hopf map is constant. *)
Lemma hopfMap_fiberPoint4 (theta phi t : R) :
  hopfMap (fiberPoint4 theta phi t) =
  V3 (sin theta * cos phi) (sin theta * sin phi) (cos theta).
Proof.
  rewrite fiberPoint4_coordinates. unfold hopfMap.
  assert (sin theta = 2 * sin (theta / 2) * cos (theta / 2)) as Hsin
    by (rewrite <- sin_2a; f_equal; field).
  assert (cos theta = cos (theta / 2) * cos (theta / 2) - sin (theta / 2) * sin (theta / 2))
    as Hcos by (rewrite <- cos_2a; f_equal; field).
  rewrite Hsin, Hcos, cos_plus, sin_plus.
  pose proof (sin2_cos2 t) as Ht. unfold Rsqr in Ht.
  set (c := cos (theta / 2)) in *. set (s := sin (theta / 2)) in *.
  set (ct := cos t) in *. set (st := sin t) in *.
  f_equal.
  - transitivity (2 * s * c * cos phi * (st * st + ct * ct)); [ring | rewrite Ht; ring].
  - transitivity (2 * s * c * sin phi * (st * st + ct * ct)); [ring | rewrite Ht; ring].
  - pose proof (sin2_cos2 phi) as Hp. unfold Rsqr in Hp.
    transitivity (c * c * (st * st + ct * ct)
                  - s * s * ((st * st + ct * ct) * (sin phi * sin phi + cos phi * cos phi)));
      [ring | rewrite Ht, Hp; ring].
Qed.

Lemma unit_bounds (n : Vector3 R) : unit n -> -1 <= vz n <= 1.
Proof.
  unfold unit. destruct n as [x y z]. simpl. intros Hu.
  assert (0 <= x * x) by nra. assert (0 <= y * y) by nra. split; nra.
Qed.

(** For a unit vector the angles that [getHopfFiberPoints] takes of it
    give it back. *)
Lemma angles_of_unit (n : Vector3 R) :
  unit n ->
  let theta := Ratan.acos (vz n) in
  let phi := Ideal.atan2 (vy n) (vx n) in
  V3 (sin theta * cos phi) (sin theta * sin phi) (cos theta) = n.
Proof.
  intros Hu theta phi. pose proof (unit_bounds Hu) as Hz.
  unfold theta. rewrite cos_acos, sin_acos by exact Hz.
  destruct n as [x y z]. unfold unit in Hu. simpl in *.
  replace (1 - z²) with (x * x + y * y) by (unfold Rsqr; lra).
  destruct (Req_dec_T x 0) as [Hx | Hx]; [destruct (Req_dec_T y 0) as [Hy | Hy]|].
  - subst x y. replace (0 * 0 + 0 * 0) with 0 by ring. rewrite sqrt_0.
    f_equal; ring.
  - destruct (@atan2_direction y x (or_intror Hy)) as [Hc Hs]. unfold phi.
    rewrite Hc, Hs.
    assert (0 < sqrt (x * x + y * y)) as Hrho by (apply sqrt_lt_R0; nra).
    f_equal; field; lra.
  - destruct (@atan2_direction y x (or_introl Hx)) as [Hc Hs]. unfold phi.
    rewrite Hc, Hs.
    assert (0 < sqrt (x * x + y * y)) as Hrho by (apply sqrt_lt_R0; nra).
    f_equal; field; lra.
Qed.

(** X21: getHopfFiberPoints does compute a Hopf fiber, in exact
    arithmetic: for every [t] the four coordinates it computes are a point
    of the unit 3-sphere, the point it returns is that point divided by
    the clamped [1 - w4], and for a unit vector [n] the Hopf map sends the
    4D point to [n], whatever [t]. *)
Theorem fiber_lies_over_its_base_point (n : Vector3 R) (t : R) :
  unit n ->
  let theta := Ratan.acos (vz n) in
  let phi := Ideal.atan2 (vy n) (vx n) in
  let q := fiberPoint4 theta phi t in
  let x4 := fst (fst (fst q)) in
  let y4 := snd (fst (fst q)) in
  let z4 := snd (fst q) in
  let w4 := snd q in
  let d := Rmax (1 - w4) (1 / 10000) in
  x4 * x4 + y4 * y4 + z4 * z4 + w4 * w4 = 1 /\
  hopfMap q = n /\
  Hopf.fiberPoint theta phi t = V3 (x4 / d) (y4 / d) (z4 / d).
Proof.
  intros Hu theta phi q x4 y4 z4 w4 d. split; [|split].
  - unfold x4, y4, z4, w4, q. rewrite fiberPoint4_coordinates. cbn [fst snd].
    pose proof (sin2_cos2 t) as Ht. pose proof (sin2_cos2 (t + phi)) as Htp.
    pose proof (sin2_cos2 (theta / 2)) as Hh. unfold Rsqr in *.
    set (c := cos (theta / 2)) in *. set (s := sin (theta / 2)) in *.
    transitivity (c * c * (sin t * sin t + cos t * cos t)
                  + s * s * (sin (t + phi) * sin (t + phi) + cos (t + phi) * cos (t + phi)));
      [ring | rewrite Ht, Htp; lra].
  - unfold q. rewrite hopfMap_fiberPoint4. apply angles_of_unit. exact Hu.
  - reflexivity.
Qed.

End HopfGeometry.

(** ** The stereographic projection in exact arithmetic *)

Section StereoGeometry.
#[local] Existing Instance Ideal.number.
Local Open Scope R_scope.
Import Geometry.

Lemma projectPoint_coordinates (p : Vector3 R) :
  Stereo.projectPoint p =
  V3 (0 + (vx p - 0) * (- (1 * 2) / (vy p - 1 * 2))) 0
     (0 + (vz p - 0) * (- (1 * 2) / (vy p - 1 * 2))).
Proof. reflexivity. Qed.

(** X13: in exact arithmetic, for a point [p] that is not at the height of
    [northPolePos], [projectPoint p] is the point where the line from
    [northPolePos] through [p] meets the plane y = 0: it is
    [northPolePos + t (p - northPolePos)] with [t = 2 / (2 - p.y)], in all
    three coordinates. *)
Theorem projectPoint_meets_the_plane (p : Vector3 R) :
  vy p <> 2 ->
  let q := Stereo.projectPoint p in
  let N := Stereo.northPolePos in
  let t := 2 / (2 - vy p) in
  vx q = vx N + t * (vx p - vx N) /\
  vy q = vy N + t * (vy p - vy N) /\
  vz q = vz N + t * (vz p - vz N) /\
  vy q = 0.
Proof.
  intros Hy q N t. unfold q, N, t. rewrite projectPoint_coordinates. simpl.
  repeat split; field; lra.
Qed.

Lemma projectPoint_on_plane (q : Vector3 R) : vy q = 0 -> Stereo.projectPoint q = q.
Proof.
  destruct q as [x y z]. intros Hy. simpl in Hy. subst y.
  rewrite projectPoint_coordinates. simpl. f_equal; field.
Qed.

(** X14: in exact arithmetic [projectPoint] leaves every point of the
    plane y = 0 where it is, the contact point of the sphere among them,
    and for a point that is not at the height of [northPolePos], where
    the code divides by zero, projecting twice is projecting once. *)
Theorem projectPoint_fixes_the_plane (p : Vector3 R) :
  (vy p = 0 -> Stereo.projectPoint p = p) /\
  Stereo.projectPoint (V3 0 0 0) = V3 0 0 0 /\
  (vy p <> 2 -> Stereo.projectPoint (Stereo.projectPoint p) = Stereo.projectPoint p).
Proof.
  split; [apply projectPoint_on_plane|].
  split; [apply projectPoint_on_plane; reflexivity|].
  intros _. apply projectPoint_on_plane. reflexivity.
Qed.

Lemma stereoLatitudeRadius_value (p : Vector3 R) :
  stereoLatitudeRadius p = sqrt (Rmax 0 (1 * 1 - (vy p - 1) * (vy p - 1))).
Proof. reflexivity. Qed.

Lemma stereoLatitudeRadius_section (p : Vector3 R) :
  0 <= vy p <= 2 ->
  stereoLatitudeRadius p * stereoLatitudeRadius p + (vy p - 1) * (vy p - 1) = 1.
Proof.
  intros Hy. rewrite stereoLatitudeRadius_value.
  assert (0 <= 1 * 1 - (vy p - 1) * (vy p - 1)) as Ha by nra.
  rewrite Rmax_right by exact Ha. rewrite sqrt_sqrt by exact Ha. ring.
Qed.

(** X15: the radius of the latitude circle, in exact arithmetic: it is
    between 0 and 1, it is 1 for a click on the equator, 0 for a click at
    the height of a pole and, by the clamp, 0 for any height outside the
    sphere; for a height on the sphere it is the radius of the sphere's
    section at that height. *)
Theorem latitude_radius_values (p : Vector3 R) :
  let r := stereoLatitudeRadius p in
  0 <= r <= 1 /\
  (vy p = 1 -> r = 1) /\
  (vy p <= 0 \/ 2 <= vy p -> r = 0) /\
  (0 <= vy p <= 2 -> r * r + (vy p - 1) * (vy p - 1) = 1).
Proof.
  intros r. unfold r. rewrite stereoLatitudeRadius_value.
  set (a := 1 * 1 - (vy p - 1) * (vy p - 1)).
  assert (0 <= (vy p - 1) * (vy p - 1)) as Hsq by apply Rle_0_sqr.
  assert (a <= 1) as Ha by (unfold a; lra).
  assert (0 <= Rmax 0 a <= 1) as Hm.
  { split; [apply Rmax_l | apply Rmax_lub; lra]. }
  split; [|split; [|split]].
  - split; [apply sqrt_pos|].
    rewrite <- sqrt_1. apply sqrt_le_1_alt. lra.
  - intros Hy. replace (Rmax 0 a) with 1; [apply sqrt_1|].
    unfold a. rewrite Hy. rewrite Rmax_right; lra.
  - intros Hy. replace (Rmax 0 a) with 0; [apply sqrt_0|].
    rewrite Rmax_left; [reflexivity|]. unfold a. destruct Hy; nra.
  - intros Hy. rewrite sqrt_sqrt by lra.
    rewrite Rmax_right; unfold a; nra.
Qed.

Lemma sin2_cos2_mult (x : R) : sin x * sin x + cos x * cos x = 1.
Proof. exact (sin2_cos2 x). Qed.

(** X16: the latitude mode in exact arithmetic, for a clicked point at a
    height of the sphere other than the north pole's: every sampled point
    is on the sphere, and the projected polyline is on a circle of the
    plane around the contact point, of radius [2 r / (2 - p.y)]. *)
Theorem latitude_circle_projects_to_circle (p : Vector3 R) (i : nat) :
  0 <= vy p < 2 ->
  let r := stereoLatitudeRadius p in
  let sp := Stereo.latitudeSample r p i in
  let q := Stereo.projectPoint sp in
  onSphere sp /\
  vy q = 0 /\
  vx q * vx q + vz q * vz q = (2 * r / (2 - vy p)) * (2 * r / (2 - vy p)).
Proof.
  intros Hy r sp q.
  assert (0 <= vy p <= 2) as Hy' by lra.
  pose proof (stereoLatitudeRadius_section p Hy') as Hr. fold r in Hr.
  clearbody r. unfold q, sp. rewrite projectPoint_coordinates.
  unfold onSphere, Stereo.latitudeSample. simpl.
  set (a := sin _). set (b := cos _).
  assert (a * a + b * b = 1) as Hab by apply sin2_cos2_mult.
  split; [nra|]. split; [reflexivity|].
  replace (- (1 * 2) / (vy p - 1 * 2)) with (2 / (2 - vy p)) by (field; lra).
  replace (2 * r / (2 - vy p)) with (r * (2 / (2 - vy p))) by (field; lra).
  set (t := 2 / (2 - vy p)).
  transitivity (r * t * (r * t) * (a * a + b * b)); [ring | rewrite Hab; ring].
Qed.

End StereoGeometry.

Section StereoLongitude.
#[local] Existing Instance Ideal.number.
Local Open Scope R_scope.
Import Geometry.

Lemma stereo_longitudeSample_coordinates (angle : R) (i : nat) :
  Stereo.longitudeSample angle i =
  V3 (1 * cos (IZR (Z.of_nat i) / 128 * PI * 2) * cos angle)
     (1 * sin (IZR (Z.of_nat i) / 128 * PI * 2) + 1)
     (1 * cos (IZR (Z.of_nat i) / 128 * PI * 2) * sin angle).
Proof. reflexivity. Qed.

Lemma onSphere_pole_distance (v : Vector3 R) :
  onSphere v -> distanceToSquared v Stereo.northPolePos = 2 * (2 - vy v).
Proof.
  unfold onSphere, distanceToSquared. destruct v as [x y z]. simpl. intros Hs. nra.
Qed.

Lemma onSphere_bounds (v : Vector3 R) :
  onSphere v -> -1 <= vx v <= 1 /\ 0 <= vy v <= 2 /\ -1 <= vz v <= 1.
Proof.
  unfold onSphere. destruct v as [x y z]. simpl. intros Hs.
  pose proof (Rle_0_sqr x) as Hx. pose proof (Rle_0_sqr (y - 1)) as Hy.
  pose proof (Rle_0_sqr z) as Hz. unfold Rsqr in *.
  repeat split; nra.
Qed.

Lemma stereo_longitudeSample_onSphere (angle : R) (i : nat) :
  onSphere (Stereo.longitudeSample angle i).
Proof.
  rewrite stereo_longitudeSample_coordinates. unfold onSphere. cbn [vx vy vz].
  set (phi := IZR (Z.of_nat i) / 128 * PI * 2).
  pose proof (sin2_cos2_mult phi) as Hp. pose proof (sin2_cos2_mult angle) as Ha.
  transitivity (sin phi * sin phi + cos phi * cos phi * (sin angle * sin angle + cos angle * cos angle));
    [ring | rewrite Ha; lra].
Qed.

Lemma far_iff (v : Vector3 R) :
  farFromPole v = true <-> 5 / 100 < sqrt (distanceToSquared v Stereo.northPolePos).
Proof.
  unfold farFromPole, distanceTo.
  change (nltb (dec 5 2) (Math_sqrt (distanceToSquared v Stereo.northPolePos)))
    with (Ideal.ltb (5 / 100) (sqrt (distanceToSquared v Stereo.northPolePos))).
  unfold Ideal.ltb. destruct (Rlt_dec _ _); split; intros; try assumption; try reflexivity;
    try discriminate; contradiction.
Qed.

Lemma sqrt_above (a d : R) : 0 <= a -> a < sqrt d -> a * a < d.
Proof.
  intros Ha Hlt.
  destruct (Rle_lt_dec d 0) as [Hd | Hd].
  - rewrite (sqrt_neg_0 d Hd) in Hlt. lra.
  - rewrite <- (sqrt_sqrt d) by lra. nra.
Qed.

(** A point of the sphere that passes the test of the longitude loop
    lies more than 0.00125 below the pole. *)
Lemma far_below_pole (v : Vector3 R) :
  onSphere v -> farFromPole v = true -> 1 / 800 < 2 - vy v.
Proof.
  intros Hs Hfar. apply far_iff in Hfar. apply sqrt_above in Hfar; [|lra].
  rewrite (onSphere_pole_distance Hs) in Hfar. lra.
Qed.

(** X17: the longitude mode in exact arithmetic, for the clicked point
    [p]: every sampled point is on the sphere and in the vertical plane
    through the axis of the sphere that contains [p]; and every sampled
    point that the loop projects, those that pass the test
    [distanceTo(sp, northPolePos) > 0.05], is below the pole, so that the
    projection divides by a number other than zero, and its projection
    is, in the plane y = 0, on the straight line through the contact
    point of direction (cos angle, sin angle): longitude circles project
    into straight lines. *)
Theorem longitude_circle_projects_to_line (p : Vector3 R) (i : nat) :
  let angle := Ideal.atan2 (vz p) (vx p) in
  let sp := Stereo.longitudeSample angle i in
  let q := Stereo.projectPoint sp in
  onSphere sp /\
  vx p * sin angle = vz p * cos angle /\
  vx sp * sin angle = vz sp * cos angle /\
  (farFromPole sp = true ->
   vy sp < 2 /\
   vy q = 0 /\
   vx q * sin angle = vz q * cos angle).
Proof.
  intros angle sp q.
  pose proof (stereo_longitudeSample_onSphere angle i) as Hs. fold sp in Hs.
  split; [exact Hs|].
  split; [apply atan2_in_plane|].
  split.
  - unfold sp. rewrite stereo_longitudeSample_coordinates. cbn [vx vy vz]. ring.
  - intros Hfar. pose proof (far_below_pole Hs Hfar) as Hy.
    split; [lra|].
    unfold q, sp. rewrite projectPoint_coordinates, stereo_longitudeSample_coordinates.
    cbn [vx vy vz]. split; ring.
Qed.

Lemma quarter_turn : 32 / 128 * PI * 2 = PI / 2.
Proof. field. Qed.

Lemma three_quarter_turn : 96 / 128 * PI * 2 = 3 * (PI / 2).
Proof. field. Qed.

Lemma stereo_longitudeSample_96 (angle : R) : Stereo.longitudeSample angle 96 = V3 0 0 0.
Proof.
  rewrite stereo_longitudeSample_coordinates.
  change (IZR (Z.of_nat 96)) with 96. rewrite three_quarter_turn, cos_3PI2, sin_3PI2.
  f_equal; ring.
Qed.

(** X18: the longitude curve passes through both poles, in exact
    arithmetic: the sample of index 32 is [northPolePos] itself, it fails
    the distance test and is not projected, so the plane-side polyline has
    at most 128 points; the sample of index 96 is the contact point of the
    sphere with the plane, which is its own projection. *)
Theorem longitude_curve_through_the_poles (angle : R) :
  Stereo.longitudeSample angle 32 = Stereo.northPolePos /\
  farFromPole (Stereo.longitudeSample angle 32) = false /\
  (length (filter farFromPole (map (Stereo.longitudeSample angle) (seq 0 129))) <= 128)%nat /\
  Stereo.longitudeSample angle 96 = V3 0 0 0 /\
  Stereo.projectPoint (Stereo.longitudeSample angle 96) = V3 0 0 0.
Proof.
  assert (Stereo.longitudeSample angle 32 = Stereo.northPolePos) as E32.
  { rewrite stereo_longitudeSample_coordinates.
    change (IZR (Z.of_nat 32)) with 32. rewrite quarter_turn, cos_PI2, sin_PI2.
    unfold Stereo.northPolePos, Stereo.radius. simpl. f_equal; ring. }
  assert (farFromPole (Stereo.longitudeSample angle 32) = false) as F32.
  { destruct (farFromPole (Stereo.longitudeSample angle 32)) eqn:E; [|reflexivity].
    apply far_iff in E. rewrite E32 in E.
    unfold distanceToSquared, Stereo.northPolePos, Stereo.radius in E. simpl in E.
    replace ((0 - 0) * (0 - 0) + (1 * 2 - 1 * 2) * (1 * 2 - 1 * 2) + (0 - 0) * (0 - 0))
      with 0 in E by ring.
    rewrite sqrt_0 in E. lra. }
  pose proof (stereo_longitudeSample_96 angle) as E96.
  split; [exact E32|]. split; [exact F32|]. split; [|split; [exact E96|]].
  - change (seq 0 129) with (seq 0 32 ++ [32%nat] ++ seq 33 96).
    rewrite !map_app, !filter_app, !length_app.
    cbn [map filter]. rewrite F32. cbn [length].
    pose proof (filter_length_le farFromPole (map (Stereo.longitudeSample angle) (seq 0 32))) as H1.
    pose proof (filter_length_le farFromPole (map (Stereo.longitudeSample angle) (seq 33 96))) as H2.
    rewrite length_map, length_seq in H1, H2. lia.
  - rewrite E96. apply projectPoint_on_plane. reflexivity.
Qed.

Lemma projection_bounded (v : Vector3 R) (c : R) :
  onSphere v -> 0 < c -> c <= 2 - vy v ->
  Rabs (vx (Stereo.projectPoint v)) <= 2 / c /\
  Rabs (vz (Stereo.projectPoint v)) <= 2 / c.
Proof.
  intros Hs Hc Hy. destruct (onSphere_bounds Hs) as [Hx [_ Hz]].
  rewrite projectPoint_coordinates. cbn [vx vz].
  replace (- (1 * 2) / (vy v - 1 * 2)) with (2 / (2 - vy v)) by (field; lra).
  assert (0 < 2 / (2 - vy v) <= 2 / c) as Ht.
  { split; [apply Rdiv_lt_0_compat; lra|].
    unfold Rdiv. apply Rmult_le_compat_l; [lra|]. apply Rinv_le_contravar; lra. }
  set (t := 2 / (2 - vy v)) in *.
  split; apply Rabs_le; split; nra.
Qed.

(** X19: the test of the longitude loop keeps the division of
    [projectPoint] away from zero, in exact arithmetic: a sampled point
    that passes [distanceTo(sp, northPolePos) > 0.05] lies more than
    0.00125 below the pole, and its projection is within 1600 of the
    contact point in both coordinates. *)
Theorem longitude_guard_bounds_projection (angle : R) (i : nat) :
  let sp := Stereo.longitudeSample angle i in
  farFromPole sp = true ->
  vy (subVectors sp Stereo.northPolePos) < - (1 / 800) /\
  Rabs (vx (Stereo.projectPoint sp)) <= 1600 /\
  Rabs (vz (Stereo.projectPoint sp)) <= 1600.
Proof.
  intros sp Hfar. pose proof (stereo_longitudeSample_onSphere angle i) as Hs. fold sp in Hs.
  clearbody sp. apply far_iff in Hfar. apply sqrt_above in Hfar; [|lra].
  rewrite (onSphere_pole_distance Hs) in Hfar.
  assert (1 / 800 < 2 - vy sp) as Hy by lra.
  split; [destruct sp as [x y z]; unfold subVectors, Stereo.northPolePos, Stereo.radius; simpl in *; lra|].
  replace 1600 with (2 / (1 / 800)) by field.
  apply projection_bounded; [exact Hs | lra | lra].
Qed.

(** X20: the guard of the click handler does the same for the clicked
    point: in exact arithmetic a point of the sphere that is not closer
    than 0.08 to [northPolePos] lies at least 0.0032 below it, so the
    projection of the point mode, and every projection of the latitude
    mode, which is taken at the same height, divides by a number of
    absolute value at least 0.0032; the projection of the clicked point is
    within 625 of the contact point. *)
Theorem click_guard_bounds_projection (p : Vector3 R) (i : nat) :
  onSphere p ->
  nltb (distanceTo p Stereo.northPolePos) (dec 8 2) = false ->
  vy (subVectors p Stereo.northPolePos) <= - (32 / 10000) /\
  vy (subVectors (Stereo.latitudeSample (stereoLatitudeRadius p) p i) Stereo.northPolePos)
    <= - (32 / 10000) /\
  Rabs (vx (Stereo.projectPoint p)) <= 625 /\
  Rabs (vz (Stereo.projectPoint p)) <= 625.
Proof.
  intros Hs Hd.
  assert (8 / 100 <= sqrt (distanceToSquared p Stereo.northPolePos)) as Hge.
  { change (nltb (distanceTo p Stereo.northPolePos) (dec 8 2))
      with (Ideal.ltb (sqrt (distanceToSquared p Stereo.northPolePos)) (8 / 100)) in Hd.
    unfold Ideal.ltb in Hd. destruct (Rlt_dec _ _); [discriminate | lra]. }
  assert (8 / 100 * (8 / 100) <= distanceToSquared p Stereo.northPolePos) as Hsq.
  { destruct (Rle_lt_dec (distanceToSquared p Stereo.northPolePos) 0) as [H0 | H0].
    - rewrite (sqrt_neg_0 _ H0) in Hge. lra.
    - rewrite <- (sqrt_sqrt (distanceToSquared p Stereo.northPolePos)) by lra. nra. }
  rewrite (onSphere_pole_distance Hs) in Hsq.
  assert (32 / 10000 <= 2 - vy p) as Hy by lra.
  split; [destruct p as [x y z]; unfold subVectors, Stereo.northPolePos, Stereo.radius; simpl in *; lra|].
  split; [destruct p as [x y z]; unfold subVectors, Stereo.northPolePos, Stereo.radius,
            Stereo.latitudeSample; cbn [vy] in *; simpl; lra|].
  replace 625 with (2 / (32 / 10000)) by field.
  apply projection_bounded; [exact Hs | lra | lra].
Qed.

End StereoLongitude.

Section HopfCurves.
#[local] Existing Instance Ideal.number.
Local Open Scope R_scope.
Import Geometry.

Lemma normalize_unit (hit : Vector3 R) :
  length3 hit <> 0 -> unit (normalize hit).
Proof.
  intros Hl. unfold normalize.
  change (truthy (length3 hit)) with (Ideal.toBoolean (length3 hit)).
  unfold Ideal.toBoolean. destruct (Req_dec_T (length3 hit) 0) as [E | _]; [contradiction|].
  unfold unit, divideScalar, multiplyScalar. cbn [vx vy vz].
  change (ndiv (of_Z 1) (length3 hit)) with (1 / length3 hit).
  change nmul with Rmult.
  assert (length3 hit * length3 hit = vx hit * vx hit + vy hit * vy hit + vz hit * vz hit)
    as Hsq.
  { unfold length3. change Math_sqrt with sqrt. change nmul with Rmult. change nadd with Rplus.
    apply sqrt_sqrt. nra. }
  set (l := length3 hit) in *.
  transitivity ((vx hit * vx hit + vy hit * vy hit + vz hit * vz hit) / (l * l));
    [field; exact Hl | rewrite <- Hsq; field; exact Hl].
Qed.

(** X22: the clicked point and the guide circles of the Hopf tool, in
    exact arithmetic: for a hit other than the origin the point the
    handler works with is a unit vector, and every point sampled for it in
    longitude mode and in latitude mode is a unit vector too, the
    longitude ones in the plane through the axis that contains the clicked
    point, the latitude ones at its height. *)
Theorem hopf_samples_on_the_sphere (hit : Vector3 R) (i : nat) :
  length3 hit <> 0 ->
  let point := normalize hit in
  let phi := Ideal.atan2 (vy point) (vx point) in
  unit point /\
  unit (Hopf.longitudeSample phi i) /\
  vx point * sin phi = vy point * cos phi /\
  vx (Hopf.longitudeSample phi i) * sin phi = vy (Hopf.longitudeSample phi i) * cos phi /\
  unit (Hopf.latitudeSample (sqrt (1 - vz point * vz point)) point i) /\
  vz (Hopf.latitudeSample (sqrt (1 - vz point * vz point)) point i) = vz point.
Proof.
  intros Hl point phi. pose proof (@normalize_unit hit Hl) as Hu. fold point in Hu.
  clearbody point. split; [exact Hu|].
  split; [|split; [apply atan2_in_plane|split; [|split; [|reflexivity]]]].
  - unfold unit, Hopf.longitudeSample. simpl. clearbody phi.
    set (theta := _ / 200 * PI * 2).
    pose proof (sin2_cos2 theta) as Ht. pose proof (sin2_cos2 phi) as Hp. unfold Rsqr in *.
    transitivity (sin theta * sin theta * (sin phi * sin phi + cos phi * cos phi)
                  + cos theta * cos theta); [ring | rewrite Hp; lra].
  - unfold Hopf.longitudeSample. simpl. ring.
  - pose proof (unit_bounds Hu) as Hz.
    unfold unit, Hopf.latitudeSample. simpl.
    set (t := _ / 200 * 2 * PI). set (r := sqrt _).
    assert (r * r = 1 - vz point * vz point) as Hr by (apply sqrt_sqrt; nra).
    pose proof (sin2_cos2 t) as Ht. unfold Rsqr in Ht.
    transitivity (r * r * (sin t * sin t + cos t * cos t) + vz point * vz point);
      [ring | rewrite Ht, Hr; ring].
Qed.

Lemma fiberPoint_full_turn (theta phi : R) :
  Hopf.fiberPoint theta phi 0 = Hopf.fiberPoint theta phi (2 * PI).
Proof.
  unfold Hopf.fiberPoint. simpl.
  replace (2 * PI + phi) with (0 + phi + 2 * INR 1 * PI) by (simpl; ring).
  rewrite cos_period, sin_period, cos_2PI, sin_2PI, cos_0, sin_0. reflexivity.
Qed.

(** X23: every fiber is a closed curve, in exact arithmetic: for every
    vector [n] with [n.z] between -1 and 1, where [Math.acos] is defined,
    and every positive number of segments the polyline that
    [getHopfFiberPoints] returns has [segments + 1] points and ends on the
    point it starts from. *)
Theorem fiber_is_closed (n : Vector3 R) (segments extra : nat) :
  -1 <= vz n <= 1 ->
  (0 < segments)%nat ->
  exists points,
    Hopf.getHopfFiberPoints (segments + 2 + extra) n (of_Z (Z.of_nat segments)) = Some points /\
    length points = S segments /\
    closedPath points.
Proof.
  intros _ Hpos. eexists. split; [apply getHopfFiberPoints_ideal; exact Hpos|].
  rewrite map_map. split; [rewrite length_map, length_seq; reflexivity|].
  destruct segments as [|last]; [lia|].
  apply closedPath_samples.
  replace (INR 0 * (2 * PI / INR (S last))) with 0 by (simpl; ring).
  replace (INR (S last) * (2 * PI / INR (S last))) with (2 * PI).
  - apply fiberPoint_full_turn.
  - field. apply not_0_INR. discriminate.
Qed.

Lemma fiberTimes_backwards (fuel : nat) (segments t : R) :
  t <= PI * 2 -> 2 * PI / segments <= 0 -> fiberTimes fuel segments t = None.
Proof.
  intros Ht Hstep. revert t Ht. induction fuel as [|fuel IH]; intros t Ht; [reflexivity|].
  change (fiberTimes (S fuel) segments t)
    with (if Ideal.leb t (PI * 2)
          then option_map (cons t) (fiberTimes fuel segments (t + 2 * PI / segments))
          else Some []).
  rewrite ideal_leb_true by exact Ht. rewrite IH by lra. reflexivity.
Qed.

(** X24: a negative number of segments never returns, in exact
    arithmetic: [t] steps backwards from 0 and stays below 2 pi, so the
    loop of [getHopfFiberPoints] has no last round, whatever the fuel. *)
Theorem negative_segments_never_return (fuel : nat) (n : Vector3 R) (k : positive) :
  Hopf.getHopfFiberPoints fuel n (of_Z (Zneg k)) = None.
Proof.
  rewrite getHopfFiberPoints_times.
  change (of_Z (Z.neg k)) with (IZR (Z.neg k)). change (of_Z 0) with 0.
  rewrite fiberTimes_backwards; [reflexivity | pose proof PI_RGT_0; lra |].
  assert (IZR (Z.neg k) < 0) as Hneg by (apply IZR_lt; lia).
  assert (/ IZR (Z.neg k) < 0) as Hinv by (apply Rinv_lt_0_compat; exact Hneg).
  unfold Rdiv. pose proof PI_RGT_0. nra.
Qed.

End HopfCurves.

(** ** Closed instances of the further properties *)

Section FurtherInstances.
#[local] Existing Instance Float.sample.
#[local] Existing Instance Ideal.number.
Local Open Scope js_scope.

Lemma missed_click_is_ignored_witness :
  let sh : Hopf.State PrimFloat.float :=
    Hopf.mkState true false false false 0 [] [] [] [] true false false in
  let ss : Stereo.State PrimFloat.float := Stereo.mkState false [] false true false false in
  Hopf.onClick 1002 (Hopf.mkClick true []) sh = Some sh /\
  Stereo.onClick (Stereo.mkClick false [V3 #1 #1 #0]) ss = ss.
Proof.
  intros sh ss.
  apply (missed_click_is_ignored 1002 (Hopf.mkClick true []) sh
           (Stereo.mkClick false [V3 #1 #1 #0]) ss).
  - right. reflexivity.
  - left. reflexivity.
Defined.

Lemma click_keeps_controls_witness :
  let sh : Hopf.State PrimFloat.float :=
    Hopf.mkState true false false false 0 [] [] [] [] true false false in
  let ss : Stereo.State PrimFloat.float := Stereo.mkState false [] false true false false in
  exists sh',
    Hopf.onClick 1002 (Hopf.mkClick true [V3 #1 #0 #0]) sh = Some sh' /\
    hopfControls sh' = hopfControls sh /\
    stereoControls (Stereo.onClick (Stereo.mkClick true [V3 #1 #1 #0]) ss) = stereoControls ss.
Proof.
  intros sh ss.
  destruct (Hopf.onClick 1002 (Hopf.mkClick true [V3 #1 #0 #0]) sh) as [sh'|] eqn:E.
  - exists sh'. split; [reflexivity|].
    apply (click_keeps_controls 1002 (Hopf.mkClick true [V3 #1 #0 #0]) sh
             (Stereo.mkClick true [V3 #1 #1 #0]) ss E).
  - exfalso. vm_compute in E. discriminate E.
Defined.

Lemma reachable_modes_exclusive_witness :
  let sh : Hopf.State PrimFloat.float := Hopf.userToggle Hopf.toggleLongitude Hopf.initial in
  let ss : Stereo.State PrimFloat.float :=
    Stereo.userToggle Stereo.latitude (Stereo.userToggle Stereo.point Stereo.initial) in
  hopfReachable 1002 sh /\ stereoReachable ss /\
  (hopfChecked sh <= 1)%nat /\ (stereoChecked ss <= 1)%nat.
Proof.
  intros sh ss.
  assert (hopfReachable 1002 sh) as Hh.
  { apply (hopfReachable_step (HopfChange Hopf.toggleLongitude)
             (hopfReachable_initial 1002)). reflexivity. }
  assert (stereoReachable ss) as Hs.
  { apply (stereoReachable_step (StereoChange Stereo.latitude)).
    apply (stereoReachable_step (StereoChange Stereo.point)).
    apply stereoReachable_initial. }
  split; [exact Hh|]. split; [exact Hs|].
  destruct (reachable_modes_exclusive Hh Hs) as [H1 [_ [_ [_ H5]]]].
  split; [exact H1 | exact H5].
Defined.

Lemma uncheck_clears_only_in_hopf_witness :
  let sh : Hopf.State PrimFloat.float :=
    Hopf.mkState false true false false 101 [] [] [Line [] 0xff0000 #1] [] false true false in
  let ss : Stereo.State PrimFloat.float :=
    Stereo.mkState false [Line [] Stereo.SPHERE_COLOR #1] false false true false in
  Stereo.checked Stereo.longitude ss = true /\
  hopfEmpty (Hopf.userToggle Hopf.toggleLongitude sh) /\
  Stereo.projectGroup (Stereo.userToggle Stereo.longitude ss) = Stereo.projectGroup ss.
Proof.
  intros sh ss. split; [reflexivity|].
  destruct (@uncheck_clears_only_in_hopf _ Hopf.toggleLongitude sh Stereo.longitude ss eq_refl)
    as [H1 [_ [H3 _]]].
  split; [exact H1 | exact H3].
Defined.

Lemma hopf_reachable_shape_witness :
  let s : Hopf.State PrimFloat.float := Hopf.userToggle Hopf.togglePoint Hopf.initial in
  hopfReachable 1002 s /\
  (length (Hopf.sphereLines s) <= 1)%nat /\ length (Hopf.markers s) = length (Hopf.fibers s).
Proof.
  intros s.
  assert (hopfReachable 1002 s) as Hr.
  { apply (hopfReachable_step (HopfChange Hopf.togglePoint) (hopfReachable_initial 1002)).
    reflexivity. }
  split; [exact Hr|]. apply (hopf_reachable_shape Hr).
Defined.

Lemma stereo_reachable_bounded_witness :
  let s : Stereo.State PrimFloat.float :=
    Stereo.onClick (Stereo.mkClick true [V3 #1 #1 #0])
      (Stereo.userToggle Stereo.point Stereo.initial) in
  stereoReachable s /\ (length (Stereo.projectGroup s) <= 3)%nat.
Proof.
  intros s.
  assert (stereoReachable s) as Hr.
  { apply (stereoReachable_step (StereoClick (Stereo.mkClick true [V3 #1 #1 #0]))).
    apply (stereoReachable_step (StereoChange Stereo.point)).
    apply stereoReachable_initial. }
  split; [exact Hr|]. apply (stereo_reachable_bounded Hr).
Defined.

Lemma point_clicks_accumulate_witness :
  let s : Hopf.State PrimFloat.float :=
    Hopf.mkState true false false false 11 [] [] [] [] true false false in
  let evs := [Hopf.mkClick true [V3 #1 #0 #0]; Hopf.mkClick true [V3 #0 #0 #2]] in
  Forall hopfAccepted evs /\ Hopf.holdScene s = false /\ Hopf.selectionMode s = true /\
  exists s',
    hopfClicks 1002 evs s = Some s' /\ Hopf.fiberIndex s' = 13%nat /\
    Hopf.markers s' =
      [Mesh (dec 15 3) 0x000000 (V3 #1 #0 #0); Mesh (dec 15 3) 0x000000 (V3 #0 #0 #1)].
Proof.
  intros s evs.
  assert (Forall hopfAccepted evs) as Hacc.
  { repeat constructor; discriminate. }
  split; [exact Hacc|]. split; [reflexivity|]. split; [reflexivity|].
  destruct (@point_clicks_accumulate Float.polyLibm 0 evs s Hacc eq_refl eq_refl eq_refl eq_refl)
    as [s' [E [Hidx [Hmk _]]]].
  exists s'. split; [exact E|]. split; [exact Hidx|].
  rewrite Hmk. vm_compute. reflexivity.
Defined.

Lemma mode_click_replaces_witness :
  let s : Hopf.State PrimFloat.float :=
    Hopf.mkState false false true false 0 [] [] [] [] false false true in
  let ev := Hopf.mkClick true [V3 #0 #1 #0] in
  Hopf.holdScene s = false /\ xorb (Hopf.longitudeMode s) (Hopf.latitudeMode s) = true /\
  exists s',
    Hopf.onClick 1002 ev s = Some s' /\
    Hopf.onClick 1002 ev
      (Hopf.setChildren Hopf.torusGroup [Line [] 0xff0000 #1]
         (Hopf.setChildren Hopf.sphereLinesGroup [Line [] 0x000000 #1] s)) = Some s'.
Proof.
  intros s ev. split; [reflexivity|]. split; [reflexivity|].
  destruct (@mode_click_replaces Float.polyLibm 0 ev s (V3 #0 #1 #0) []
              [Line [] 0xff0000 #1] [Line [] 0x000000 #1]
              eq_refl eq_refl eq_refl eq_refl eq_refl) as [s' [E1 [E2 _]]].
  exists s'. split; [exact E1 | exact E2].
Defined.

Lemma point_and_latitude_clicks_draw_witness :
  let s : Stereo.State PrimFloat.float := Stereo.mkState false [] false true false false in
  let p : Vector3 PrimFloat.float := V3 #1 #1 #0 in
  let ev := Stereo.mkClick true [p] in
  (distanceTo p Stereo.northPolePos <? dec 8 2) = false /\
  Stereo.togglePoint s = true /\
  Stereo.projectGroup (Stereo.onClick ev s) = stereoPointObjects p.
Proof.
  intros s p ev.
  assert ((distanceTo p Stereo.northPolePos <? dec 8 2) = false) as Hd
    by (vm_compute; reflexivity).
  split; [exact Hd|]. split; [reflexivity|].
  destruct (@point_and_latitude_clicks_draw _ _ ev s p [] eq_refl eq_refl eq_refl Hd)
    as [Hpoint _].
  apply Hpoint; reflexivity.
Defined.

Local Open Scope R_scope.

Lemma projectPoint_meets_the_plane_witness :
  vy (V3 1 1 0) <> 2 /\ Stereo.projectPoint (V3 1 1 0) = V3 2 0 0.
Proof.
  assert (vy (V3 1 1 0) <> 2) as Hy by (simpl; lra).
  split; [exact Hy|].
  destruct (@projectPoint_meets_the_plane (V3 1 1 0) Hy) as [Hx [_ [Hz _]]].
  rewrite projectPoint_coordinates in *. simpl in *. f_equal; lra.
Defined.

Lemma projectPoint_fixes_the_plane_witness :
  vy (V3 3 0 (-4)) = 0 /\ Stereo.projectPoint (V3 3 0 (-4)) = V3 3 0 (-4) /\
  vy (V3 1 1 0) <> 2 /\
  Stereo.projectPoint (Stereo.projectPoint (V3 1 1 0)) = Stereo.projectPoint (V3 1 1 0).
Proof.
  split; [reflexivity|].
  destruct (projectPoint_fixes_the_plane (V3 3 0 (-4))) as [Hfix _].
  split; [apply Hfix; reflexivity|].
  assert (vy (V3 1 1 0) <> 2) as Hy by (simpl; lra).
  split; [exact Hy|].
  destruct (projectPoint_fixes_the_plane (V3 1 1 0)) as [_ [_ Htwice]].
  apply Htwice. exact Hy.
Defined.

Lemma latitude_radius_values_witness :
  vy (V3 1 1 0) = 1 /\ stereoLatitudeRadius (V3 1 1 0) = 1.
Proof.
  split; [reflexivity|].
  destruct (latitude_radius_values (V3 1 1 0)) as [_ [Heq _]].
  apply Heq. reflexivity.
Defined.

Lemma latitude_circle_projects_to_circle_witness :
  0 <= vy (V3 1 1 0) < 2 /\
  Geometry.onSphere (Stereo.latitudeSample (stereoLatitudeRadius (V3 1 1 0)) (V3 1 1 0) 5).
Proof.
  assert (0 <= vy (V3 1 1 0) < 2) as Hy by (simpl; lra).
  split; [exact Hy|].
  destruct (@latitude_circle_projects_to_circle (V3 1 1 0) 5 Hy) as [Hs _]. exact Hs.
Defined.

Lemma longitude_circle_projects_to_line_witness :
  let angle := Ideal.atan2 (vz (V3 1 1 0)) (vx (V3 1 1 0)) in
  farFromPole (Stereo.longitudeSample angle 96) = true /\
  vy (Stereo.longitudeSample angle 96) < 2 /\
  vy (Stereo.projectPoint (Stereo.longitudeSample angle 96)) = 0.
Proof.
  intros angle.
  assert (farFromPole (Stereo.longitudeSample angle 96) = true) as Hfar.
  { apply far_iff. rewrite stereo_longitudeSample_96. unfold distanceToSquared. simpl.
    apply Rlt_le_trans with (sqrt (1 * 1)); [rewrite sqrt_square; lra|].
    apply sqrt_le_1_alt. lra. }
  split; [exact Hfar|].
  destruct (longitude_circle_projects_to_line (V3 1 1 0) 96) as [_ [_ [_ Hproj]]].
  destruct (Hproj Hfar) as [Hy [Hq _]]. split; [exact Hy | exact Hq].
Defined.

Lemma longitude_guard_bounds_projection_witness :
  farFromPole (Stereo.longitudeSample 0 96) = true /\
  Rabs (vx (Stereo.projectPoint (Stereo.longitudeSample 0 96))) <= 1600.
Proof.
  assert (farFromPole (Stereo.longitudeSample 0 96) = true) as Hfar.
  { apply far_iff. rewrite stereo_longitudeSample_96. unfold distanceToSquared. simpl.
    apply Rlt_le_trans with (sqrt (1 * 1)); [rewrite sqrt_square; lra|].
    apply sqrt_le_1_alt. lra. }
  split; [exact Hfar|].
  destruct (@longitude_guard_bounds_projection 0 96 Hfar) as [_ [Hx _]]. exact Hx.
Defined.

Lemma click_guard_bounds_projection_witness :
  Geometry.onSphere (V3 0 0 0) /\
  nltb (distanceTo (V3 0 0 0) Stereo.northPolePos) (dec 8 2) = false /\
  Rabs (vx (Stereo.projectPoint (V3 0 0 0))) <= 625.
Proof.
  assert (Geometry.onSphere (V3 0 0 0)) as Hs by (unfold Geometry.onSphere; simpl; lra).
  split; [exact Hs|]. split; [exact south_pole_is_far|].
  destruct (@click_guard_bounds_projection (V3 0 0 0) 0 Hs south_pole_is_far)
    as [_ [_ [Hx _]]].
  exact Hx.
Defined.

Lemma fiber_lies_over_its_base_point_witness :
  Geometry.unit (V3 0 0 1) /\
  Geometry.hopfMap
    (fiberPoint4 (Ratan.acos (vz (V3 0 0 1))) (Ideal.atan2 (vy (V3 0 0 1)) (vx (V3 0 0 1))) 1)
  = V3 0 0 1.
Proof.
  assert (Geometry.unit (V3 0 0 1)) as Hu by (unfold Geometry.unit; simpl; lra).
  split; [exact Hu|].
  destruct (@fiber_lies_over_its_base_point (V3 0 0 1) 1 Hu) as [_ [Hmap _]]. exact Hmap.
Defined.

Lemma hopf_samples_on_the_sphere_witness :
  length3 (V3 0 0 2) <> 0 /\ Geometry.unit (normalize (V3 0 0 2)).
Proof.
  assert (length3 (V3 0 0 2) <> 0) as Hl.
  { unfold length3. simpl. apply Rgt_not_eq, sqrt_lt_R0. lra. }
  split; [exact Hl|].
  destruct (@hopf_samples_on_the_sphere (V3 0 0 2) 0 Hl) as [Hu _]. exact Hu.
Defined.

Lemma fiber_is_closed_witness :
  -1 <= vz (V3 0 0 1) <= 1 /\ (0 < 8)%nat /\
  exists points,
    Hopf.getHopfFiberPoints 10 (V3 0 0 1) (of_Z 8) = Some points /\
    length points = 9%nat /\ closedPath points.
Proof.
  assert (-1 <= vz (V3 0 0 1) <= 1) as Hz by (simpl; lra).
  split; [exact Hz|]. split; [lia|].
  apply (@fiber_is_closed (V3 0 0 1) 8 0 Hz). lia.
Defined.

End FurtherInstances.
